(* ===== verification/_CoqProject ===== *)
-Q . S2P
Prelude.v
StrSeq.v
GoRuntime.v
Chars.v
RuntimeCorrect.v
Token.v
Lexer.v
Scan.v
ScanSeq.v
ScanAll.v
ScanRel.v
ScanBytes.v
ScanLayout.v
LexerInv.v
Refinement.v
LexerCorrect.v
LexerOverflow.v
Tokenizer.v
TokenizerLines.v
LexerHeap.v
HeapLemmas.v
HeapCorrect.v
Contract.v
LexerTree.v
TreeLemmas.v
TreeCorrect.v
CallerTree.v
LexerCases.v
LexerOps.v
LexerTrace.v
LexerSeq.v
LexerTests.v
TestVerdict.v
