(* ===== verification/Prelude.v ===== *)
(** * Verification of the Monkey lexer (package [lexer] of interpreterbook)

    The program is the scanner of an interpreter front end.  [lexer.New]
    wraps a source string in a cursor (the struct [Lexer]: the input, the
    position of the current byte, the position of the next one, the current
    byte), and every call of [NextToken] skips whitespace, looks at the
    current byte and returns one token, moving the cursor past its lexeme:
    one byte for punctuation, for the end of the input and for an illegal
    byte, a maximal run of letters for a word, a maximal run of digits for a
    number.  The scanner calls one other component, the package [token]
    (token kinds, the [Token] record and the keyword lookup [LookupIdent]);
    its source is not in src/, so it is modelled from the specification and
    from its uses in the lexer and in the tests.  src/lexer/lexer_test.go
    holds four tests, which are modelled too.  The caller of the scanner,
    which asks for tokens until it receives the end-of-input marker, is not
    in the repository either; its loop is modelled from the specification.

    ** Files, in dependency order

    - [Prelude] (this file): what the other files share.  The type [result]
      of a Go computation that may panic, with stdpp's monad notation; the
      string functions [str_drop], [str_take], [str_take_while],
      [str_drop_while], [str_head], [str_forallb], [str_infix] and their
      lemmas; the hint database [lexer]; the tactics [case_bool],
      [inv_result], [str_simpl], and [ascii_all], which proves a property of
      all bytes by running it on the 256 of them.
    - [StrSeq]: [str_filter], [str_concat] and the lemmas on strings of the
      form [x +:+ y] that the theorems on sequences of tokens need.
    - [GoRuntime]: the fragment of Go's semantics the lexer relies on.
      [IntSize] is the platform width of [int] (32 or 64 bits); [wrap] and
      [int_add] are two's complement addition; [len], [index] ([s[i]],
      panics out of range), [slice] ([s[lo:hi]], panics on bad bounds) and
      [string_of_byte] (the conversion [string(b)] of [newToken], which
      encodes the code point [b] in UTF-8, hence in two bytes for
      [b >= 0x80]).
    - [Chars]: [isLetter] and [isDigit] (lexer.go, 134-141), [isWhitespace]
      (the condition of the loop of [skipWhitespace], line 124) and
      [isPunctuation] (the case labels of the [switch], lines 43-59), with
      their code ranges and the facts the scanner needs of them.
    - [RuntimeCorrect]: the theorems on these two files: [int_add_1_cases],
      [slice_spec], [string_of_byte_utf8] (against a decoder, [utf8_decode]),
      [isLetter_isDigit_codes], [char_classes_exclusive].
    - [Token]: the package [token]: [TokenType], [Token], the map [keywords]
      (a [gmap string TokenType]) and [LookupIdent].  The class [Classifier]
      is the interface the scanner is proved against: a lookup that only
      answers [IDENT] or a keyword kind.  [token_classifier] is the instance
      that [LookupIdent] gives.
    - [Lexer]: the model of src/lexer/lexer.go, definitions only.  The
      struct [Lexer] is a record with the four fields of the source; a
      method with a pointer receiver is a function that returns the updated
      struct in a [result].  [readChar], [New], [newToken], [readWhile] (the
      shape the three loops [for cond(currentChar) { readChar() }] share),
      [skipWhitespace], [readIdentifier], [readDigit], and [NextToken],
      whose body is the [switch] of the source as a chain of comparisons in
      the order of its cases; the two scanning cases return early, every
      other case, the one of the zero byte included, reaches the [readChar]
      after the [switch].  [NextTokens n] is [n] calls in a row.
    - [Scan]: the specification.  [scan r] is the token at the head of the
      remaining input [r] and the number of bytes the call consumes;
      [scan_n] iterates it; [token_wf] and [token_shape] say what a well
      formed token is.
    - [ScanSeq]: theorems on the specification that relate two inputs: a
      token that ends where a prefix ends does not depend on what follows,
      whitespace inserted where a token ends changes no token, and the
      literals concatenated are the input without its whitespace.
    - [ScanAll]: [scan_all r], the tokens of [r] up to the first [EOF], by
      well-founded recursion on the length of [r] (with Equations: every
      token but [EOF] takes a byte); [print_tokens], which writes tokens
      with one space between them, and [printable]; scanning what was
      printed gives the tokens back; a zero byte ends the input.
    - [ScanRel]: the same specification as rules: the relation [next_token]
      (one rule per kind of lexeme) and its closure [tokens]; the rules
      derive what [scan] and [scan_all] compute and nothing else.
    - [ScanBytes]: [token_bytes], the bytes of the input a token stands for
      (the literal of an [ILLEGAL] token decoded from UTF-8); by induction on
      the rules, the bytes of the tokens are the input before its first zero
      byte without the whitespace.  [pass_width], the positions a pass
      moves the cursor, is the length of the input before its first zero
      byte and one ([pass_width_before_NUL]).
    - [ScanLayout]: layouts (tokens with the whitespace before each),
      [render], [layout_ok]: the tokens of a rendered layout are its tokens,
      and every ASCII input without zero bytes is the rendering of a layout
      of its tokens.
    - [LexerInv]: the states [lexer_at s pos], the invariant [lexer_inv]
      ([nextCharPosition = currentPosition + 1], not overflowed, the current
      byte is the byte under the cursor, zero past the end), the remaining
      input [rest], what [readChar] and the loops do to such states, and the
      adequacy of the fuel.
    - [Refinement]: [NextToken] on a state with the invariant is [scan] on
      the remaining input ([NextToken_scan], [NextToken_inv_scan]), and
      [NextTokens] is [scan_n] ([NextTokens_scan_n]).
    - [LexerCorrect]: the theorems on one call: refinement, preservation of
      the invariant, progress, termination of the loops, literal fidelity,
      well-formed tokens, what [New] establishes, whitespace before a token.
    - [LexerOverflow]: the calls at the end of the input.  [EOF] is returned
      every time but the cursor keeps moving; [n] calls are safe while
      [len input + n + 1] is below the largest [int]; beyond, the position
      wraps around and [readChar] panics.  [calls_outcome n s] is what [n]
      calls on a new lexer come to, read off the position the specification
      has reached, and [NextTokens_outcome] proves it for every [n]: the
      tokens of the specification up to the largest [int], an index out of
      range beyond it.
    - [Tokenizer]: the caller.  [collect] is the loop that calls
      [NextToken] until the token is [EOF], [Tokenize] a whole pass on a new
      lexer.  The loop refines [scan_all] from every state with the
      invariant ([collect_refines_scan_all]); the pass returns what the
      calls of [NextToken] return before the first [EOF]
      ([Tokenize_NextTokens]), ends with well-formed tokens
      ([Tokenize_tokens_wf]), reads printed tokens back ([Tokenize_print],
      [Tokenize_canonical]), is described by the rules
      ([NextToken_next_token], [Tokenize_tokens]) and by layouts
      ([Tokenize_layout]), keeps every byte but whitespace
      ([Tokenize_bytes]) and stops at a zero byte
      ([Tokenize_NUL_truncates]).
    - [TokenizerLines]: a caller that reads its input line by line, as the
      read-eval-print loop of an interpreter does: [TokenizeLines] makes a
      pass per line, each with a lexer of its own.  The specification is
      compositional at whitespace ([scan_all_app_sep]), so the passes over
      the lines return the tokens of one pass over the whole input
      [unlines lines] ([Tokenize_lines]), unless a line holds a zero byte
      ([Tokenize_lines_NUL]).
    - [LexerHeap]: lexer.go a second time, with the pointers of the source.
      [New] returns a [*Lexer] and the methods have pointer receivers, so a
      lexer is an object that parts of a program can share.  A heap is a
      [gmap] from pointers [ptr] to [Lexer] structs; [go A] is a
      computation that reads and changes the heap and may panic.
      [ptr_New], [ptr_readChar], [ptr_readWhile], [ptr_skipWhitespace],
      [ptr_readIdentifier], [ptr_readDigit] and [ptr_NextToken] are the
      functions of lexer.go statement by statement: [alloc] for
      [&Lexer{...}], a [load] for every field read, a [store] for every
      assignment.  [serve] is a sequence of calls of [NextToken], each
      through a pointer; [two_passes] and [shared_pass] are two callers
      whose calls come in any order ([schedule]), with a lexer each or
      with one lexer between them.
    - [HeapLemmas]: [implements m p f], the calculus that relates a heap
      computation to a function on the struct at [p], and its instances
      for the methods.
    - [HeapCorrect]: the methods on pointers refine the functions of
      [Lexer] and leave the rest of the heap alone ([Ptr_methods_refine],
      [NextToken_ptr_frame]), [New] allocates ([New_ptr_fresh]), two
      passes with a lexer each are independent however their calls are
      interleaved ([two_passes_independent]), and two callers of one lexer
      are each given part of its tokens ([shared_pass_splits]).
    - [Contract]: the contract between the scanner and its caller, as the
      class [Scanner]: construction, the next token, the input that is
      left, and the laws that tie them to [scan].  The caller's pass
      [pass] is proved against the class alone (the lemma [pass_scan_all],
      which by itself says nothing of lexer.go); the lexer on structs
      ([lexer_scanner]) and the lexer behind a pointer ([heap_scanner])
      are instances, their laws discharged by the refinement theorems on
      [New] and [NextToken], and [lexers_keep_contract] is the theorem on
      these two lexers.
    - [LexerTree]: lexer.go a third time, without fuel.  The methods are
      interaction trees ([tree_New], [tree_readChar], ...,
      [tree_NextToken]) over the events [lexE]: a field read, an
      assignment, a panic; a loop is [ITree.iter], which is free to go on
      for ever.  The handler [h_mem] runs the events on a state that holds
      the struct and counts the assignments; [run_tree] is a tree run from
      a state.  [iterations] and [readChars] count, on the model with
      fuel, the turns of a loop and the calls of [readChar] in a call of
      [NextToken].
    - [TreeLemmas]: [computes t l r k], the calculus that relates a tree
      run on the struct [l] to a result [r] of the model with fuel and a
      number [k] of assignments, and its instances for the methods; a loop
      without fuel computes what the loop with fuel computes, given any
      fuel that is not used up.
    - [TreeCorrect]: the trees refine the functions of [Lexer] on every
      struct, panics included ([Tree_methods_refine]); on a state with the
      invariant a call ends and makes three assignments for every byte it
      moves the cursor ([Tree_NextToken_cost]).
    - [CallerTree]: the caller's loop as a tree that asks for tokens
      ([lexerE], [collect_loop]) and the lexer as the handler that answers:
      with the function with fuel ([h_lexer]) or with the tree
      ([h_call]).  The loop ends with the tokens of [scan_all] from every
      state with the invariant ([collect_loop_terminates]), and a pass
      with no fuel at all
      ([tokenize_pass]) makes [3 * n + 7] assignments, [n] the bytes of
      the input before its first zero byte ([tokenize_pass_linear]).
    - [LexerCases]: the behaviour case by case: words and keywords, numbers
      (["5x"] is a number and a word), punctuation, bytes outside ASCII, a
      zero byte inside the input, keyword closure.
    - [LexerOps]: the contracts of [readChar], [skipWhitespace],
      [readIdentifier] and [readDigit] on their own, the independence of
      the loops from their fuel and of the scanner from the classifier.
    - [LexerTrace]: the executions of a caller as a step relation [run],
      its invariant by induction on runs, its equivalence with
      [NextTokens], and termination: after at most [len input] calls every
      token is [EOF].  [run_lookahead] is the invariant of the
      specification at the width of [int], on every run whatever its
      length: [nextCharPosition] is [currentPosition + 1] in the arithmetic
      of [int].
    - [LexerSeq]: whitespace invisibility and the concatenation of the
      literals, for the lexer.
    - [LexerTests]: the tables, the loop and the four test functions of
      src/lexer/lexer_test.go.  That the tests pass on the model, and the
      example scenarios of the specification, are computations on fixed
      inputs ([tests_pass], [spec_scenarios]): a test of the model, not a
      property of the program.
    - [TestVerdict]: what the loop of the table tests decides.
      [table_verdict rows toks] is the verdict of a table on a list of
      tokens, without a lexer: the first row that differs from its token
      ([differs], found by stdpp's [list_find]), reported as the source
      reports it ([report]: the kind before the literal); [table_calls] is
      the number of calls made up to that row.  A table test ends with the
      verdict of its table on the tokens of the specification, on the
      branches that call [t.Fatalf] too ([check_tokens_verdict]), and does
      not depend on what follows the last token of its table
      ([check_tokens_local]).

    ** Modelling choices, bounds and fuel

    - A Go [string] is a Rocq [string] (a sequence of bytes), a [byte] an
      [ascii].  Positions are [Z], kept in the range of [int] by [wrap]; the
      theorems hold for both widths of [int].
    - A run-time panic is the value [Panic p] of [result].  On a state with
      the invariant no call panics while [nextCharPosition] is below the
      largest [int]; the hypothesis [len input + n + 1 < max_int] of the
      theorems on [n] calls says this of a whole run, and
      [NextTokens_overflow_panics] shows that the bound cannot be dropped.
      [NextTokens_outcome] has no such bound: it gives the outcome of [n]
      calls for every [n], the panic included, under the one hypothesis
      [len input + 1 < max_int].
    - [lexer_inv] is the invariant of the specification (section 3:
      the next position is the cursor plus one, the current byte is a
      function of the cursor and the input) together with two bounds of
      the development's own: [len input + 1 < max_int] and
      [nextCharPosition ≤ max_int].  It is not inductive at
      [nextCharPosition = max_int], where a call returns [EOF] and leaves
      the wrapped state: hence the hypothesis [nextCharPosition < max_int]
      of the theorems on one call.  Every state reached within the range
      of [int] meets it ([run_inv]); [run_lookahead] and
      [NextTokens_outcome] cover the states beyond.
    - [NextTokens] and [run] are not code of the repository: they are the
      calls a caller makes, [n] in a row, as a function and as a relation.
      The loop of the tests is [check_tokens].
    - A loop takes fuel, since Rocq functions terminate.  [loop_fuel] gives
      a loop one iteration more than the bytes from [nextCharPosition] to
      the end of the input: each iteration moves [nextCharPosition] by one
      and the zero byte past the end stops every loop, so this is enough in
      every state, also those without the invariant ([readWhile_fuel],
      [NextToken_total]), and more fuel changes nothing
      ([readWhile_fuel_independent]).  [OutOfFuel] is therefore never a
      result.
    - The caller's loop [collect] takes fuel too.  [Tokenize] gives it the
      length of the input: a token other than [EOF] takes at least one byte
      ([Scan.scan_drop_lt]), so the loop meets [EOF] after at most that many
      tokens; any larger amount gives the same result
      ([collect_more_fuel]).  The same measure makes the specification
      [scan_all] a total function.
    - A pass that stops at the first [EOF] moves the cursor at most one
      position past the end of the input, so its only bound is
      [len input + 1 < max_int]; the overflow below needs a caller that
      goes on calling after [EOF].
    - That the fuel is a device of the model and not a bound of the program
      is a theorem: in [LexerTree] and [CallerTree] the loops have no
      bound, and the trees are equivalent (up to silent steps, [≈]) to
      what the functions with fuel return ([Tree_methods_refine],
      [collect_loop_terminates]).  An equivalence with a tree that returns is
      a proof of termination: a loop that went on for ever would be
      equivalent to no such tree.
    - The work of a call is measured in assignments to the struct, which
      the handler [h_mem] counts: three per call of [readChar], one more in
      [New].
    - The three models of lexer.go have names of their own, so that a name
      is one definition: [readChar] is the function on the struct,
      [ptr_readChar] the method on the heap, [tree_readChar] the tree.
    - In the heap model a call of [NextToken] is atomic: callers are
      interleaved call by call.  This is the behaviour of a program without
      goroutines, as the specification describes it.
    - The scanner is parametric in a [Classifier]: the theorems that do not
      mention keywords hold for every lookup function.

    ** What the development found

    The case of the zero byte does not return early, so a call at the end of
    the input still advances the cursor ([NextToken_eof_advances]); repeated
    often enough this overflows the position and the lexer panics
    ([NextTokens_overflow_panics]), exactly when the cursor would pass the
    largest [int] ([NextTokens_outcome]); up to there the invariant of the
    specification holds in the arithmetic of [int] ([run_lookahead]).  A
    zero byte inside the input is taken for the end of the input
    ([NextToken_embedded_NUL]), so that a pass
    returns nothing of what follows it ([Tokenize_NUL_truncates]).  The
    literal of an [ILLEGAL] token for a byte outside ASCII is two bytes that
    do not occur in the input ([NextToken_non_ascii]); literal fidelity
    ([NextToken_literal_slice], [NextTokens_literals]) holds for ASCII
    input, and for every input once these literals are decoded
    ([Tokenize_bytes]).  The work of a call is not proportional to the
    length of its lexeme, as the specification says, but to the whitespace
    before it and the lexeme ([Tree_NextToken_cost]); over a whole pass it
    is linear in the input ([tokenize_pass_linear]).  Two callers of one
    lexer do not corrupt it, but each misses the tokens the other was given
    ([shared_pass_splits]), which is why the specification asks for a lexer
    per pass ([two_passes_independent]).  The tables of the tests stop at
    the last token of their input: no test asks for the [EOF] at the end,
    and each gives the same verdict on every input that continues its own
    with something other than a letter or a digit ([check_tokens_local]);
    the scenarios of the specification end with the end-of-input token.

    ** Not modelled

    The host program that would drive the lexer and the parser that would
    consume its tokens are not in the repository; of the caller only the
    loop the specification describes, a pass per line of the input, and
    the order in which several callers make their calls, are modelled; how
    a host program reads its input is not.  Two calls that run at the same
    time on one lexer (a data race between goroutines) are not modelled:
    the program starts no goroutine, and the specification rules such a use
    out.  Of [testing.T] only the outcome of a test is kept (pass, or the
    first call of [Fatalf] with its arguments), not the text of the
    messages.  The package [token] is modelled from the specification.
    Inputs of [max_int - 1] bytes and more are outside the theorems on
    whole passes.  Time is not modelled beyond the count of assignments. *)

From Stdlib Require Import ZArith Ascii String Lia.
From stdpp Require Import base tactics option strings.

(** This file: the [result] monad, string functions and lemmas, automation. *)

(** ** Results of computations that may panic *)

(** The run-time panics the lexer can raise, and [OutOfFuel], which is not a
    behaviour of the program but the answer of a loop of the model whose fuel
    is used up.  [NilDereference] is the panic of a method called through a
    pointer that points to no lexer. *)
Inductive panic : Set :=
| IndexOutOfRange
| SliceBoundsOutOfRange
| NilDereference
| OutOfFuel.

Inductive result (A : Type) : Type :=
| Ok (a : A)
| Panic (p : panic).
Arguments Ok {A} a.
Arguments Panic {A} p.

#[export] Instance panic_eq_dec : EqDecision panic.
Proof. solve_decision. Defined.

#[export] Instance result_eq_dec `{EqDecision A} : EqDecision (result A).
Proof. solve_decision. Defined.

#[export] Instance result_ret : MRet result := @Ok.

#[export] Instance result_bind : MBind result := λ A B f m,
  match m with
  | Ok a => f a
  | Panic p => Panic p
  end.

#[export] Instance result_fmap : FMap result := λ A B f m,
  match m with
  | Ok a => Ok (f a)
  | Panic p => Panic p
  end.

(** [is_Ok m]: the computation returned a value. *)
Definition is_Ok {A} (m : result A) : bool :=
  match m with
  | Ok _ => true
  | Panic _ => false
  end.

(** ** String functions

    [String.substring], [String.get] and [String.length] are the Standard
    Library's; the functions below split a string at a position or at the
    first byte that fails a test. *)

Fixpoint str_drop (n : nat) (s : string) : string :=
  match n, s with
  | S n', String _ s' => str_drop n' s'
  | _, _ => s
  end.

Fixpoint str_take (n : nat) (s : string) : string :=
  match n, s with
  | S n', String c s' => String c (str_take n' s')
  | _, _ => EmptyString
  end.

Fixpoint str_take_while (p : ascii → bool) (s : string) : string :=
  match s with
  | String c s' => if p c then String c (str_take_while p s') else EmptyString
  | EmptyString => EmptyString
  end.

Fixpoint str_drop_while (p : ascii → bool) (s : string) : string :=
  match s with
  | String c s' => if p c then str_drop_while p s' else s
  | EmptyString => EmptyString
  end.

(** The first byte of a string, [d] when there is none. *)
Definition str_head (d : ascii) (s : string) : ascii :=
  match s with
  | String c _ => c
  | EmptyString => d
  end.

Definition str_tail (s : string) : string :=
  match s with
  | String _ s' => s'
  | EmptyString => EmptyString
  end.

(** Every byte of the string passes the test. *)
Fixpoint str_forallb (p : ascii → bool) (s : string) : bool :=
  match s with
  | String c s' => p c && str_forallb p s'
  | EmptyString => true
  end.

(** [str_infix w s]: [w] occurs in [s] as a contiguous substring. *)
Definition str_infix (w s : string) : Prop :=
  ∃ pre post, s = pre +:+ w +:+ post.

(** [ascii_forallb P]: [P] holds of each of the 256 bytes. *)
Definition ascii_forallb (P : ascii → bool) : bool :=
  forallb (λ n, P (ascii_of_nat n)) (seq 0 256).

(** ** Automation *)

Create HintDb lexer discriminated.
Create Rewrite HintDb lexer.

(** Case analysis on the boolean test the goal branches on. *)
Ltac case_bool :=
  match goal with
  | |- context [if ?b then _ else _] => destruct b eqn:?
  end.

(** Inversion of a hypothesis that a sequence of computations returned. *)
Ltac inv_result :=
  repeat match goal with
  | H : Ok _ = Ok _ |- _ => injection H as H; try subst
  | H : Ok _ = Panic _ |- _ => discriminate H
  | H : Panic _ = Ok _ |- _ => discriminate H
  | H : Panic _ = Panic _ |- _ => injection H as H; try subst
  | H : (_, _) = (_, _) |- _ => injection H as ??; try subst
  end.

(** ** Deciding a property of all bytes *)

Lemma ascii_forallb_spec (P : ascii → bool) :
  ascii_forallb P = true → ∀ c, P c = true.
Proof.
  unfold ascii_forallb. rewrite forallb_forall. intros H c.
  rewrite <- (ascii_nat_embedding c). apply H, in_seq.
  pose proof (nat_ascii_bounded c). lia.
Qed.

(** [ascii_all]: prove a goal [∀ c, P c = true] by running the test on the
    256 bytes. *)
Ltac ascii_all :=
  lazymatch goal with
  | |- ∀ c : ascii, @?P c = true =>
      apply (ascii_forallb_spec P); vm_compute; reflexivity
  end.

(** ** Lemmas on [result] *)

Section result.
Context {A B : Type}.
Implicit Types (m : result A) (f : A → result B).

Lemma result_bind_Ok m f b :
  m ≫= f = Ok b ↔ ∃ a, m = Ok a ∧ f a = Ok b.
Proof.
  destruct m as [a|p]; simpl; split.
  - by exists a.
  - by intros (? & [= <-] & ?).
  - done.
  - by intros (? & ? & ?).
Qed.

Lemma result_bind_Panic m f p :
  m ≫= f = Panic p ↔ m = Panic p ∨ ∃ a, m = Ok a ∧ f a = Panic p.
Proof.
  destruct m as [a|q]; simpl; split.
  - intros ?. right. by exists a.
  - by intros [? | (? & [= <-] & ?)].
  - intros [= ->]. by left.
  - by intros [[= ->] | (? & ? & ?)].
Qed.

Lemma result_bind_eq m f a : m = Ok a → m ≫= f = f a.
Proof. by intros ->. Qed.

Lemma is_Ok_true m : is_Ok m = true ↔ ∃ a, m = Ok a.
Proof.
  destruct m as [a|p]; simpl; split; try done.
  - by exists a.
  - by intros (? & ?).
Qed.

End result.

(** ** Lemmas on strings *)

(** stdpp keeps [simpl] from unfolding [+:+]: these two equations are its
    computation rules, and [str_simpl] applies them. *)
Lemma str_app_nil_l (s : string) : "" +:+ s = s.
Proof. reflexivity. Qed.

Lemma str_app_cons (c : ascii) (s r : string) :
  String c s +:+ r = String c (s +:+ r).
Proof. reflexivity. Qed.

Ltac str_simpl :=
  simpl; repeat first [rewrite str_app_nil_l | rewrite str_app_cons]; simpl.

Section strings.
Implicit Types (s w r : string) (c d : ascii) (n m : nat) (p : ascii → bool).

Lemma str_length_app s r :
  String.length (s +:+ r) = String.length s + String.length r.
Proof. induction s; str_simpl; auto. Qed.

Lemma str_app_nil_r s : s +:+ "" = s.
Proof. induction s; str_simpl; congruence. Qed.

Lemma str_app_assoc s w r : (s +:+ w) +:+ r = s +:+ w +:+ r.
Proof. induction s; str_simpl; congruence. Qed.

Lemma str_take_drop n s : str_take n s +:+ str_drop n s = s.
Proof. revert s; induction n; intros [|c s]; str_simpl; f_equal; auto. Qed.

Lemma str_drop_0 s : str_drop 0 s = s.
Proof. by destruct s. Qed.

Lemma str_drop_nil n : str_drop n "" = "".
Proof. by destruct n. Qed.

Lemma str_length_drop n s :
  String.length (str_drop n s) = String.length s - n.
Proof. revert s; induction n; intros [|c s]; simpl; auto. Qed.

Lemma str_length_take n s :
  String.length (str_take n s) = n `min` String.length s.
Proof. revert s; induction n; intros [|c s]; simpl; auto. Qed.

Lemma str_drop_ge n s : String.length s ≤ n → str_drop n s = "".
Proof.
  revert s; induction n; intros [|c s]; simpl; intros; auto with lia.
Qed.

Lemma str_drop_app_length s r : str_drop (String.length s) (s +:+ r) = r.
Proof. induction s; str_simpl; [apply str_drop_0 | done]. Qed.

Lemma str_take_app_length s r : str_take (String.length s) (s +:+ r) = s.
Proof. induction s; str_simpl; [by destruct r | congruence]. Qed.

Lemma str_drop_S n s : str_drop (S n) s = str_tail (str_drop n s).
Proof.
  revert s; induction n as [|n IH]; intros [|c s]; try done.
  apply (IH s).
Qed.

Lemma str_drop_drop n m s : str_drop m (str_drop n s) = str_drop (n + m) s.
Proof.
  revert s; induction n; intros [|c s]; simpl; auto using str_drop_nil.
Qed.

Lemma str_get_drop n s : get n s = get 0 (str_drop n s).
Proof. revert s; induction n; intros [|c s]; simpl; auto. Qed.

Lemma str_get_0 s : get 0 s = match s with String c _ => Some c | "" => None end.
Proof. by destruct s. Qed.

Lemma str_get_ge n s : String.length s ≤ n → get n s = None.
Proof.
  revert n; induction s; intros [|n]; simpl; intros; auto with lia.
Qed.

Lemma str_substring_take_drop n m s :
  substring n m s = str_take m (str_drop n s).
Proof.
  revert m s; induction n; intros m s.
  - rewrite str_drop_0. revert s; induction m; intros [|c s]; simpl; f_equal; auto.
  - destruct s; simpl; [by destruct m | auto].
Qed.

Lemma str_take_while_drop_while p s :
  str_take_while p s +:+ str_drop_while p s = s.
Proof. induction s; simpl; [done | case_bool; str_simpl; congruence]. Qed.

Lemma str_forallb_take_while p s : str_forallb p (str_take_while p s) = true.
Proof. induction s; simpl; [done | case_bool; simpl; [rewrite Heqb |]; done]. Qed.

Lemma str_head_drop_while p s d :
  p d = false → p (str_head d (str_drop_while p s)) = false.
Proof. intros Hd. induction s; simpl; [done | case_bool; done]. Qed.

Lemma str_drop_while_head_false p s d :
  p (str_head d s) = false → s ≠ "" → str_drop_while p s = s.
Proof. destruct s; simpl; [done | by intros ->]. Qed.

Lemma str_length_drop_while p s :
  String.length (str_drop_while p s) ≤ String.length s.
Proof. induction s; simpl; [done | case_bool; simpl; lia]. Qed.

Lemma str_drop_take_while p s :
  str_drop (String.length (str_take_while p s)) s = str_drop_while p s.
Proof.
  rewrite <- (str_take_while_drop_while p s) at 2.
  apply str_drop_app_length.
Qed.

Lemma str_take_take_while p s :
  str_take (String.length (str_take_while p s)) s = str_take_while p s.
Proof.
  rewrite <- (str_take_while_drop_while p s) at 2.
  apply str_take_app_length.
Qed.

Lemma str_length_take_while p s :
  String.length (str_take_while p s) ≤ String.length s.
Proof. induction s; simpl; [done | case_bool; simpl; lia]. Qed.

Lemma str_take_while_head_false p s d :
  p (str_head d s) = false → p d = false → str_take_while p s = "".
Proof. destruct s; simpl; [done | by intros ->]. Qed.

Lemma str_take_while_nonempty p s d :
  p (str_head d s) = true → p d = false → str_take_while p s ≠ "".
Proof. destruct s; simpl; [congruence | by intros ->]. Qed.

Lemma str_forallb_app p s r :
  str_forallb p (s +:+ r) = str_forallb p s && str_forallb p r.
Proof. induction s; str_simpl; [done | by rewrite IHs, andb_assoc]. Qed.

Lemma str_take_while_app_stop p w c r :
  str_forallb p w = true → p c = false →
  str_take_while p (w +:+ String c r) = w.
Proof.
  intros Hw Hc. induction w as [|a w IH]; str_simpl; simpl in Hw;
    [by rewrite Hc |].
  apply andb_prop in Hw as [-> Hw]. by rewrite IH.
Qed.

Lemma str_take_while_app_head p w r d :
  str_forallb p w = true → p (str_head d r) = false → p d = false →
  str_take_while p (w +:+ r) = w.
Proof.
  intros Hw Hr Hd. destruct r as [|c r].
  - rewrite str_app_nil_r. clear Hr.
    induction w as [|a w IH]; simpl in *; [done |].
    apply andb_prop in Hw as [-> Hw]. by rewrite IH.
  - by apply str_take_while_app_stop.
Qed.

Lemma str_head_app d w r : w ≠ "" → str_head d (w +:+ r) = str_head d w.
Proof. by destruct w. Qed.

Lemma str_forallb_head_nonempty p d w :
  w ≠ "" → str_forallb p w = true → p (str_head d w) = true.
Proof. destruct w; simpl; [done |]. by intros _ [? _]%andb_prop. Qed.

Lemma str_take_while_all p w :
  str_forallb p w = true → str_take_while p w = w.
Proof.
  induction w as [|a w IH]; simpl; [done |].
  intros [-> Hw]%andb_prop. by rewrite IH.
Qed.

Lemma str_take_while_app p w r :
  str_forallb p w = true →
  str_take_while p (w +:+ r) = w +:+ str_take_while p r.
Proof.
  induction w as [|a w IH]; str_simpl; [done |].
  intros [-> Hw]%andb_prop. by rewrite IH.
Qed.

Lemma str_drop_while_app p w r :
  str_forallb p w = true → str_drop_while p (w +:+ r) = str_drop_while p r.
Proof.
  induction w as [|a w IH]; str_simpl; [done |].
  intros [-> Hw]%andb_prop. by rewrite IH.
Qed.

Lemma str_forallb_impl p q s :
  (∀ c, p c = true → q c = true) →
  str_forallb p s = true → str_forallb q s = true.
Proof.
  intros Hpq. induction s as [|a s IH]; simpl; [done |].
  intros [Ha Hs]%andb_prop. by rewrite (Hpq _ Ha), IH.
Qed.

Lemma str_forallb_drop p n s :
  str_forallb p s = true → str_forallb p (str_drop n s) = true.
Proof.
  revert s; induction n as [|n IH]; intros [|c s]; simpl; try done.
  intros [_ Hs]%andb_prop. by apply IH.
Qed.

Lemma str_forallb_drop_while p q s :
  str_forallb p s = true → str_forallb p (str_drop_while q s) = true.
Proof.
  induction s as [|c s IH]; simpl; [done |]. case_bool; [| done].
  intros [_ Hs]%andb_prop. by apply IH.
Qed.

Lemma str_forallb_head p d s :
  str_forallb p s = true → p d = true → p (str_head d s) = true.
Proof. destruct s; simpl; [done |]. by intros [? _]%andb_prop. Qed.

Lemma str_drop_app_ge n s r :
  String.length s ≤ n → str_drop n (s +:+ r) = str_drop (n - String.length s) r.
Proof.
  revert n; induction s as [|c s IH]; intros n; str_simpl.
  - by rewrite Nat.sub_0_r.
  - destruct n; simpl; [lia |]. intros. apply IH. lia.
Qed.

Lemma str_infix_refl s : str_infix s s.
Proof. exists "", "". by rewrite str_app_nil_l, str_app_nil_r. Qed.

Lemma str_infix_substring n m s : str_infix (substring n m s) s.
Proof.
  rewrite str_substring_take_drop.
  exists (str_take n s), (str_drop m (str_drop n s)).
  by rewrite !str_take_drop.
Qed.

Lemma str_infix_app_l w s r : str_infix w s → str_infix w (r +:+ s).
Proof.
  intros (pre & post & ->). exists (r +:+ pre), post.
  by rewrite str_app_assoc.
Qed.

Lemma str_infix_app_r w s r : str_infix w s → str_infix w (s +:+ r).
Proof.
  intros (pre & post & ->). exists pre, (post +:+ r).
  by rewrite !str_app_assoc.
Qed.

Lemma str_infix_take_while p s : str_infix (str_take_while p s) s.
Proof.
  exists "", (str_drop_while p s).
  by rewrite str_app_nil_l, str_take_while_drop_while.
Qed.

Lemma str_infix_head c s : str_infix (String c "") (String c s).
Proof. by exists "", s. Qed.

Lemma str_infix_nil s : str_infix "" s.
Proof. by exists "", s. Qed.

Lemma str_infix_length w s : str_infix w s → String.length w ≤ String.length s.
Proof. intros (pre & post & ->). rewrite !str_length_app. lia. Qed.

End strings.

#[export] Hint Rewrite str_app_nil_l str_app_cons str_length_app
  str_length_drop str_length_take str_app_nil_r str_drop_0 str_drop_nil : lexer.
#[export] Hint Resolve str_infix_refl str_infix_substring str_infix_nil
  str_infix_head str_infix_take_while str_length_drop_while
  str_length_take_while : lexer.
