(* ===== verification/StrSeq.v ===== *)
(** * Strings cut in pieces

    [str_filter] and [str_concat], and the lemmas on strings of the form
    [x +:+ y] that the theorems on sequences of tokens use: where a prefix
    of bytes that pass a test ends when it ends inside [x], and what it
    tells of [x] and [y] when it ends exactly between them. *)

From Stdlib Require Import ZArith Ascii String List Lia.
From stdpp Require Import base tactics option strings.
From S2P Require Import Prelude.

(** The bytes of [s] that pass the test, in their order. *)
Fixpoint str_filter (p : ascii → bool) (s : string) : string :=
  match s with
  | String c s' => if p c then String c (str_filter p s') else str_filter p s'
  | EmptyString => EmptyString
  end.

(** The strings of the list, one after the other. *)
Fixpoint str_concat (l : list string) : string :=
  match l with
  | w :: l' => w +:+ str_concat l'
  | [] => EmptyString
  end.

Section strings.
Implicit Types (s w r x y : string) (c d : ascii) (n m : nat)
  (p : ascii → bool) (l : list string).

Lemma str_filter_app p s r :
  str_filter p (s +:+ r) = str_filter p s +:+ str_filter p r.
Proof.
  induction s as [|c s IH]; str_simpl; [done |].
  rewrite IH. by destruct (p c).
Qed.

Lemma str_filter_all p s : str_forallb p s = true → str_filter p s = s.
Proof.
  induction s as [|c s IH]; simpl; [done |].
  intros [-> Hs]%andb_prop. by rewrite IH.
Qed.

Lemma str_filter_none p s :
  str_forallb (λ c, negb (p c)) s = true → str_filter p s = "".
Proof.
  induction s as [|c s IH]; simpl; [done |].
  intros [Hc Hs]%andb_prop. apply negb_true_iff in Hc. by rewrite Hc, IH.
Qed.

Lemma str_concat_app l1 l2 :
  str_concat (l1 ++ l2) = str_concat l1 +:+ str_concat l2.
Proof.
  induction l1 as [|w l1 IH]; simpl; [done |].
  by rewrite IH, str_app_assoc.
Qed.

Lemma str_take_add n m s :
  str_take (n + m) s = str_take n s +:+ str_take m (str_drop n s).
Proof.
  revert s; induction n as [|n IH]; intros [|c s]; str_simpl; try done.
  - by destruct m.
  - by rewrite IH.
Qed.

Lemma str_take_ge n s : String.length s ≤ n → str_take n s = s.
Proof.
  revert n; induction s as [|c s IH]; intros [|n]; simpl; try done; [lia |].
  intros. rewrite IH; [done | lia].
Qed.

Lemma str_drop_app_le n s r :
  n ≤ String.length s → str_drop n (s +:+ r) = str_drop n s +:+ r.
Proof.
  revert s; induction n as [|n IH]; intros [|c s]; str_simpl; try done; [lia |].
  intros. apply IH. lia.
Qed.

Lemma str_take_app_le n s r :
  n ≤ String.length s → str_take n (s +:+ r) = str_take n s.
Proof.
  revert s; induction n as [|n IH]; intros [|c s]; str_simpl; try done; [lia |].
  intros. rewrite IH; [done | lia].
Qed.

Lemma str_length_nil s : String.length s = 0 → s = "".
Proof. by destruct s. Qed.

(** A prefix that ends inside [x] does not depend on what follows [x]. *)
Lemma str_take_while_app_short p x y :
  String.length (str_take_while p (x +:+ y)) < String.length x →
  str_take_while p (x +:+ y) = str_take_while p x ∧
  str_drop_while p (x +:+ y) = str_drop_while p x +:+ y ∧
  str_drop_while p x ≠ "".
Proof.
  induction x as [|c x IH]; str_simpl; [lia |].
  destruct (p c); [| done]. simpl. intros H.
  destruct IH as (-> & -> & ?); [lia | done].
Qed.

Lemma str_drop_while_app_nonempty p x y :
  str_drop_while p x ≠ "" →
  str_take_while p (x +:+ y) = str_take_while p x ∧
  str_drop_while p (x +:+ y) = str_drop_while p x +:+ y.
Proof.
  induction x as [|c x IH]; str_simpl; [done |].
  destruct (p c); [| done]. intros H. by destruct (IH H) as [-> ->].
Qed.

Lemma str_forallb_take p n s :
  str_forallb p s = true → str_forallb p (str_take n s) = true.
Proof.
  revert s; induction n as [|n IH]; intros [|c s]; simpl; try done.
  intros [-> Hs]%andb_prop. by apply IH.
Qed.

(** A prefix that ends exactly between [x] and [y]: all of [x] passes the
    test and the first byte of [y] does not. *)
Lemma str_take_while_app_exact p x y d :
  String.length (str_take_while p (x +:+ y)) = String.length x → p d = false →
  str_forallb p x = true ∧ p (str_head d y) = false ∧
  str_take_while p (x +:+ y) = x.
Proof.
  intros H Hd. revert H. induction x as [|c x IH]; str_simpl; intros H.
  - apply str_length_nil in H. split; [done |].
    split; [| done]. destruct y as [|a y]; simpl in *; [done |].
    by destruct (p a).
  - destruct (p c); [| done]. simpl in H.
    destruct IH as (-> & ? & ->); [lia | done].
Qed.

End strings.
