(* ===== verification/GoRuntime.v ===== *)
(** * The fragment of Go's semantics the lexer relies on

    Machine integers of the platform's width with wrap-around addition, and
    the operations on strings the lexer uses: [len], the index expression
    [s[i]], the slice expression [s[lo:hi]] and the conversion [string(b)] of
    a byte.  Out-of-range indices and bounds are run-time panics. *)

From Stdlib Require Import ZArith NArith Ascii String Lia.
From stdpp Require Import base tactics strings.
From S2P Require Import Prelude.

Local Open Scope Z_scope.

(** ** Go's [int]

    The language leaves the width of [int] to the platform: 32 or 64 bits.
    Addition wraps around in two's complement and does not panic. *)

Inductive IntSize : Set := Int32 | Int64.
Existing Class IntSize.

Definition int_bits {sz : IntSize} : Z :=
  match sz with
  | Int32 => 32
  | Int64 => 64
  end.

Definition max_int {sz : IntSize} : Z := 2 ^ (int_bits - 1) - 1.

Definition min_int {sz : IntSize} : Z := - 2 ^ (int_bits - 1).

(** The width of [int] on the 64-bit platforms, for running the model. *)
Definition word64 : IntSize := Int64.

(** The integers an [int] holds. *)
Definition in_int {sz : IntSize} (z : Z) : Prop := min_int ≤ z ≤ max_int.

(** The [int] that represents [z] modulo [2 ^ int_bits]. *)
Definition wrap {sz : IntSize} (z : Z) : Z :=
  (z - min_int) mod 2 ^ int_bits + min_int.

(** [x + y] on [int]. *)
Definition int_add {sz : IntSize} (x y : Z) : Z := wrap (x + y).

(** ** Strings *)

(** The zero byte, which the lexer uses for "no more input". *)
Definition NUL : ascii := "000"%char.

(** [len(s)]. *)
Definition len (s : string) : Z := Z.of_nat (String.length s).

(** [s[i]]: the byte at index [i]; panics unless [0 <= i < len(s)]. *)
Definition index (s : string) (i : Z) : result ascii :=
  if decide (0 ≤ i < len s) then
    match get (Z.to_nat i) s with
    | Some c => Ok c
    | None => Panic IndexOutOfRange
    end
  else Panic IndexOutOfRange.

(** [s[lo:hi]]: the bytes from [lo] up to [hi], excluded; panics unless
    [0 <= lo <= hi <= len(s)]. *)
Definition slice (s : string) (lo hi : Z) : result string :=
  if decide (0 ≤ lo ≤ hi ∧ hi ≤ len s) then
    Ok (substring (Z.to_nat lo) (Z.to_nat (hi - lo)) s)
  else Panic SliceBoundsOutOfRange.

(** [string(b)] for a byte [b]: the conversion of an integer to a string,
    which is the UTF-8 encoding of the code point [b].  Code points below
    [0x80] are one byte, the others up to [0xFF] two: [0xC0 | b >> 6] and
    [0x80 | b & 0x3F]. *)
Definition string_of_byte (b : ascii) : string :=
  let r := N_of_ascii b in
  if (r <? 128)%N then String b EmptyString
  else String (ascii_of_N (N.lor 192 (N.shiftr r 6)))
        (String (ascii_of_N (N.lor 128 (N.land r 63))) EmptyString).

(** A byte of the ASCII range, and strings of such bytes. *)
Definition is_ascii (b : ascii) : bool := (N_of_ascii b <? 128)%N.

(** The byte at position [i] of [s], [NUL] past the end: what [readChar]
    stores in [currentChar]. *)
Definition byte_at (s : string) (i : Z) : ascii :=
  default NUL (get (Z.to_nat i) s).

(** ** Lemmas on [int] *)

Section int.
Context {sz : IntSize}.
Implicit Types x y z : Z.

Lemma int_bits_cases : int_bits = 32 ∨ int_bits = 64.
Proof. destruct sz; auto. Qed.

Lemma max_int_ge : 2147483647 ≤ max_int.
Proof. by destruct sz. Qed.

Lemma min_int_max_int : min_int = - max_int - 1.
Proof. unfold min_int, max_int. lia. Qed.

Lemma two_pow_int_bits : 2 ^ int_bits = 2 * (max_int + 1).
Proof. by destruct sz. Qed.

Lemma wrap_in_int z : in_int (wrap z).
Proof.
  unfold in_int, wrap, min_int, max_int, int_bits.
  destruct sz; Z.div_mod_to_equations; lia.
Qed.

Lemma wrap_id z : in_int z → wrap z = z.
Proof.
  unfold in_int, wrap, min_int, max_int, int_bits.
  destruct sz; intros; Z.div_mod_to_equations; lia.
Qed.

Lemma wrap_max_int_succ : wrap (max_int + 1) = min_int.
Proof. by destruct sz. Qed.

Lemma int_add_1 x : 0 ≤ x < max_int → int_add x 1 = x + 1.
Proof.
  intros. apply wrap_id. unfold in_int. rewrite min_int_max_int. lia.
Qed.

Lemma int_add_1_overflow : int_add max_int 1 = min_int.
Proof. apply wrap_max_int_succ. Qed.

Lemma min_int_neg : min_int < 0.
Proof. by destruct sz. Qed.

End int.

(** ** Lemmas on strings *)

Section strings.
Implicit Types (s w : string) (i lo hi : Z) (b c : ascii).

Lemma len_nonneg s : 0 ≤ len s.
Proof. unfold len. lia. Qed.

Lemma len_app s w : len (s +:+ w) = len s + len w.
Proof. unfold len. rewrite str_length_app. lia. Qed.

Lemma len_nil : len "" = 0.
Proof. done. Qed.

Lemma len_cons c s : len (String c s) = 1 + len s.
Proof. unfold len. simpl. lia. Qed.

Lemma to_nat_len s : Z.to_nat (len s) = String.length s.
Proof. unfold len. lia. Qed.

Lemma len_inj_length s w : len s = len w → String.length s = String.length w.
Proof. unfold len. lia. Qed.

Lemma byte_at_ge s i : len s ≤ i → byte_at s i = NUL.
Proof.
  unfold byte_at, len. intros. rewrite str_get_ge; [done | lia].
Qed.

Lemma byte_at_head s i :
  0 ≤ i → byte_at s i = str_head NUL (str_drop (Z.to_nat i) s).
Proof.
  intros. unfold byte_at. rewrite str_get_drop, str_get_0.
  by destruct (str_drop _ s).
Qed.

(** An index in range reads the byte at that position and does not panic. *)
Lemma index_in_range s i : 0 ≤ i < len s → index s i = Ok (byte_at s i).
Proof.
  intros Hi. unfold index, byte_at. rewrite decide_True by done.
  destruct (get (Z.to_nat i) s) eqn:Hget; [done |].
  exfalso. revert Hget. rewrite str_get_drop, str_get_0.
  destruct (str_drop _ s) eqn:Hdrop; [| done].
  apply (f_equal String.length) in Hdrop. rewrite str_length_drop in Hdrop.
  unfold len in Hi. simpl in Hdrop. lia.
Qed.

Lemma index_out_of_range s i :
  ¬ (0 ≤ i < len s) → index s i = Panic IndexOutOfRange.
Proof. intros. unfold index. by rewrite decide_False. Qed.

Lemma slice_in_range s lo hi :
  0 ≤ lo ≤ hi → hi ≤ len s →
  slice s lo hi = Ok (str_take (Z.to_nat (hi - lo)) (str_drop (Z.to_nat lo) s)).
Proof.
  intros. unfold slice. rewrite decide_True by done.
  by rewrite str_substring_take_drop.
Qed.

Lemma slice_out_of_range s lo hi :
  ¬ (0 ≤ lo ≤ hi ∧ hi ≤ len s) → slice s lo hi = Panic SliceBoundsOutOfRange.
Proof. intros. unfold slice. by rewrite decide_False. Qed.

(** A slice that returns is a contiguous substring of the string. *)
Lemma slice_infix s lo hi w : slice s lo hi = Ok w → str_infix w s.
Proof.
  unfold slice. case_decide; [| done]. intros [= <-].
  apply str_infix_substring.
Qed.

Lemma string_of_byte_ascii b :
  is_ascii b = true → string_of_byte b = String b "".
Proof. unfold is_ascii, string_of_byte. by intros ->. Qed.

(** Outside the ASCII range the conversion produces two bytes, the first of
    which is [0xC2] or [0xC3]: never the byte itself alone. *)
Lemma string_of_byte_non_ascii b :
  is_ascii b = false →
  String.length (string_of_byte b) = 2%nat ∧
  string_of_byte b ≠ String b "".
Proof. unfold is_ascii, string_of_byte. by intros ->. Qed.

Lemma string_of_byte_length b :
  String.length (string_of_byte b) = if is_ascii b then 1%nat else 2%nat.
Proof. unfold is_ascii, string_of_byte. by destruct (_ <? _)%N. Qed.

Lemma string_of_byte_head b :
  is_ascii b = false →
  (194 ≤ N_of_ascii (str_head NUL (string_of_byte b)) ≤ 195)%N.
Proof. by destruct b as [[] [] [] [] [] [] [] []]. Qed.

End strings.

#[export] Hint Rewrite len_app len_nil len_cons : lexer.
#[export] Hint Resolve len_nonneg slice_infix : lexer.
