(* ===== verification/Chars.v ===== *)
(** * Character classes

    [isLetter] and [isDigit] of src/lexer/lexer.go, and [isWhitespace], the
    condition of the loop of [skipWhitespace].  Each is characterised by the
    code ranges it accepts; the classes are pairwise disjoint and none of them
    holds the zero byte or a punctuation byte of the [switch] of [NextToken]. *)

From Stdlib Require Import NArith Ascii String Lia.
From stdpp Require Import base tactics strings.
From S2P Require Import Prelude GoRuntime.

#[local] Set Warnings "-clear-no-such-hyp".

Local Open Scope char_scope.

(** ['0' <= character && character <= '9'] *)
Definition isDigit (character : ascii) : bool :=
  ("0" <=? character) && (character <=? "9").

(** ['a' <= character && character <= 'z' || 'A' <= character &&
    character <= 'Z' || character == '_'] *)
Definition isLetter (character : ascii) : bool :=
  ("a" <=? character) && (character <=? "z")
  || ("A" <=? character) && (character <=? "Z")
  || (character =? "_").

(** [currentChar == ' ' || currentChar == '\t' || currentChar == '\n' ||
    currentChar == '\r'] *)
Definition isWhitespace (character : ascii) : bool :=
  (character =? " ") || (character =? "009") || (character =? "010")
  || (character =? "013").

(** The bytes the [switch] of [NextToken] has a case for, the zero byte
    apart. *)
Definition isPunctuation (character : ascii) : bool :=
  (character =? "=") || (character =? ";") || (character =? "(")
  || (character =? ")") || (character =? "{") || (character =? "}")
  || (character =? ",") || (character =? "+").

(** The number of classes a byte is in. *)
Definition class_count (character : ascii) : nat :=
  (Nat.b2n (isWhitespace character) + Nat.b2n (isPunctuation character)
   + Nat.b2n (isLetter character) + Nat.b2n (isDigit character))%nat.

(** ** Characterisation by code ranges *)

Section chars.
Implicit Types c : ascii.

Lemma ascii_leb_le c d : (c <=? d) = true ↔ (N_of_ascii c ≤ N_of_ascii d)%N.
Proof.
  unfold Ascii.leb, Ascii.compare.
  destruct (N.compare_spec (N_of_ascii c) (N_of_ascii d)); split; try done; lia.
Qed.

Lemma isDigit_range c :
  isDigit c = true ↔ (48 ≤ N_of_ascii c ≤ 57)%N.
Proof.
  unfold isDigit. rewrite andb_true_iff, !ascii_leb_le. done.
Qed.

Lemma isLetter_range c :
  isLetter c = true ↔
  (97 ≤ N_of_ascii c ≤ 122)%N ∨ (65 ≤ N_of_ascii c ≤ 90)%N ∨ c = "_".
Proof.
  unfold isLetter.
  rewrite !orb_true_iff, !andb_true_iff, !ascii_leb_le, Ascii.eqb_eq.
  change (N_of_ascii "a") with 97%N. change (N_of_ascii "z") with 122%N.
  change (N_of_ascii "A") with 65%N. change (N_of_ascii "Z") with 90%N.
  tauto.
Qed.

Lemma isWhitespace_cases c :
  isWhitespace c = true ↔ c = " " ∨ c = "009" ∨ c = "010" ∨ c = "013".
Proof. unfold isWhitespace. rewrite !orb_true_iff, !Ascii.eqb_eq. tauto. Qed.

Lemma isPunctuation_cases c :
  isPunctuation c = true ↔
  c = "=" ∨ c = ";" ∨ c = "(" ∨ c = ")" ∨ c = "{" ∨ c = "}" ∨ c = ","
  ∨ c = "+".
Proof. unfold isPunctuation. rewrite !orb_true_iff, !Ascii.eqb_eq. tauto. Qed.

(** ** The classes are disjoint *)

Lemma isLetter_isDigit c : isLetter c && isDigit c = false.
Proof.
  revert c. enough (∀ c, negb (isLetter c && isDigit c) = true) as H.
  { intros c. by apply negb_true_iff. }
  ascii_all.
Qed.

Lemma isLetter_not_digit c : isLetter c = true → isDigit c = false.
Proof. intros H. pose proof (isLetter_isDigit c) as E. by rewrite H in E. Qed.

Lemma isDigit_not_letter c : isDigit c = true → isLetter c = false.
Proof.
  intros H. pose proof (isLetter_isDigit c) as E.
  rewrite H, andb_true_r in E. done.
Qed.

(** A byte is in at most one of the four classes. *)
Lemma char_classes_disjoint c : (class_count c ≤ 1)%nat.
Proof.
  revert c. enough (∀ c, Nat.leb (class_count c) 1 = true) as H.
  { intros c. by apply Nat.leb_le. }
  ascii_all.
Qed.

(** Two classes that both hold of a byte would count twice. *)
Ltac by_class_count c :=
  intros H; pose proof (char_classes_disjoint c) as E;
  unfold class_count, Nat.b2n in E;
  rewrite H in E; repeat case_match; try done; simpl in E; lia.

Lemma isWhitespace_not_letter c : isWhitespace c = true → isLetter c = false.
Proof. by_class_count c. Qed.

Lemma isWhitespace_not_digit c : isWhitespace c = true → isDigit c = false.
Proof. by_class_count c. Qed.

Lemma isWhitespace_not_punctuation c :
  isWhitespace c = true → isPunctuation c = false.
Proof. by_class_count c. Qed.

Lemma isPunctuation_not_letter c : isPunctuation c = true → isLetter c = false.
Proof. by_class_count c. Qed.

Lemma isPunctuation_not_digit c : isPunctuation c = true → isDigit c = false.
Proof. by_class_count c. Qed.

Lemma isPunctuation_not_whitespace c :
  isPunctuation c = true → isWhitespace c = false.
Proof. by_class_count c. Qed.

Lemma isLetter_not_whitespace c : isLetter c = true → isWhitespace c = false.
Proof. by_class_count c. Qed.

Lemma isDigit_not_whitespace c : isDigit c = true → isWhitespace c = false.
Proof. by_class_count c. Qed.

Lemma isLetter_not_punctuation c : isLetter c = true → isPunctuation c = false.
Proof. by_class_count c. Qed.

Lemma isDigit_not_punctuation c : isDigit c = true → isPunctuation c = false.
Proof. by_class_count c. Qed.

(** ** The zero byte is in no class; every class is ASCII *)

Lemma isWhitespace_NUL : isWhitespace NUL = false.
Proof. done. Qed.

Lemma isLetter_NUL : isLetter NUL = false.
Proof. done. Qed.

Lemma isDigit_NUL : isDigit NUL = false.
Proof. done. Qed.

Lemma isPunctuation_NUL : isPunctuation NUL = false.
Proof. done. Qed.

Lemma isLetter_ascii c : isLetter c = true → is_ascii c = true.
Proof.
  revert c. enough (∀ c, implb (isLetter c) (is_ascii c) = true) as H.
  { intros c Hc. specialize (H c). by rewrite Hc in H. }
  ascii_all.
Qed.

Lemma isDigit_ascii c : isDigit c = true → is_ascii c = true.
Proof.
  revert c. enough (∀ c, implb (isDigit c) (is_ascii c) = true) as H.
  { intros c Hc. specialize (H c). by rewrite Hc in H. }
  ascii_all.
Qed.

Lemma isWhitespace_ascii c : isWhitespace c = true → is_ascii c = true.
Proof.
  revert c. enough (∀ c, implb (isWhitespace c) (is_ascii c) = true) as H.
  { intros c Hc. specialize (H c). by rewrite Hc in H. }
  ascii_all.
Qed.

(** A byte outside ASCII is in no class. *)
Lemma non_ascii_no_class c : is_ascii c = false → class_count c = 0%nat.
Proof.
  intros Ha. unfold class_count.
  destruct (isWhitespace c) eqn:Hw;
    [by rewrite (isWhitespace_ascii c Hw) in Ha |].
  destruct (isLetter c) eqn:Hl; [by rewrite (isLetter_ascii c Hl) in Ha |].
  destruct (isDigit c) eqn:Hd; [by rewrite (isDigit_ascii c Hd) in Ha |].
  destruct (isPunctuation c) eqn:Hp; [| done].
  revert Hp Ha. unfold isPunctuation, is_ascii.
  rewrite !orb_true_iff, !Ascii.eqb_eq. intros H. by destruct_or!; subst c.
Qed.

Lemma class_count_0 c :
  class_count c = 0%nat ↔
  isWhitespace c = false ∧ isPunctuation c = false ∧ isLetter c = false
  ∧ isDigit c = false.
Proof.
  unfold class_count.
  destruct (isWhitespace c), (isPunctuation c), (isLetter c), (isDigit c);
    simpl; naive_solver.
Qed.

Lemma isPunctuation_ascii c : isPunctuation c = true → is_ascii c = true.
Proof.
  revert c. enough (∀ c, implb (isPunctuation c) (is_ascii c) = true) as H.
  { intros c Hc. specialize (H c). by rewrite Hc in H. }
  ascii_all.
Qed.

End chars.

#[export] Hint Resolve isWhitespace_NUL isLetter_NUL isDigit_NUL
  isPunctuation_NUL isLetter_not_digit isDigit_not_letter
  isWhitespace_not_letter isWhitespace_not_digit isWhitespace_not_punctuation
  isPunctuation_not_letter isPunctuation_not_digit
  isPunctuation_not_whitespace isLetter_not_whitespace isDigit_not_whitespace
  isLetter_not_punctuation isDigit_not_punctuation : lexer.
