(* ===== verification/RuntimeCorrect.v ===== *)
(** * What the lexer relies on from the language and from its byte tests

    The theorems on the run-time model of [GoRuntime] and on the character
    classes of [Chars]: the increment of an [int] at the largest value, what
    a slice expression that returns has read, that the conversion
    [string(b)] writes the UTF-8 encoding of the code point [b], the codes
    [isLetter] and [isDigit] accept, and that no byte is in two classes. *)

From Stdlib Require Import ZArith NArith Ascii String Lia.
From stdpp Require Import base tactics strings.
From S2P Require Import Prelude GoRuntime Chars.

Local Open Scope Z_scope.

(** The code point that a UTF-8 sequence of one or two bytes encodes: the
    reading of what [string_of_byte] writes.  Overlong sequences (two bytes
    for a code point below 128) are refused, as the encoding demands. *)
Definition utf8_decode (s : string) : option N :=
  match s with
  | String b "" =>
      if (N_of_ascii b <? 128)%N then Some (N_of_ascii b) else None
  | String b1 (String b2 "") =>
      if ((N.land (N_of_ascii b1) 224 =? 192)
          && (N.land (N_of_ascii b2) 192 =? 128))%N
      then
        let r := N.lor (N.shiftl (N.land (N_of_ascii b1) 31) 6)
                       (N.land (N_of_ascii b2) 63) in
        if (128 <=? r)%N then Some r else None
      else None
  | _ => None
  end.

(** ** Shared lemmas *)

Lemma underscore_code c : c = "_"%char ↔ N_of_ascii c = 95%N.
Proof.
  split; [by intros -> |]. intros E.
  by rewrite <- (ascii_N_embedding c), E.
Qed.

(** ** The theorems *)

Section runtime.
Context {sz : IntSize}.
Implicit Types (s w : string) (x lo hi : Z) (b c : ascii).

(** Incrementing an [int]: the result of [x + 1] is an [int] again; it
    is the successor of [x] except at the largest [int], where it is the
    smallest one. *)
Theorem int_add_1_cases x :
  in_int x →
  in_int (int_add x 1) ∧
  int_add x 1 = if decide (x = max_int) then min_int else x + 1.
Proof.
  intros Hx. split; [apply wrap_in_int |]. case_decide as E.
  - rewrite E. apply int_add_1_overflow.
  - apply wrap_id. unfold in_int in *. lia.
Qed.

(** A slice expression [s[lo:hi]] returns [w] exactly when [s] is some
    [pre] of length [lo], then [w], then some [post], and [hi] is the
    position where [w] ends; for all other bounds it panics. *)
Theorem slice_spec s lo hi w :
  slice s lo hi = Ok w ↔
  ∃ pre post, s = pre +:+ w +:+ post ∧ len pre = lo ∧ lo + len w = hi.
Proof.
  split.
  - unfold slice. case_decide as Hb; [| done]. intros [= <-].
    rewrite str_substring_take_drop.
    exists (str_take (Z.to_nat lo) s),
      (str_drop (Z.to_nat (hi - lo)) (str_drop (Z.to_nat lo) s)).
    rewrite !str_take_drop. split; [done |]. unfold len in *.
    rewrite !str_length_take, str_length_drop. lia.
  - intros (pre & post & -> & <- & <-).
    pose proof (len_nonneg pre). pose proof (len_nonneg w).
    pose proof (len_nonneg post).
    rewrite slice_in_range by (rewrite ?len_app; lia). f_equal.
    replace (len pre + len w - len pre) with (len w) by lia.
    by rewrite !to_nat_len, str_drop_app_length, str_take_app_length.
Qed.

(** The conversion [string(b)] of a byte writes the UTF-8 encoding of
    the code point [b]: decoding it gives [b] back, for each of the 256
    bytes. *)
Theorem string_of_byte_utf8 b :
  utf8_decode (string_of_byte b) = Some (N_of_ascii b).
Proof.
  revert b.
  enough (∀ b, bool_decide
    (utf8_decode (string_of_byte b) = Some (N_of_ascii b)) = true) as H.
  { intros b. exact (bool_decide_eq_true_1 _ (H b)). }
  ascii_all.
Qed.

(** The codes of the bytes [isLetter] and [isDigit] accept: [a] to
    [z], [A] to [Z] and the underscore for the one, [0] to [9] for the
    other. *)
Theorem isLetter_isDigit_codes c :
  (isLetter c = true ↔
     (97 ≤ N_of_ascii c ≤ 122)%N ∨ (65 ≤ N_of_ascii c ≤ 90)%N
     ∨ N_of_ascii c = 95%N) ∧
  (isDigit c = true ↔ (48 ≤ N_of_ascii c ≤ 57)%N).
Proof.
  split; [| apply isDigit_range].
  by rewrite isLetter_range, underscore_code.
Qed.

(** The cases of [NextToken] exclude each other: a byte is whitespace,
    punctuation, a letter or a digit, or none of them, never two; the zero
    byte and the bytes outside ASCII are in no class. *)
Theorem char_classes_exclusive c :
  (class_count c ≤ 1)%nat ∧
  (c = NUL ∨ is_ascii c = false → class_count c = 0%nat).
Proof.
  split; [apply char_classes_disjoint |].
  intros [-> | Ha]; [done | by apply non_ascii_no_class].
Qed.

End runtime.

(** ** On a concrete value *)

Lemma int_add_1_cases_witness :
  in_int (sz := word64) (int_add (sz := word64) 9223372036854775807 1) ∧
  int_add (sz := word64) 9223372036854775807 1 = -9223372036854775808.
Proof.
  exact (int_add_1_cases (sz := word64) 9223372036854775807
    ltac:(by vm_compute)).
Defined.
