(* ===== verification/Token.v ===== *)
(** * The package [token]

    Token kinds, the [Token] record, the keyword table and [LookupIdent].  The
    package's source is outside the repository snapshot; the definitions
    follow its description and the uses the lexer and its tests make of it.
    The class [Classifier] is what the scanner requires of a keyword lookup. *)

From Stdlib Require Import String.
From stdpp Require Import base tactics strings gmap.
From S2P Require Import Prelude.

#[local] Set Warnings "-clear-no-such-hyp".

(** The kinds of tokens: [token.ILLEGAL], [token.EOF], ... *)
Inductive TokenType : Set :=
| ILLEGAL
| EOF
| IDENT
| INT
| ASSIGN
| PLUS
| COMMA
| SEMICOLON
| LPAREN
| RPAREN
| LBRACE
| RBRACE
| FUNCTION
| LET.

(** [token.Token]: the field [Type] is written [Type_], since [Type] is a
    keyword here. *)
Record Token : Set := {
  Type_ : TokenType;
  Literal : string
}.

#[export] Instance TokenType_eq_dec : EqDecision TokenType.
Proof. solve_decision. Defined.

#[export] Instance Token_eq_dec : EqDecision Token.
Proof. solve_decision. Defined.

(** The reserved words and their kinds. *)
Definition keywords : gmap string TokenType :=
  list_to_map [("fn", FUNCTION); ("function", FUNCTION); ("let", LET)].

(** [token.LookupIdent]: the kind of a reserved word, [IDENT] for any other
    string. *)
Definition LookupIdent (ident : string) : TokenType :=
  default IDENT (keywords !! ident).

(** The kinds an identifier-shaped lexeme can have. *)
Definition is_word_type (t : TokenType) : bool :=
  match t with
  | IDENT | FUNCTION | LET => true
  | _ => false
  end.

(** The kinds of the one-byte tokens of the [switch] of [NextToken]. *)
Definition is_punctuation_type (t : TokenType) : bool :=
  match t with
  | ASSIGN | PLUS | COMMA | SEMICOLON | LPAREN | RPAREN | LBRACE | RBRACE =>
      true
  | _ => false
  end.

(** ** The interface between the scanner and the keyword lookup

    The scanner passes every completed identifier-shaped lexeme to [classify]
    and relies on one fact: the answer is [IDENT] or a keyword kind, never
    the kind of another class of lexemes (in particular not [EOF], on which a
    caller stops). *)
Class Classifier : Type := {
  classify : string → TokenType;
  classify_word : ∀ ident, is_word_type (classify ident) = true
}.

(** ** [LookupIdent] *)

Lemma LookupIdent_fn : LookupIdent "fn" = FUNCTION.
Proof. done. Qed.

Lemma LookupIdent_function : LookupIdent "function" = FUNCTION.
Proof. done. Qed.

Lemma LookupIdent_let : LookupIdent "let" = LET.
Proof. done. Qed.

Lemma keywords_lookup_Some ident t :
  keywords !! ident = Some t ↔
  ident = "fn" ∧ t = FUNCTION ∨ ident = "function" ∧ t = FUNCTION
  ∨ ident = "let" ∧ t = LET.
Proof.
  unfold keywords. simpl. rewrite !lookup_insert_Some, lookup_empty.
  naive_solver.
Qed.

(** A string that is no reserved word is an identifier. *)
Lemma LookupIdent_other ident :
  ident ≠ "fn" → ident ≠ "function" → ident ≠ "let" →
  LookupIdent ident = IDENT.
Proof.
  intros. unfold LookupIdent.
  destruct (keywords !! ident) as [t|] eqn:E; [| done].
  apply keywords_lookup_Some in E. naive_solver.
Qed.

Lemma LookupIdent_cases ident :
  LookupIdent ident =
    if decide (ident = "fn") then FUNCTION
    else if decide (ident = "function") then FUNCTION
    else if decide (ident = "let") then LET
    else IDENT.
Proof.
  repeat case_decide; subst; try done. by apply LookupIdent_other.
Qed.

Lemma LookupIdent_LET_iff ident : LookupIdent ident = LET ↔ ident = "let".
Proof. rewrite LookupIdent_cases. repeat case_decide; naive_solver. Qed.

Lemma LookupIdent_FUNCTION_iff ident :
  LookupIdent ident = FUNCTION ↔ ident = "fn" ∨ ident = "function".
Proof. rewrite LookupIdent_cases. repeat case_decide; naive_solver. Qed.

Lemma LookupIdent_IDENT_iff ident :
  LookupIdent ident = IDENT ↔
  ident ≠ "let" ∧ ident ≠ "fn" ∧ ident ≠ "function".
Proof. rewrite LookupIdent_cases. repeat case_decide; naive_solver. Qed.

Lemma LookupIdent_word ident : is_word_type (LookupIdent ident) = true.
Proof. rewrite LookupIdent_cases. by repeat case_decide. Qed.

(** [LookupIdent] is a classifier. *)
#[export] Instance token_classifier : Classifier := {|
  classify := LookupIdent;
  classify_word := LookupIdent_word
|}.

Section classifier.
Context `{Classifier}.

Lemma classify_not_EOF ident : classify ident ≠ EOF.
Proof. intros E. pose proof (classify_word ident) as Hw. by rewrite E in Hw. Qed.

Lemma classify_not_ILLEGAL ident : classify ident ≠ ILLEGAL.
Proof. intros E. pose proof (classify_word ident) as Hw. by rewrite E in Hw. Qed.

Lemma classify_not_INT ident : classify ident ≠ INT.
Proof. intros E. pose proof (classify_word ident) as Hw. by rewrite E in Hw. Qed.

Lemma classify_not_punctuation ident :
  is_punctuation_type (classify ident) = false.
Proof. pose proof (classify_word ident). by destruct (classify ident). Qed.

End classifier.

#[export] Hint Resolve classify_not_EOF classify_not_ILLEGAL classify_not_INT
  classify_not_punctuation : lexer.
