(* ===== verification/Lexer.v ===== *)
(** * The lexer: model of src/lexer/lexer.go

    The struct [Lexer] and its methods.  A method with a pointer receiver is
    a function that takes the struct and returns the updated struct in a
    [result].  The three loops of the source have the shape
    [for cond(lexer.currentChar) { lexer.readChar() }]: [readWhile] is that
    loop, with fuel, and [loop_fuel] a number of iterations that is always
    enough ([LexerInv.readWhile_fuel]). *)

From Stdlib Require Import ZArith Ascii String.
From stdpp Require Import base tactics strings.
From S2P Require Import Prelude GoRuntime Chars Token.

Local Open Scope Z_scope.

(** [type Lexer struct]: the whole input, the position of the current
    character, the position of the next one, and the current character. *)
Record Lexer : Set := {
  input : string;
  currentPosition : Z;
  nextCharPosition : Z;
  currentChar : ascii
}.

#[export] Instance Lexer_eq_dec : EqDecision Lexer.
Proof. solve_decision. Defined.

Section lexer.
Context {sz : IntSize} {classifier : Classifier}.

(** [func (lexer *Lexer) readChar()]: the zero byte when the end of the
    input is reached, the next character otherwise; then both positions move
    on by one. *)
Definition readChar (lexer : Lexer) : result Lexer :=
  ch ← (if decide (nextCharPosition lexer >= len (input lexer)) then Ok NUL
        else index (input lexer) (nextCharPosition lexer));
  Ok {| input := input lexer;
        currentChar := ch;
        currentPosition := nextCharPosition lexer;
        nextCharPosition := int_add (nextCharPosition lexer) 1 |}.

(** [func New(input string) *Lexer]: the other fields start at their zero
    values, and one [readChar] loads the first character. *)
Definition New (input : string) : result Lexer :=
  readChar {| input := input;
              currentPosition := 0;
              nextCharPosition := 0;
              currentChar := NUL |}.

(** [func newToken(tokenType token.TokenType, character byte) token.Token] *)
Definition newToken (tokenType : TokenType) (character : ascii) : Token :=
  {| Type_ := tokenType; Literal := string_of_byte character |}.

(** [for cond(lexer.currentChar) { lexer.readChar() }] *)
Fixpoint readWhile (cond : ascii → bool) (fuel : nat) (lexer : Lexer)
    : result Lexer :=
  if cond (currentChar lexer) then
    match fuel with
    | O => Panic OutOfFuel
    | S fuel => lexer ← readChar lexer; readWhile cond fuel lexer
    end
  else Ok lexer.

(** Iterations granted to a loop started on [lexer]: one more than the
    characters from [nextCharPosition] to the end of the input. *)
Definition loop_fuel (lexer : Lexer) : nat :=
  S (Z.to_nat (len (input lexer) - nextCharPosition lexer)).

(** [func (lexer *Lexer) skipWhitespace()] *)
Definition skipWhitespace (lexer : Lexer) : result Lexer :=
  readWhile isWhitespace (loop_fuel lexer) lexer.

(** [func (lexer *Lexer) readIdentifier() string]: advance as long as the
    current character is a letter and return [input[startPosition:endPosition]]. *)
Definition readIdentifier (lexer : Lexer) : result (string * Lexer) :=
  let startPosition := currentPosition lexer in
  lexer ← readWhile isLetter (loop_fuel lexer) lexer;
  let endPosition := currentPosition lexer in
  identifier ← slice (input lexer) startPosition endPosition;
  Ok (identifier, lexer).

(** [func (lexer *Lexer) readDigit() string] *)
Definition readDigit (lexer : Lexer) : result (string * Lexer) :=
  let startPosition := currentPosition lexer in
  lexer ← readWhile isDigit (loop_fuel lexer) lexer;
  let endPosition := currentPosition lexer in
  digit ← slice (input lexer) startPosition endPosition;
  Ok (digit, lexer).

(** [func (lexer *Lexer) NextToken() token.Token].  The cases of the [switch]
    are tried in the order of the source.  Every case but the two that scan
    a word or a number leaves the [switch] and reaches the [readChar] that
    follows it ([advance]); the case of the zero byte too. *)
Definition NextToken (lexer : Lexer) : result (Token * Lexer) :=
  lexer ← skipWhitespace lexer;
  let advance (tok : Token) : result (Token * Lexer) :=
    lexer ← readChar lexer; Ok (tok, lexer) in
  let ch := currentChar lexer in
  if (ch =? "=")%char then advance (newToken ASSIGN ch)
  else if (ch =? ";")%char then advance (newToken SEMICOLON ch)
  else if (ch =? "(")%char then advance (newToken LPAREN ch)
  else if (ch =? ")")%char then advance (newToken RPAREN ch)
  else if (ch =? "{")%char then advance (newToken LBRACE ch)
  else if (ch =? "}")%char then advance (newToken RBRACE ch)
  else if (ch =? ",")%char then advance (newToken COMMA ch)
  else if (ch =? "+")%char then advance (newToken PLUS ch)
  else if (ch =? NUL)%char then advance {| Literal := ""; Type_ := EOF |}
  else if isLetter ch then
    '(identifier, lexer) ← readIdentifier lexer;
    Ok ({| Literal := identifier; Type_ := classify identifier |}, lexer)
  else if isDigit ch then
    '(digit, lexer) ← readDigit lexer;
    Ok ({| Literal := digit; Type_ := INT |}, lexer)
  else advance (newToken ILLEGAL ch).

(** [n] calls of [NextToken] in a row, as a caller makes them: the tokens
    in the order they were returned, and the lexer after the last call. *)
Fixpoint NextTokens (n : nat) (lexer : Lexer) : result (list Token * Lexer) :=
  match n with
  | O => Ok ([], lexer)
  | S n =>
      '(tok, lexer) ← NextToken lexer;
      '(toks, lexer) ← NextTokens n lexer;
      Ok (tok :: toks, lexer)
  end.

End lexer.
