(* ===== verification/Scan.v ===== *)
(** * What a call of [NextToken] computes: the specification

    [scan r] is the token that starts the string [r] and the number of bytes
    the lexer's cursor moves when it returns it, as a function of the
    remaining input alone: no cursor, no fuel and no panic.
    [Refinement.NextToken_scan] proves that [NextToken] computes it. *)

From Stdlib Require Import ZArith Ascii String Lia.
From stdpp Require Import base tactics strings.
From S2P Require Import Prelude GoRuntime Chars Token.

Local Open Scope Z_scope.

(** The kind of the token a punctuation byte makes. *)
Definition punctuation_type (c : ascii) : option TokenType :=
  if (c =? "=")%char then Some ASSIGN
  else if (c =? ";")%char then Some SEMICOLON
  else if (c =? "(")%char then Some LPAREN
  else if (c =? ")")%char then Some RPAREN
  else if (c =? "{")%char then Some LBRACE
  else if (c =? "}")%char then Some RBRACE
  else if (c =? ",")%char then Some COMMA
  else if (c =? "+")%char then Some PLUS
  else None.

(** The token of kind [EOF]. *)
Definition eof_token : Token := {| Type_ := EOF; Literal := "" |}.

Section scan.
Context {classifier : Classifier}.

(** The token at the head of [r], whitespace skipped already, and the number
    of bytes it takes.  The end of the input and a zero byte both give [EOF]
    and count for one position. *)
Definition scan_token (r : string) : Token * Z :=
  let c := str_head NUL r in
  match punctuation_type c with
  | Some t => ({| Type_ := t; Literal := String c "" |}, 1)
  | None =>
      if (c =? NUL)%char then (eof_token, 1)
      else if isLetter c then
        let w := str_take_while isLetter r in
        ({| Type_ := classify w; Literal := w |}, len w)
      else if isDigit c then
        let w := str_take_while isDigit r in
        ({| Type_ := INT; Literal := w |}, len w)
      else ({| Type_ := ILLEGAL; Literal := string_of_byte c |}, 1)
  end.

(** The same from a string that may start with whitespace. *)
Definition scan (r : string) : Token * Z :=
  let (tok, n) := scan_token (str_drop_while isWhitespace r) in
  (tok, len (str_take_while isWhitespace r) + n).

(** Well-formed tokens: what the kind of a token says about its literal.
    [EOF] has the empty literal; an integer is a non-empty string of digits;
    an identifier or keyword is a non-empty string of letters whose kind is
    the one [classify] gives it; a punctuation token is the byte of its
    kind; an [ILLEGAL] token is the conversion of a byte that is in no class
    and is not [NUL]. *)
Definition token_wf (tok : Token) : Prop :=
  match Type_ tok with
  | EOF => Literal tok = ""
  | INT => Literal tok ≠ "" ∧ str_forallb isDigit (Literal tok) = true
  | IDENT | FUNCTION | LET =>
      Literal tok ≠ "" ∧ str_forallb isLetter (Literal tok) = true ∧
      classify (Literal tok) = Type_ tok
  | ILLEGAL =>
      ∃ c, Literal tok = string_of_byte c ∧ class_count c = 0%nat ∧ c ≠ NUL
  | t => ∃ c, Literal tok = String c "" ∧ punctuation_type c = Some t
  end.

(** [n] tokens in a row: each is scanned from what the one before left.
    The result is the tokens and the number of bytes they take together. *)
Fixpoint scan_n (n : nat) (r : string) : list Token * Z :=
  match n with
  | O => ([], 0)
  | S n =>
      let (tok, k) := scan r in
      let (toks, m) := scan_n n (str_drop (Z.to_nat k) r) in
      (tok :: toks, k + m)
  end.

(** The five shapes of a token. *)
Inductive token_shape : Token → Prop :=
| shape_eof : token_shape eof_token
| shape_punctuation (c : ascii) (t : TokenType) :
    punctuation_type c = Some t →
    token_shape {| Type_ := t; Literal := String c "" |}
| shape_word (w : string) :
    w ≠ "" → str_forallb isLetter w = true →
    token_shape {| Type_ := classify w; Literal := w |}
| shape_int (w : string) :
    w ≠ "" → str_forallb isDigit w = true →
    token_shape {| Type_ := INT; Literal := w |}
| shape_illegal (c : ascii) :
    isPunctuation c = false → c ≠ NUL → isLetter c = false →
    isDigit c = false → isWhitespace c = false →
    token_shape {| Type_ := ILLEGAL; Literal := string_of_byte c |}.

End scan.

(** ** [punctuation_type] *)

Section punctuation.
Implicit Types (c : ascii) (t : TokenType).

Lemma punctuation_type_Some c t :
  punctuation_type c = Some t →
  isPunctuation c = true ∧ is_punctuation_type t = true.
Proof.
  unfold punctuation_type, isPunctuation.
  repeat (case_bool; [intros [= <-]; rewrite ?orb_true_r; done |]). done.
Qed.

Lemma punctuation_type_None c :
  punctuation_type c = None ↔ isPunctuation c = false.
Proof.
  unfold punctuation_type, isPunctuation.
  repeat (case_bool; [rewrite ?orb_true_r; done |]). done.
Qed.

Lemma punctuation_type_is_Some c :
  isPunctuation c = true → is_Some (punctuation_type c).
Proof.
  intros H. destruct (punctuation_type c) eqn:E; [done |].
  apply punctuation_type_None in E. congruence.
Qed.

Lemma punctuation_type_NUL : punctuation_type NUL = None.
Proof. done. Qed.

(** Distinct punctuation bytes make tokens of distinct kinds. *)
Lemma punctuation_type_inj c1 c2 t :
  punctuation_type c1 = Some t → punctuation_type c2 = Some t → c1 = c2.
Proof.
  unfold punctuation_type.
  repeat match goal with
  | |- context [Ascii.eqb ?c ?d] => destruct (Ascii.eqb_spec c d); [subst |]
  end; congruence.
Qed.

End punctuation.

(** ** [scan_token] and [scan], branch by branch *)

Section scan_lemmas.
Context {classifier : Classifier}.
Implicit Types (c : ascii) (t : TokenType) (r w : string).

Lemma scan_token_nil : scan_token "" = (eof_token, 1).
Proof. done. Qed.

Lemma scan_token_NUL r : scan_token (String NUL r) = (eof_token, 1).
Proof. done. Qed.

Lemma scan_token_punctuation c r t :
  punctuation_type c = Some t →
  scan_token (String c r) = ({| Type_ := t; Literal := String c "" |}, 1).
Proof. unfold scan_token. simpl. by intros ->. Qed.

Lemma scan_token_letter c r :
  isLetter c = true →
  let w := str_take_while isLetter (String c r) in
  scan_token (String c r) = ({| Type_ := classify w; Literal := w |}, len w).
Proof.
  intros Hc. unfold scan_token. simpl str_head.
  rewrite (proj2 (punctuation_type_None c)) by auto with lexer.
  destruct (Ascii.eqb_spec c NUL) as [->|_]; [done |]. by rewrite Hc.
Qed.

Lemma scan_token_digit c r :
  isDigit c = true →
  let w := str_take_while isDigit (String c r) in
  scan_token (String c r) = ({| Type_ := INT; Literal := w |}, len w).
Proof.
  intros Hc. unfold scan_token. simpl str_head.
  rewrite (proj2 (punctuation_type_None c)) by auto with lexer.
  destruct (Ascii.eqb_spec c NUL) as [->|_]; [done |].
  by rewrite (isDigit_not_letter c), Hc.
Qed.

Lemma scan_token_illegal c r :
  isPunctuation c = false → c ≠ NUL → isLetter c = false →
  isDigit c = false →
  scan_token (String c r) =
    ({| Type_ := ILLEGAL; Literal := string_of_byte c |}, 1).
Proof.
  intros Hp Hn Hl Hd. unfold scan_token. simpl str_head.
  rewrite (proj2 (punctuation_type_None c)) by done.
  destruct (Ascii.eqb_spec c NUL); [done |]. by rewrite Hl, Hd.
Qed.

(** The cases of [scan_token]: what the head of the string is, the token and
    the bytes it takes. *)
Lemma scan_token_cases r :
  let c := str_head NUL r in
  match punctuation_type c with
  | Some t => scan_token r = ({| Type_ := t; Literal := String c "" |}, 1)
  | None =>
      if decide (c = NUL) then scan_token r = (eof_token, 1)
      else if isLetter c then
        scan_token r =
          ({| Type_ := classify (str_take_while isLetter r);
              Literal := str_take_while isLetter r |},
           len (str_take_while isLetter r))
      else if isDigit c then
        scan_token r =
          ({| Type_ := INT; Literal := str_take_while isDigit r |},
           len (str_take_while isDigit r))
      else
        scan_token r =
          ({| Type_ := ILLEGAL; Literal := string_of_byte c |}, 1)
  end.
Proof.
  intros c. unfold scan_token. fold c.
  destruct (punctuation_type c); [done |].
  case_decide as Hc; [by rewrite Hc |].
  rewrite (proj2 (Ascii.eqb_neq c NUL) Hc). by repeat case_match.
Qed.

(** [scan_token] always consumes at least one position. *)
Lemma scan_token_progress r : 1 ≤ snd (scan_token r).
Proof.
  pose proof (scan_token_cases r) as H. simpl in H.
  destruct (punctuation_type _); [by rewrite H |].
  case_decide; [by rewrite H |].
  destruct (isLetter _) eqn:Hl; [| destruct (isDigit _) eqn:Hd];
    rewrite H; simpl; try done.
  - pose proof (str_take_while_nonempty _ _ _ Hl isLetter_NUL).
    unfold len. destruct (str_take_while isLetter r); simpl; [done | lia].
  - pose proof (str_take_while_nonempty _ _ _ Hd isDigit_NUL).
    unfold len. destruct (str_take_while isDigit r); simpl; [done | lia].
Qed.

(** A token other than [EOF] lies within the string. *)
Lemma scan_token_bound r :
  Type_ (fst (scan_token r)) ≠ EOF → snd (scan_token r) ≤ len r.
Proof.
  pose proof (scan_token_cases r) as H. simpl in H.
  destruct r as [|c r]; [done |]. simpl str_head in H.
  pose proof (len_nonneg r). rewrite len_cons.
  destruct (punctuation_type _); [rewrite H; simpl; lia |].
  case_decide; [by rewrite H |].
  destruct (isLetter _); [| destruct (isDigit _)]; rewrite H; simpl;
    try lia; intros _.
  - pose proof (str_length_take_while isLetter (String c r)).
    unfold len in *. simpl in *. lia.
  - pose proof (str_length_take_while isDigit (String c r)).
    unfold len in *. simpl in *. lia.
Qed.

Lemma scan_progress r : 1 ≤ snd (scan r).
Proof.
  unfold scan. pose proof (scan_token_progress (str_drop_while isWhitespace r)).
  destruct (scan_token _). simpl in *.
  pose proof (len_nonneg (str_take_while isWhitespace r)). lia.
Qed.

Lemma scan_bound r : Type_ (fst (scan r)) ≠ EOF → snd (scan r) ≤ len r.
Proof.
  unfold scan. pose proof (scan_token_bound (str_drop_while isWhitespace r)).
  destruct (scan_token _) as [tok n]. simpl in *. intros Ht.
  rewrite <- (str_take_while_drop_while isWhitespace r) at 2.
  rewrite len_app. auto with zarith.
Qed.

Lemma scan_token_bound_eof r : snd (scan_token r) ≤ len r + 1.
Proof.
  pose proof (scan_token_cases r) as H. simpl in H.
  pose proof (len_nonneg r).
  pose proof (str_length_take_while isLetter r).
  pose proof (str_length_take_while isDigit r).
  repeat case_match; rewrite H; unfold len in *; simpl; lia.
Qed.

Lemma scan_bound_eof r : snd (scan r) ≤ len r + 1.
Proof.
  unfold scan.
  pose proof (scan_token_bound_eof (str_drop_while isWhitespace r)).
  destruct (scan_token _) as [tok n]. simpl in *.
  rewrite <- (str_take_while_drop_while isWhitespace r) at 2.
  rewrite len_app. lia.
Qed.

(** A token other than [EOF] leaves less input than there was. *)
Lemma scan_drop_lt r :
  Type_ (fst (scan r)) ≠ EOF →
  (String.length (str_drop (Z.to_nat (snd (scan r))) r) < String.length r)%nat.
Proof.
  intros Hne. pose proof (scan_progress r). pose proof (scan_bound r Hne).
  rewrite str_length_drop. unfold len in *. lia.
Qed.

(** ** The shape of the token and where its literal comes from *)

Lemma scan_token_shape r :
  isWhitespace (str_head NUL r) = false → token_shape (fst (scan_token r)).
Proof.
  intros Hws. pose proof (scan_token_cases r) as H. simpl in H.
  destruct (punctuation_type _) eqn:Hp;
    [rewrite H; by constructor |].
  apply punctuation_type_None in Hp.
  case_decide; [rewrite H; constructor |].
  destruct (isLetter _) eqn:Hl; [| destruct (isDigit _) eqn:Hd]; rewrite H.
  - constructor; [| apply str_forallb_take_while].
    by apply (str_take_while_nonempty _ _ NUL).
  - constructor; [| apply str_forallb_take_while].
    by apply (str_take_while_nonempty _ _ NUL).
  - by constructor.
Qed.

Lemma token_shape_wf tok : token_shape tok → token_wf tok.
Proof.
  destruct 1 as [|c t Hp|w Hw Hl|w Hw Hd|c Hp Hn Hl Hd Hw]; unfold token_wf;
    simpl; try done.
  - pose proof (punctuation_type_Some _ _ Hp) as [_ Ht].
    destruct t; try done; by exists c.
  - pose proof (classify_word w). by destruct (classify w).
  - exists c. by rewrite class_count_0.
Qed.

Lemma scan_shape r : token_shape (fst (scan r)).
Proof.
  unfold scan.
  pose proof (scan_token_shape (str_drop_while isWhitespace r)) as H.
  destruct (scan_token _). apply H. by apply str_head_drop_while.
Qed.

(** The literal of every token is a prefix of the string it was scanned
    from, except for the [ILLEGAL] token of a byte outside ASCII, whose
    literal is the two-byte encoding of that byte. *)
Lemma scan_token_prefix r :
  let tok := fst (scan_token r) in
  Type_ tok ≠ ILLEGAL ∨ is_ascii (str_head NUL r) = true →
  Type_ tok ≠ EOF →
  ∃ post, r = Literal tok +:+ post ∧ snd (scan_token r) = len (Literal tok).
Proof.
  pose proof (scan_token_cases r) as H. simpl in *.
  destruct r as [|c r]; [by rewrite H |]. simpl str_head in *.
  destruct (punctuation_type _); [rewrite H; by exists r |].
  case_decide; [by rewrite H |].
  destruct (isLetter _); [| destruct (isDigit _)]; rewrite H;
    cbn [fst snd Type_ Literal].
  - intros _ _. exists (str_drop_while isLetter (String c r)).
    by rewrite str_take_while_drop_while.
  - intros _ _. exists (str_drop_while isDigit (String c r)).
    by rewrite str_take_while_drop_while.
  - intros [? | Ha] _; [done |]. rewrite (string_of_byte_ascii _ Ha).
    by exists r.
Qed.

(** The string splits into the whitespace skipped, the literal and what is
    left, and the bytes consumed are the first two parts. *)
Lemma scan_literal_split r :
  let tok := fst (scan r) in
  Type_ tok ≠ EOF →
  Type_ tok ≠ ILLEGAL ∨ str_forallb is_ascii r = true →
  ∃ post,
    r = str_take_while isWhitespace r +:+ Literal tok +:+ post ∧
    snd (scan r) = len (str_take_while isWhitespace r) + len (Literal tok).
Proof.
  unfold scan.
  pose proof (scan_token_prefix (str_drop_while isWhitespace r)) as H.
  destruct (scan_token _) as [tok n]. simpl in *. intros Heof Hill.
  destruct H as (post & Hr & ->); [| done |].
  { destruct Hill as [? | Ha]; [by left | right].
    apply str_forallb_head; [by apply str_forallb_drop_while | done]. }
  exists post. by rewrite <- Hr, str_take_while_drop_while.
Qed.

(** ** Whitespace before a token does not change it *)

Lemma scan_whitespace w r :
  str_forallb isWhitespace w = true →
  scan (w +:+ r) = (fst (scan r), len w + snd (scan r)).
Proof.
  intros Hw. unfold scan.
  rewrite str_take_while_app, str_drop_while_app, len_app by done.
  destruct (scan_token _). simpl. f_equal. lia.
Qed.

(** [scan] on a string that starts with no whitespace is [scan_token]. *)
Lemma scan_no_whitespace r :
  isWhitespace (str_head NUL r) = false → scan r = scan_token r.
Proof.
  intros Hws. unfold scan. destruct r as [|c r]; [done |]. simpl in *.
  rewrite Hws. destruct (scan_token _). simpl. f_equal.
Qed.

(** ** One lemma per kind of lexeme *)

(** A maximal run of letters is one token, classified as a whole. *)
Lemma scan_word w r :
  w ≠ "" → str_forallb isLetter w = true →
  isLetter (str_head NUL r) = false →
  scan (w +:+ r) = ({| Type_ := classify w; Literal := w |}, len w).
Proof.
  intros Hne Hw Hr.
  pose proof (str_forallb_head_nonempty _ NUL _ Hne Hw) as Hc.
  rewrite scan_no_whitespace
    by (rewrite str_head_app by done; auto with lexer).
  destruct w as [|c w]; [done |]. rewrite str_app_cons.
  rewrite scan_token_letter by done. rewrite <- str_app_cons.
  by rewrite (str_take_while_app_head _ _ _ NUL).
Qed.

(** A maximal run of digits is one [INT] token; a letter ends it. *)
Lemma scan_int w r :
  w ≠ "" → str_forallb isDigit w = true →
  isDigit (str_head NUL r) = false →
  scan (w +:+ r) = ({| Type_ := INT; Literal := w |}, len w).
Proof.
  intros Hne Hw Hr.
  pose proof (str_forallb_head_nonempty _ NUL _ Hne Hw) as Hc.
  rewrite scan_no_whitespace
    by (rewrite str_head_app by done; auto with lexer).
  destruct w as [|c w]; [done |]. rewrite str_app_cons.
  rewrite scan_token_digit by done. rewrite <- str_app_cons.
  by rewrite (str_take_while_app_head _ _ _ NUL).
Qed.

Lemma scan_NUL r : scan (String NUL r) = (eof_token, 1).
Proof. by rewrite scan_no_whitespace. Qed.

Lemma scan_punctuation c t r :
  punctuation_type c = Some t →
  scan (String c r) = ({| Type_ := t; Literal := String c "" |}, 1).
Proof.
  intros Hp. pose proof (punctuation_type_Some _ _ Hp) as [Hc _].
  rewrite scan_no_whitespace by (simpl; auto with lexer).
  by apply scan_token_punctuation.
Qed.

(** A byte in no class is an [ILLEGAL] token. *)
Lemma scan_illegal c r :
  class_count c = 0%nat → c ≠ NUL →
  scan (String c r) =
    ({| Type_ := ILLEGAL; Literal := string_of_byte c |}, 1).
Proof.
  intros (Hw & Hp & Hl & Hd)%class_count_0 Hn.
  rewrite scan_no_whitespace by done. by apply scan_token_illegal.
Qed.

(** ** When the token is [EOF] *)

Lemma scan_token_eof_iff r :
  Type_ (fst (scan_token r)) = EOF ↔ str_head NUL r = NUL.
Proof.
  pose proof (scan_token_cases r) as H. simpl in H.
  destruct (punctuation_type _) as [t|] eqn:Hp.
  { rewrite H. simpl. split; [| intros Hc; by rewrite Hc in Hp].
    intros ->. by apply punctuation_type_Some in Hp as [_ ?]. }
  case_decide; [by rewrite H |].
  destruct (isLetter _); [| destruct (isDigit _)]; rewrite H; simpl;
    split; try done.
  intros ?. by destruct (classify_not_EOF (str_take_while isLetter r)).
Qed.

Lemma scan_eof_iff r :
  Type_ (fst (scan r)) = EOF ↔
  str_head NUL (str_drop_while isWhitespace r) = NUL.
Proof.
  unfold scan. rewrite <- scan_token_eof_iff. by destruct (scan_token _).
Qed.

Lemma scan_nil : scan "" = (eof_token, 1).
Proof. done. Qed.

(** ** Sequences of tokens *)

Lemma scan_n_S n r :
  scan_n (S n) r =
    (fst (scan r) :: fst (scan_n n (str_drop (Z.to_nat (snd (scan r))) r)),
     snd (scan r) + snd (scan_n n (str_drop (Z.to_nat (snd (scan r))) r))).
Proof. simpl. destruct (scan r). by destruct (scan_n n _). Qed.

Lemma scan_n_length n r : length (fst (scan_n n r)) = n.
Proof.
  revert r; induction n as [|n IH]; intros r; [done |].
  rewrite scan_n_S. simpl. by rewrite IH.
Qed.

Lemma scan_n_wf n r : Forall token_wf (fst (scan_n n r)).
Proof.
  revert r; induction n as [|n IH]; intros r; [by constructor |].
  rewrite scan_n_S. simpl. constructor; [| apply IH].
  apply token_shape_wf, scan_shape.
Qed.

(** Every token takes at least one position. *)
Lemma scan_n_progress n r : Z.of_nat n ≤ snd (scan_n n r).
Proof.
  revert r; induction n as [|n IH]; intros r; [done |].
  rewrite scan_n_S. simpl. pose proof (scan_progress r).
  pose proof (IH (str_drop (Z.to_nat (snd (scan r))) r)). lia.
Qed.

(** The tokens of a string lie within it, but for the positions the [EOF]
    tokens at its end count. *)
Lemma scan_n_bound n r : snd (scan_n n r) ≤ len r + Z.of_nat n.
Proof.
  revert r; induction n as [|n IH]; intros r.
  { pose proof (len_nonneg r). simpl. lia. }
  rewrite scan_n_S. simpl. pose proof (scan_progress r).
  pose proof (scan_bound_eof r).
  pose proof (IH (str_drop (Z.to_nat (snd (scan r))) r)) as Hn.
  unfold len in *. rewrite str_length_drop in Hn. lia.
Qed.

(** At the end of the input every token is [EOF] and counts for one. *)
Lemma scan_n_nil n : scan_n n "" = (replicate n eof_token, Z.of_nat n).
Proof.
  induction n as [|n IH]; [done |].
  rewrite scan_n_S, scan_nil. simpl. rewrite IH. simpl. f_equal. lia.
Qed.

Lemma scan_n_add n m r :
  scan_n (n + m) r =
    (fst (scan_n n r)
       ++ fst (scan_n m (str_drop (Z.to_nat (snd (scan_n n r))) r)),
     snd (scan_n n r)
       + snd (scan_n m (str_drop (Z.to_nat (snd (scan_n n r))) r))).
Proof.
  revert r; induction n as [|n IH]; intros r.
  { cbn [scan_n fst snd Nat.add app]. rewrite Z2Nat.inj_0, str_drop_0.
    by destruct (scan_n m r). }
  change (S n + m)%nat with (S (n + m)). rewrite !scan_n_S, IH. simpl.
  pose proof (scan_progress r).
  pose proof (scan_n_progress n (str_drop (Z.to_nat (snd (scan r))) r)).
  rewrite str_drop_drop, <- Z2Nat.inj_add by lia. f_equal. lia.
Qed.

(** Scanning reaches the end of the string: some number of tokens takes all
    its bytes, and at most one position more. *)
Lemma scan_n_reaches_end r :
  ∃ n, len r ≤ snd (scan_n n r) ≤ len r + 1.
Proof.
  remember (String.length r) as k eqn:Hk. revert r Hk.
  induction k as [k IH] using lt_wf_ind. intros r ->.
  destruct r as [|c r]; [by exists 0%nat |].
  pose proof (scan_progress (String c r)) as Hp.
  pose proof (scan_bound_eof (String c r)) as Hb.
  destruct (decide (snd (scan (String c r)) = len (String c r) + 1)) as [E|E].
  { exists 1%nat. rewrite scan_n_S. simpl. lia. }
  set (r' := str_drop (Z.to_nat (snd (scan (String c r)))) (String c r)).
  assert (len r' = len (String c r) - snd (scan (String c r))) as Hr'.
  { unfold r', len in *. rewrite str_length_drop. lia. }
  destruct (IH (String.length r')) with (r := r') as [n Hn]; [| done |].
  { unfold len in *. lia. }
  exists (S n). rewrite scan_n_S. simpl. fold r'. lia.
Qed.

End scan_lemmas.
