(* ===== verification/ScanSeq.v ===== *)
(** * Sequences of tokens of the specification

    Theorems on [scan] and [scan_n] that relate the tokens of two inputs:
    a token that ends exactly where a prefix [x] of the input ends does not
    depend on what follows [x], unless that could make the token longer
    ([scan_app_local], [scan_n_app_local]); whitespace inserted where a token
    ends changes no token ([scan_n_insert_whitespace]); and the literals of
    the tokens, one after the other, are the input that was consumed without
    its whitespace ([scan_n_literals]). *)

From Stdlib Require Import ZArith Ascii String List Lia.
From stdpp Require Import base tactics option list strings.
From S2P Require Import Prelude StrSeq GoRuntime Chars Token Scan.

#[local] Open Scope Z_scope.

(** The test that a byte is not whitespace, and that it is not zero. *)
Definition not_whitespace (c : ascii) : bool := negb (isWhitespace c).
Definition not_NUL (c : ascii) : bool := negb (c =? NUL)%char.

(** [no_longer y y']: a word or a number that ends before [y] also ends
    before [y']. *)
Definition no_longer (y y' : string) : Prop :=
  (isLetter (str_head NUL y') = true → isLetter (str_head NUL y) = true) ∧
  (isDigit (str_head NUL y') = true → isDigit (str_head NUL y) = true).

Section scan_seq.
Context {classifier : Classifier}.
Implicit Types (x y w r s : string) (c : ascii) (n m k : nat)
  (p : ascii → bool) (tok : Token).

(** ** What may follow a token *)

Lemma no_longer_refl y : no_longer y y.
Proof. by split. Qed.

Lemma no_longer_app x y y' :
  no_longer y y' → no_longer (x +:+ y) (x +:+ y').
Proof. destruct x; [done |]. intros _. unfold no_longer. by str_simpl. Qed.

Lemma no_longer_whitespace w r :
  str_forallb isWhitespace w = true → no_longer r (w +:+ r).
Proof.
  destruct w as [|c w]; [intros; apply no_longer_refl |]. str_simpl.
  intros [Hc _]%andb_prop.
  split; simpl; intros H;
    [apply isWhitespace_not_letter in Hc
    | apply isWhitespace_not_digit in Hc]; congruence.
Qed.

(** ** Locality of a run, of a token, of a sequence of tokens *)

Lemma take_while_app_local p x y y' :
  p NUL = false → len (str_take_while p (x +:+ y)) = len x →
  (p (str_head NUL y') = true → p (str_head NUL y) = true) →
  str_take_while p (x +:+ y') = str_take_while p (x +:+ y).
Proof.
  intros Hnul Hlen Hy.
  destruct (str_take_while_app_exact p x y NUL) as (Hx & Hh & ->);
    [by apply len_inj_length | done |].
  apply str_take_while_app_head with NUL; [done | | done].
  destruct (p (str_head NUL y')) eqn:E; [| done]. by rewrite Hy in Hh.
Qed.

Lemma scan_token_app_local x y y' :
  x ≠ "" → snd (scan_token (x +:+ y)) = len x → no_longer y y' →
  scan_token (x +:+ y') = scan_token (x +:+ y).
Proof.
  intros Hx. unfold scan_token. rewrite !(str_head_app _ x) by done.
  destruct (punctuation_type _); [done |]. destruct (_ =? NUL)%char; [done |].
  destruct (isLetter _); [| destruct (isDigit _); [| done]];
    simpl; intros Hlen [Hl Hd];
    by rewrite (take_while_app_local _ x y y').
Qed.

Lemma scan_app_local x y y' :
  snd (scan (x +:+ y)) = len x → no_longer y y' →
  scan (x +:+ y') = scan (x +:+ y).
Proof.
  unfold scan. pose proof (scan_token_progress
    (str_drop_while isWhitespace (x +:+ y))) as Hp.
  destruct (scan_token (str_drop_while _ (x +:+ y))) as [tok n] eqn:E.
  simpl in *. intros Hlen Hn.
  destruct (str_take_while_app_short isWhitespace x y) as (Ht & Hd & Hne).
  { unfold len in Hlen. lia. }
  destruct (str_drop_while_app_nonempty isWhitespace x y' Hne) as [-> ->].
  rewrite Ht. rewrite Hd in E. rewrite Ht in Hlen.
  rewrite (scan_token_app_local _ y y'), E; [done | done | | done].
  rewrite E. simpl.
  pose proof (f_equal len (str_take_while_drop_while isWhitespace x)) as Hx.
  rewrite len_app in Hx. lia.
Qed.

(** A prefix [x] of the input cut after [n] bytes. *)
Lemma str_split_at x (z : Z) :
  0 ≤ z ≤ len x → ∃ x1 x2, x = x1 +:+ x2 ∧ len x1 = z.
Proof.
  intros Hz. exists (str_take (Z.to_nat z) x), (str_drop (Z.to_nat z) x).
  rewrite str_take_drop. split; [done |]. unfold len in *.
  rewrite str_length_take. lia.
Qed.

Lemma scan_n_app_local k x y y' :
  snd (scan_n k (x +:+ y)) = len x → no_longer y y' →
  scan_n k (x +:+ y') = scan_n k (x +:+ y).
Proof.
  revert x. induction k as [|k IH]; intros x; [done |].
  rewrite !scan_n_S. simpl. intros Hlen Hn.
  pose proof (scan_progress (x +:+ y)).
  pose proof (scan_n_progress k
    (str_drop (Z.to_nat (snd (scan (x +:+ y)))) (x +:+ y))).
  destruct (str_split_at x (snd (scan (x +:+ y)))) as (x1 & x2 & -> & H1);
    [lia |].
  revert Hlen H1. rewrite !str_app_assoc, len_app. intros Hlen H1.
  assert (scan (x1 +:+ x2 +:+ y') = scan (x1 +:+ x2 +:+ y)) as ->
    by (apply scan_app_local; [done | by apply no_longer_app]).
  revert Hlen. rewrite <- H1, to_nat_len, !str_drop_app_length. intros Hlen.
  rewrite (IH x2); [done | lia | done].
Qed.

(** ** Whitespace between tokens *)

Lemma scan_n_whitespace_head m w r :
  str_forallb isWhitespace w = true →
  fst (scan_n m (w +:+ r)) = fst (scan_n m r).
Proof.
  intros Hw. destruct m as [|m]; [done |]. rewrite !scan_n_S. simpl.
  rewrite scan_whitespace by done. simpl. do 3 f_equal.
  pose proof (scan_progress r). pose proof (len_nonneg w).
  rewrite str_drop_app_ge by (unfold len in *; lia). f_equal.
  unfold len in *. lia.
Qed.

(** Whitespace inserted at a position where a token ends, or where the
    input starts, changes none of the tokens. *)
Lemma scan_n_insert_whitespace k x w r n :
  snd (scan_n k (x +:+ r)) = len x → str_forallb isWhitespace w = true →
  fst (scan_n n (x +:+ w +:+ r)) = fst (scan_n n (x +:+ r)).
Proof.
  intros Hlen Hw.
  assert (scan_n k (x +:+ w +:+ r) = scan_n k (x +:+ r)) as Hk
    by (by apply scan_n_app_local, no_longer_whitespace).
  destruct (Nat.le_gt_cases k n) as [Hle | Hgt].
  - replace n with (k + (n - k))%nat by lia. rewrite !scan_n_add. simpl.
    rewrite Hk, Hlen, to_nat_len, !str_drop_app_length.
    f_equal. by apply scan_n_whitespace_head.
  - apply (f_equal fst) in Hk. revert Hk.
    replace k with (n + (k - n))%nat by lia. rewrite !scan_n_add. simpl.
    intros [? _]%app_inj_1; [done | by rewrite !scan_n_length].
Qed.

(** ** The literals of the tokens *)

Lemma string_of_byte_no_whitespace c :
  isWhitespace c = false →
  str_forallb not_whitespace (string_of_byte c) = true.
Proof.
  revert c. enough (∀ c, implb (negb (isWhitespace c))
    (str_forallb not_whitespace (string_of_byte c)) = true) as H.
  { intros c Hc. specialize (H c). by rewrite Hc in H. }
  ascii_all.
Qed.

(** No literal holds whitespace. *)
Lemma token_shape_no_whitespace tok :
  token_shape tok → str_forallb not_whitespace (Literal tok) = true.
Proof.
  unfold not_whitespace.
  destruct 1 as [| c t Hc | w _ Hw | w _ Hw | c ? ? ? ? Hc]; simpl.
  - done.
  - apply punctuation_type_Some in Hc as [Hc _].
    by rewrite isPunctuation_not_whitespace.
  - apply (str_forallb_impl isLetter); [| done].
    intros c Hc. by rewrite isLetter_not_whitespace.
  - apply (str_forallb_impl isDigit); [| done].
    intros c Hc. by rewrite isDigit_not_whitespace.
  - by apply string_of_byte_no_whitespace.
Qed.

(** An input without zero bytes gives [EOF] only when nothing but
    whitespace is left. *)
Lemma scan_eof_whitespace s :
  str_forallb not_NUL s = true → Type_ (fst (scan s)) = EOF →
  str_forallb isWhitespace s = true ∧ Literal (fst (scan s)) = "".
Proof.
  intros Hs Heof. split.
  - apply scan_eof_iff in Heof.
    pose proof (str_forallb_drop_while _ isWhitespace _ Hs) as Hd.
    rewrite <- (str_take_while_drop_while isWhitespace s), str_forallb_app.
    rewrite str_forallb_take_while. simpl.
    destruct (str_drop_while isWhitespace s) as [|c r]; [done |].
    simpl in *. subst c. done.
  - pose proof (token_shape_wf _ (scan_shape s)) as Hwf.
    unfold token_wf in Hwf. by rewrite Heof in Hwf.
Qed.

(** The literal of a token is what the call consumed, without the
    whitespace. *)
Lemma scan_literal_filter s :
  str_forallb is_ascii s = true → str_forallb not_NUL s = true →
  Literal (fst (scan s)) =
    str_filter not_whitespace (str_take (Z.to_nat (snd (scan s))) s).
Proof.
  intros Ha Hn. destruct (decide (Type_ (fst (scan s)) = EOF)) as [Heof | Hne].
  - destruct (scan_eof_whitespace s Hn Heof) as [Hw ->].
    symmetry. apply str_filter_none, str_forallb_take.
    apply (str_forallb_impl isWhitespace); [| done].
    intros c Hc. unfold not_whitespace. by rewrite Hc.
  - destruct (scan_literal_split s Hne) as (post & Hs & ->); [by right |].
    rewrite (f_equal (str_take _) Hs), Z2Nat.inj_add, !to_nat_len
      by apply len_nonneg.
    rewrite str_take_add, str_take_app_length, str_drop_app_length.
    rewrite str_take_app_length, str_filter_app.
    rewrite str_filter_none, str_filter_all; [done | |].
    + apply token_shape_no_whitespace, scan_shape.
    + apply (str_forallb_impl isWhitespace);
        [| apply str_forallb_take_while].
      intros c Hc. unfold not_whitespace. by rewrite Hc.
Qed.

(** The literals of the first [n] tokens, one after the other, are the bytes
    of the input that the [n] calls consumed, without the whitespace. *)
Lemma scan_n_literals n s :
  str_forallb is_ascii s = true → str_forallb not_NUL s = true →
  str_concat (Literal <$> fst (scan_n n s)) =
    str_filter not_whitespace (str_take (Z.to_nat (snd (scan_n n s))) s).
Proof.
  revert s. induction n as [|n IH]; intros s Ha Hn; [done |].
  rewrite scan_n_S. simpl.
  pose proof (scan_progress s).
  pose proof (scan_n_progress n (str_drop (Z.to_nat (snd (scan s))) s)).
  rewrite Z2Nat.inj_add, str_take_add, str_filter_app by lia.
  rewrite <- IH by (by apply str_forallb_drop).
  by rewrite <- scan_literal_filter.
Qed.

End scan_seq.
