(* ===== verification/ScanAll.v ===== *)
(** * The tokens of a whole input, and printing them back

    [scan_all r] is the list of the tokens of [r] up to its first [EOF]: what
    a caller receives who asks for tokens until the end-of-input marker.  It
    is defined by well-founded recursion on the length of [r], since every
    token but [EOF] takes at least one byte.  [print_tokens] writes a list of
    tokens as a string, the literals separated by one space.

    The file proves that [scan_all] stops at the first zero byte, that its
    tokens are well formed, and the round trip: scanning what
    [print_tokens] wrote gives the tokens back, so that on ASCII input
    printing the tokens and scanning again changes nothing. *)

From Equations Require Import Equations.
From Stdlib Require Import ZArith Ascii String List Lia.
From stdpp Require Import base tactics option list strings.
From S2P Require Import Prelude StrSeq GoRuntime Chars Token Scan ScanSeq.

#[local] Open Scope Z_scope.

(** The literals of the tokens, separated by one space. *)
Fixpoint print_tokens (toks : list Token) : string :=
  match toks with
  | [] => ""
  | tok :: toks' =>
      Literal tok +:+
      match toks' with
      | [] => ""
      | _ :: _ => " " +:+ print_tokens toks'
      end
  end.

Section scan_all.
Context {classifier : Classifier}.
Implicit Types (r x y w : string) (c : ascii) (tok : Token)
  (toks : list Token) (p : ascii → bool).

(** A token that [print_tokens] can write and [scan] read back: a token of
    one of the five shapes, not [EOF], with an ASCII literal. *)
Definition printable (tok : Token) : Prop :=
  token_shape tok ∧ Type_ tok ≠ EOF ∧
  str_forallb is_ascii (Literal tok) = true.

(** The tokens of [r] up to the first [EOF]. *)
Equations? scan_all (r : string) : list Token by wf (String.length r) lt :=
  scan_all r with decide (Type_ (fst (scan r)) = EOF) := {
    | left _ => [];
    | right Hne =>
        fst (scan r) :: scan_all (str_drop (Z.to_nat (snd (scan r))) r) }.
Proof. by apply scan_drop_lt. Qed.

(** ** The equations of [scan_all] *)

Lemma scan_all_eq r :
  scan_all r =
    if decide (Type_ (fst (scan r)) = EOF) then []
    else fst (scan r) :: scan_all (str_drop (Z.to_nat (snd (scan r))) r).
Proof.
  funelim (scan_all r);
    by match goal with H : decide _ = _ |- _ => rewrite H end.
Qed.

Lemma scan_all_eof r : Type_ (fst (scan r)) = EOF → scan_all r = [].
Proof. intros H. by rewrite scan_all_eq, decide_True. Qed.

Lemma scan_all_cons r tok (n : Z) :
  scan r = (tok, n) → Type_ tok ≠ EOF →
  scan_all r = tok :: scan_all (str_drop (Z.to_nat n) r).
Proof. intros E H. rewrite scan_all_eq, E. simpl. by rewrite decide_False. Qed.

Lemma scan_all_nil : scan_all "" = [].
Proof. by apply scan_all_eof. Qed.

(** Induction on the input that follows the calls of [scan_all]. *)
Lemma scan_all_ind (P : string → Prop) :
  (∀ r, Type_ (fst (scan r)) = EOF → P r) →
  (∀ r, Type_ (fst (scan r)) ≠ EOF →
        P (str_drop (Z.to_nat (snd (scan r))) r) → P r) →
  ∀ r, P r.
Proof.
  intros Heof Hcons r. remember (String.length r) as n eqn:Hn.
  revert r Hn. induction (lt_wf n) as [n _ IH]. intros r ->.
  destruct (decide (Type_ (fst (scan r)) = EOF)) as [? | Hne]; [by apply Heof |].
  apply Hcons; [done |]. by apply (IH _ (scan_drop_lt r Hne)).
Qed.

(** ** Whitespace and zero bytes *)

Lemma scan_all_whitespace w r :
  str_forallb isWhitespace w = true → scan_all (w +:+ r) = scan_all r.
Proof.
  intros Hw. rewrite (scan_all_eq (w +:+ r)), (scan_all_eq r).
  rewrite scan_whitespace by done. simpl.
  destruct (decide _); [done |]. do 2 f_equal.
  pose proof (scan_progress r). pose proof (len_nonneg w).
  rewrite str_drop_app_ge by (unfold len in *; lia). f_equal.
  unfold len in *. lia.
Qed.

Lemma str_take_while_app_byte p x c y :
  p c = false →
  str_take_while p (x +:+ String c y) = str_take_while p x ∧
  str_drop_while p (x +:+ String c y) = str_drop_while p x +:+ String c y.
Proof.
  intros Hc. induction x as [|a x [IH1 IH2]]; str_simpl.
  - by rewrite Hc.
  - destruct (p a); [by rewrite IH1, IH2 | done].
Qed.

Lemma scan_token_app_NUL x y :
  scan_token (x +:+ String NUL y) = scan_token x.
Proof.
  destruct x as [|c x]; [done |]. unfold scan_token. str_simpl.
  destruct (str_take_while_app_byte isLetter (String c x) NUL y) as [Hl _];
    [done |].
  destruct (str_take_while_app_byte isDigit (String c x) NUL y) as [Hd _];
    [done |].
  revert Hl Hd. str_simpl. by intros -> ->.
Qed.

(** A zero byte is the end of the input for [scan]. *)
Lemma scan_app_NUL x y : scan (x +:+ String NUL y) = scan x.
Proof.
  unfold scan.
  destruct (str_take_while_app_byte isWhitespace x NUL y) as [-> ->];
    [done |].
  by rewrite scan_token_app_NUL.
Qed.

(** ** The tokens of [scan_all] *)

Lemma scan_all_shape r :
  Forall (λ tok, token_shape tok ∧ Type_ tok ≠ EOF) (scan_all r).
Proof.
  induction r as [r Heof | r Hne IH] using scan_all_ind.
  - by rewrite scan_all_eof.
  - rewrite scan_all_eq, decide_False by done.
    constructor; [| done]. split; [apply scan_shape | done].
Qed.

Lemma scan_all_length r : (length (scan_all r) ≤ String.length r)%nat.
Proof.
  induction r as [r Heof | r Hne IH] using scan_all_ind.
  - rewrite scan_all_eof by done. simpl. lia.
  - rewrite scan_all_eq, decide_False by done. simpl.
    pose proof (scan_drop_lt r Hne). lia.
Qed.

(** There is one token of kind [EOF]. *)
Lemma scan_eof_token r : Type_ (fst (scan r)) = EOF → fst (scan r) = eof_token.
Proof.
  intros H. pose proof (token_shape_wf _ (scan_shape r)) as Hwf.
  unfold token_wf in Hwf. rewrite H in Hwf.
  destruct (fst (scan r)); simpl in *. by subst.
Qed.

(** The tokens of [scan_all] are the tokens [scan_n] reads before the first
    [EOF], which it reads next, at most one position past the end. *)
Lemma scan_n_scan_all r :
  fst (scan_n (S (length (scan_all r))) r) = scan_all r ++ [eof_token] ∧
  snd (scan_n (S (length (scan_all r))) r) ≤ len r + 1.
Proof.
  induction r as [r Heof | r Hne [IH1 IH2]] using scan_all_ind.
  - rewrite scan_all_eof by done. cbn [length]. rewrite scan_n_S. simpl.
    pose proof (scan_bound_eof r). split; [| lia].
    by rewrite scan_eof_token.
  - rewrite scan_all_eq, decide_False by done. cbn [length].
    rewrite scan_n_S. cbn [fst snd]. rewrite IH1. split; [done |].
    pose proof (scan_progress r). pose proof (scan_bound r Hne).
    revert IH2. unfold len. rewrite str_length_drop. unfold len in *. lia.
Qed.

(** The literal of a token read from ASCII input is ASCII. *)
Lemma scan_literal_ascii r :
  str_forallb is_ascii r = true →
  str_forallb is_ascii (Literal (fst (scan r))) = true.
Proof.
  intros Ha. destruct (decide (Type_ (fst (scan r)) = EOF)) as [Heof | Hne].
  - pose proof (token_shape_wf _ (scan_shape r)) as Hwf.
    unfold token_wf in Hwf. rewrite Heof in Hwf. by rewrite Hwf.
  - destruct (scan_literal_split r Hne) as (post & Hr & _); [by right |].
    rewrite Hr, !str_forallb_app in Ha.
    by apply andb_prop in Ha as [_ [? _]%andb_prop].
Qed.

Lemma scan_all_printable r :
  str_forallb is_ascii r = true → Forall printable (scan_all r).
Proof.
  induction r as [r Heof | r Hne IH] using scan_all_ind; intros Ha.
  - by rewrite scan_all_eof.
  - rewrite scan_all_eq, decide_False by done.
    constructor; [| by apply IH, str_forallb_drop].
    split; [apply scan_shape |]. split; [done | by apply scan_literal_ascii].
Qed.

(** ** Printing and scanning *)

Lemma string_of_byte_ascii_inv c :
  str_forallb is_ascii (string_of_byte c) = true → is_ascii c = true.
Proof.
  revert c. enough (∀ c, implb (str_forallb is_ascii (string_of_byte c))
    (is_ascii c) = true) as H.
  { intros c Hc. specialize (H c). by rewrite Hc in H. }
  ascii_all.
Qed.

(** A printable token followed by nothing that could make it longer is read
    back as it is. *)
Lemma scan_printable tok r :
  printable tok →
  isLetter (str_head NUL r) = false → isDigit (str_head NUL r) = false →
  scan (Literal tok +:+ r) = (tok, len (Literal tok)).
Proof.
  intros (Hs & Hne & Ha) Hl Hd.
  destruct Hs as [| c t Hc | w Hw Hf | w Hw Hf | c Hp Hn Hcl Hcd Hcw]; simpl in *.
  - done.
  - str_simpl. by apply scan_punctuation.
  - by apply scan_word.
  - by apply scan_int.
  - apply string_of_byte_ascii_inv in Ha.
    replace (string_of_byte c +:+ r) with (String c r)
      by (by rewrite string_of_byte_ascii).
    replace (len (string_of_byte c)) with 1
      by (by rewrite string_of_byte_ascii).
    apply scan_illegal; [by apply class_count_0 | done].
Qed.

Lemma print_tokens_cons tok toks :
  print_tokens (tok :: toks) =
    Literal tok +:+ (if toks is [] then "" else " " +:+ print_tokens toks).
Proof. by destruct toks. Qed.

(** Scanning what [print_tokens] wrote gives the tokens back. *)
Lemma scan_all_print_tokens toks :
  Forall printable toks → scan_all (print_tokens toks) = toks.
Proof.
  induction 1 as [| tok toks Htok _ IH]; [apply scan_all_nil |].
  rewrite print_tokens_cons.
  rewrite (scan_all_cons _ tok (len (Literal tok)));
    [| by apply scan_printable; destruct toks | by destruct Htok as (_ & ? & _)].
  rewrite to_nat_len, str_drop_app_length. f_equal.
  destruct toks; [apply scan_all_nil |].
  by rewrite (scan_all_whitespace " ").
Qed.

(** The tokens of ASCII input, printed, are at most twice as long as the
    input: a literal is as long as the bytes it was read from, and a
    separator follows all but the last. *)
Lemma print_tokens_scan_all_length r :
  str_forallb is_ascii r = true → len (print_tokens (scan_all r)) ≤ 2 * len r.
Proof.
  induction r as [r Heof | r Hne IH] using scan_all_ind; intros Ha.
  { rewrite scan_all_eof by done. simpl. pose proof (len_nonneg r).
    rewrite len_nil. lia. }
  rewrite scan_all_eq, decide_False, print_tokens_cons by done.
  destruct (scan_literal_split r Hne) as (post & _ & Hn); [by right |].
  pose proof (scan_progress r). pose proof (scan_bound r Hne).
  pose proof (len_nonneg (str_take_while isWhitespace r)).
  specialize (IH (str_forallb_drop _ _ _ Ha)). revert IH.
  unfold len at 2. rewrite str_length_drop.
  destruct (scan_all _); rewrite ?len_app, ?len_cons, ?len_nil;
    unfold len in *; lia.
Qed.

(** The tokens of [x] are those of [x] followed by a zero byte and anything
    else. *)
Lemma scan_all_app_NUL x y : scan_all (x +:+ String NUL y) = scan_all x.
Proof.
  induction x as [x Heof | x Hne IH] using scan_all_ind.
  - by rewrite !scan_all_eof by (by rewrite ?scan_app_NUL).
  - rewrite (scan_all_eq x), (scan_all_eq (_ +:+ _)), scan_app_NUL.
    rewrite !decide_False by done. f_equal.
    pose proof (scan_progress x). pose proof (scan_bound x Hne).
    by rewrite str_drop_app_le by (unfold len in *; lia).
Qed.

End scan_all.
