(* ===== verification/ScanRel.v ===== *)
(** * The tokens of an input, as rules

    [next_token r tok r'] says that [tok] is the first token of the string
    [r] and [r'] what is left after it, one rule per kind of lexeme: the
    declarative account of a call of [NextToken], with no positions and no
    counting.  [tokens r toks] says that [toks] are the tokens of [r] up to
    the end of the input.

    The file proves that the rules describe the functions [Scan.scan] and
    [ScanAll.scan_all] and nothing else, so that they determine the token
    and what is left. *)

From Stdlib Require Import ZArith Ascii String List Lia.
From stdpp Require Import base tactics option list strings.
From S2P Require Import Prelude StrSeq GoRuntime Chars Token Scan ScanSeq ScanAll.

#[local] Open Scope Z_scope.

Section rules.
Context {classifier : Classifier}.
Implicit Types (r w : string) (c : ascii) (t : TokenType) (tok : Token)
  (toks : list Token).

(** The first token of a string and what is left of the string.  A word or a
    number is a whole run: what is left does not start with a byte that
    would make it longer.  At the end of the input, and at a zero byte, the
    token is [EOF]. *)
Inductive next_token : string → Token → string → Prop :=
| nt_whitespace c r tok (r' : string) :
    isWhitespace c = true → next_token r tok r' →
    next_token (String c r) tok r'
| nt_end :
    next_token "" eof_token ""
| nt_NUL r :
    next_token (String NUL r) eof_token r
| nt_punctuation c t r :
    punctuation_type c = Some t →
    next_token (String c r) {| Type_ := t; Literal := String c "" |} r
| nt_word w r :
    w ≠ "" → str_forallb isLetter w = true →
    isLetter (str_head NUL r) = false →
    next_token (w +:+ r) {| Type_ := classify w; Literal := w |} r
| nt_int w r :
    w ≠ "" → str_forallb isDigit w = true →
    isDigit (str_head NUL r) = false →
    next_token (w +:+ r) {| Type_ := INT; Literal := w |} r
| nt_illegal c r :
    class_count c = 0%nat → c ≠ NUL →
    next_token (String c r) {| Type_ := ILLEGAL; Literal := string_of_byte c |} r.

(** The tokens of a string up to the first [EOF]. *)
Inductive tokens : string → list Token → Prop :=
| tokens_eof r (r' : string) :
    next_token r eof_token r' → tokens r []
| tokens_cons r tok (r' : string) toks :
    next_token r tok r' → Type_ tok ≠ EOF → tokens r' toks →
    tokens r (tok :: toks).

(** What is left of [r] after its first token. *)
Definition after_scan (r : string) : string :=
  str_drop (Z.to_nat (snd (scan r))) r.

(** ** The rules describe [scan] *)

Lemma after_scan_whitespace c r :
  isWhitespace c = true →
  fst (scan (String c r)) = fst (scan r) ∧
  after_scan (String c r) = after_scan r.
Proof.
  intros Hc. unfold after_scan.
  rewrite (scan_whitespace (String c "") r) by (simpl; by rewrite Hc).
  pose proof (scan_progress r). split; [done |]. simpl snd.
  rewrite len_cons, len_nil, Z2Nat.inj_add by lia. done.
Qed.

Lemma after_scan_app w r tok :
  scan (w +:+ r) = (tok, len w) →
  fst (scan (w +:+ r)) = tok ∧ after_scan (w +:+ r) = r.
Proof.
  intros E. unfold after_scan. rewrite E. simpl.
  by rewrite to_nat_len, str_drop_app_length.
Qed.

Lemma after_scan_byte c r tok :
  scan (String c r) = (tok, 1) →
  fst (scan (String c r)) = tok ∧ after_scan (String c r) = r.
Proof. intros E. unfold after_scan. by rewrite E. Qed.

(** Soundness of the rules: a derivation gives the token and the rest that
    [scan] computes. *)
Lemma next_token_scan r tok r' :
  next_token r tok r' → fst (scan r) = tok ∧ after_scan r = r'.
Proof.
  induction 1 as [c r tok r' Hc _ [IH1 IH2] | | r | c t r Hp
    | w r Hne Hw Hr | w r Hne Hw Hr | c r Hc Hn].
  - destruct (after_scan_whitespace c r Hc) as [-> ->]. done.
  - done.
  - apply after_scan_byte, scan_NUL.
  - by apply after_scan_byte, scan_punctuation.
  - by apply after_scan_app, scan_word.
  - by apply after_scan_app, scan_int.
  - by apply after_scan_byte, scan_illegal.
Qed.

(** Completeness: what [scan_token] computes on a string that does not
    start with whitespace has a derivation. *)
Lemma scan_token_next_token r :
  isWhitespace (str_head NUL r) = false →
  next_token r (fst (scan_token r)) (str_drop (Z.to_nat (snd (scan_token r))) r).
Proof.
  intros Hws. pose proof (scan_token_cases r) as H. simpl in H.
  destruct r as [|c r]; [rewrite H; constructor |]. simpl str_head in *.
  destruct (punctuation_type c) eqn:Hp; [rewrite H; by constructor |].
  apply punctuation_type_None in Hp.
  case_decide as Hn; [subst c; rewrite H; apply nt_NUL |].
  destruct (isLetter c) eqn:Hl; [| destruct (isDigit c) eqn:Hd]; rewrite H;
    cbn [fst snd]; [| | apply nt_illegal; by rewrite ?class_count_0].
  - rewrite to_nat_len, str_drop_take_while.
    rewrite <- (str_take_while_drop_while isLetter (String c r)) at 1.
    apply nt_word;
      [| apply str_forallb_take_while | by apply str_head_drop_while].
    by apply (str_take_while_nonempty _ _ NUL).
  - rewrite to_nat_len, str_drop_take_while.
    rewrite <- (str_take_while_drop_while isDigit (String c r)) at 1.
    apply nt_int;
      [| apply str_forallb_take_while | by apply str_head_drop_while].
    by apply (str_take_while_nonempty _ _ NUL).
Qed.

Lemma scan_next_token r : next_token r (fst (scan r)) (after_scan r).
Proof.
  induction r as [|c r IH]; [constructor |].
  destruct (isWhitespace c) eqn:Hc.
  - destruct (after_scan_whitespace c r Hc) as [-> ->]. by constructor.
  - unfold after_scan. rewrite scan_no_whitespace by done.
    by apply scan_token_next_token.
Qed.

Lemma next_token_iff r tok r' :
  next_token r tok r' ↔ fst (scan r) = tok ∧ after_scan r = r'.
Proof.
  split; [apply next_token_scan |]. intros [<- <-]. apply scan_next_token.
Qed.

(** The rules determine the token and the rest. *)
Lemma next_token_fun r tok1 r1 tok2 r2 :
  next_token r tok1 r1 → next_token r tok2 r2 → tok1 = tok2 ∧ r1 = r2.
Proof.
  intros [<- <-]%next_token_scan [<- <-]%next_token_scan. done.
Qed.

(** Every string has a first token. *)
Lemma next_token_total r : ∃ tok r', next_token r tok r'.
Proof. do 2 eexists. apply scan_next_token. Qed.

(** ** The rules describe [scan_all] *)

Lemma tokens_scan_all r toks : tokens r toks → scan_all r = toks.
Proof.
  induction 1 as [r r' [Ht _]%next_token_scan
    | r tok r' toks [Ht Hr]%next_token_scan Hne _ IH].
  - apply scan_all_eof. by rewrite Ht.
  - rewrite (scan_all_cons r tok (snd (scan r)));
      [| by rewrite <- Ht; destruct (scan r) | done].
    fold (after_scan r). by rewrite Hr, IH.
Qed.

Lemma scan_all_tokens r : tokens r (scan_all r).
Proof.
  induction r as [r Heof | r Hne IH] using scan_all_ind.
  - rewrite scan_all_eof by done. apply (tokens_eof r (after_scan r)).
    rewrite <- (scan_eof_token r Heof). apply scan_next_token.
  - rewrite scan_all_eq, decide_False by done.
    by apply (tokens_cons r _ (after_scan r)); [apply scan_next_token | |].
Qed.

Lemma tokens_iff r toks : tokens r toks ↔ scan_all r = toks.
Proof. split; [apply tokens_scan_all |]. intros <-. apply scan_all_tokens. Qed.

End rules.
