(* ===== verification/ScanBytes.v ===== *)
(** * The tokens keep every byte but whitespace

    [token_bytes tok] is the part of the input a token stands for: its
    literal, but for an [ILLEGAL] token, whose literal is the UTF-8 encoding
    of the byte that was read and is decoded here.  The file proves, by
    induction on the rules of [ScanRel], that the bytes of the tokens of an
    input, one after the other, are the input without its whitespace, up to
    the first zero byte: nothing is lost and nothing is made up, on every
    input, ASCII or not.  By the same induction, the positions a pass moves
    the cursor ([pass_width]) are the bytes before the first zero byte and
    one more. *)

From Stdlib Require Import ZArith NArith Ascii String List Lia.
From stdpp Require Import base tactics option list strings.
From S2P Require Import Prelude StrSeq GoRuntime Chars RuntimeCorrect Token Scan.
From S2P Require Import ScanSeq ScanAll ScanRel.

#[local] Open Scope Z_scope.

(** The bytes of the input that [tok] was read from. *)
Definition token_bytes (tok : Token) : string :=
  if decide (Type_ tok = ILLEGAL) then
    match utf8_decode (Literal tok) with
    | Some n => String (ascii_of_N n) ""
    | None => ""
    end
  else Literal tok.

(** What [scan_all] looks at: the input before its first zero byte. *)
Definition before_NUL (r : string) : string := str_take_while not_NUL r.

(** The bytes a pass over [r] moves the cursor forward: those of the tokens
    of [r] and of the whitespace before them, and those of the [EOF] that
    ends the pass. *)
Definition pass_width {classifier : Classifier} (r : string) : Z :=
  snd (scan_n (S (length (scan_all r))) r).

Section bytes.
Context {classifier : Classifier}.
Implicit Types (r w : string) (c : ascii) (t : TokenType) (tok : Token)
  (toks : list Token).

(** ** [token_bytes] on each shape of token *)

Lemma token_bytes_illegal c :
  token_bytes {| Type_ := ILLEGAL; Literal := string_of_byte c |} = String c "".
Proof.
  revert c. enough (∀ c, String.eqb
    (token_bytes {| Type_ := ILLEGAL; Literal := string_of_byte c |})
    (String c "") = true) as H.
  { intros c. by apply String.eqb_eq. }
  ascii_all.
Qed.

Lemma token_bytes_literal tok :
  Type_ tok ≠ ILLEGAL → token_bytes tok = Literal tok.
Proof. intros H. unfold token_bytes. by rewrite decide_False. Qed.

Lemma token_bytes_punctuation c t :
  punctuation_type c = Some t →
  token_bytes {| Type_ := t; Literal := String c "" |} = String c "".
Proof.
  intros [_ Ht]%punctuation_type_Some. apply token_bytes_literal.
  simpl. by intros ->.
Qed.

Lemma token_bytes_word w :
  token_bytes {| Type_ := classify w; Literal := w |} = w.
Proof. apply token_bytes_literal, classify_not_ILLEGAL. Qed.

(** ** Bytes that are neither whitespace nor zero *)

Lemma not_NUL_true c : c ≠ NUL → not_NUL c = true.
Proof. intros H. unfold not_NUL. by destruct (Ascii.eqb_spec c NUL). Qed.

Lemma whitespace_not_NUL c : isWhitespace c = true → not_NUL c = true.
Proof. intros H. apply not_NUL_true. intros ->. by rewrite isWhitespace_NUL in H. Qed.

(** What a run of bytes of a class contributes: itself. *)
Lemma before_NUL_filter_run p w r :
  (∀ c, p c = true → isWhitespace c = false) → p NUL = false →
  str_forallb p w = true →
  str_filter not_whitespace (before_NUL (w +:+ r)) =
    w +:+ str_filter not_whitespace (before_NUL r).
Proof.
  intros Hws Hnul Hw. unfold before_NUL. rewrite str_take_while_app.
  - rewrite str_filter_app, str_filter_all; [done |].
    apply (str_forallb_impl p); [| done].
    intros c Hc. unfold not_whitespace. by rewrite Hws.
  - apply (str_forallb_impl p); [| done].
    intros c Hc. apply not_NUL_true. intros ->. congruence.
Qed.

(** The same for one byte. *)
Lemma before_NUL_filter_byte c r :
  isWhitespace c = false → c ≠ NUL →
  str_filter not_whitespace (before_NUL (String c r)) =
    String c (str_filter not_whitespace (before_NUL r)).
Proof.
  intros Hws Hnul. unfold before_NUL. simpl.
  rewrite not_NUL_true by done. simpl. unfold not_whitespace at 1.
  by rewrite Hws.
Qed.

Lemma before_NUL_filter_whitespace c r :
  isWhitespace c = true →
  str_filter not_whitespace (before_NUL (String c r)) =
    str_filter not_whitespace (before_NUL r).
Proof.
  intros Hws. unfold before_NUL. simpl.
  rewrite whitespace_not_NUL by done. simpl. unfold not_whitespace at 1.
  by rewrite Hws.
Qed.

(** ** One token *)

(** A token other than [EOF] stands for the first bytes of the input that
    are not whitespace. *)
Lemma next_token_bytes r tok (r' : string) :
  next_token r tok r' → Type_ tok ≠ EOF →
  str_filter not_whitespace (before_NUL r) =
    token_bytes tok +:+ str_filter not_whitespace (before_NUL r').
Proof.
  induction 1 as [c r tok r' Hc _ IH | | r | c t r Hp
    | w r Hne Hw Hr | w r Hne Hw Hr | c r Hc Hn]; intros Heof; try done.
  - rewrite before_NUL_filter_whitespace by done. by apply IH.
  - rewrite token_bytes_punctuation by done.
    apply punctuation_type_Some in Hp as [Hp _].
    apply before_NUL_filter_byte; [by apply isPunctuation_not_whitespace |].
    intros ->. by rewrite isPunctuation_NUL in Hp.
  - rewrite token_bytes_word.
    by apply (before_NUL_filter_run isLetter);
      [apply isLetter_not_whitespace | apply isLetter_NUL |].
  - rewrite token_bytes_literal by done.
    by apply (before_NUL_filter_run isDigit);
      [apply isDigit_not_whitespace | apply isDigit_NUL |].
  - rewrite token_bytes_illegal. apply class_count_0 in Hc as (Hws & _).
    by apply before_NUL_filter_byte.
Qed.

(** When the token is [EOF], only whitespace comes before the first zero
    byte. *)
Lemma next_token_eof_bytes r tok (r' : string) :
  next_token r tok r' → Type_ tok = EOF →
  str_filter not_whitespace (before_NUL r) = "".
Proof.
  induction 1 as [c r tok r' Hc _ IH | | r | c t r Hp
    | w r Hne Hw Hr | w r Hne Hw Hr | c r Hc Hn]; simpl; intros Heof;
    try done.
  - rewrite before_NUL_filter_whitespace by done. by apply IH.
  - apply punctuation_type_Some in Hp as [_ Hp]. by rewrite Heof in Hp.
  - by destruct (classify_not_EOF w).
Qed.

(** ** All the tokens *)

Lemma tokens_bytes r toks :
  tokens r toks →
  str_concat (token_bytes <$> toks) = str_filter not_whitespace (before_NUL r).
Proof.
  induction 1 as [r r' Hr | r tok r' toks Hr Hne _ IH].
  - symmetry. by apply (next_token_eof_bytes r eof_token r').
  - rewrite fmap_cons. cbn [str_concat]. rewrite IH. symmetry.
    by apply next_token_bytes.
Qed.

Lemma scan_all_bytes r :
  str_concat (token_bytes <$> scan_all r) =
    str_filter not_whitespace (before_NUL r).
Proof. apply tokens_bytes, scan_all_tokens. Qed.

(** ** The width of a token and of a pass *)

Lemma before_NUL_byte c r :
  c ≠ NUL → before_NUL (String c r) = String c (before_NUL r).
Proof. intros Hc. unfold before_NUL. simpl. by rewrite not_NUL_true. Qed.

Lemma before_NUL_run p w r :
  p NUL = false → str_forallb p w = true →
  before_NUL (w +:+ r) = w +:+ before_NUL r.
Proof.
  intros Hnul Hw. apply str_take_while_app, (str_forallb_impl p); [| done].
  intros c Hc. apply not_NUL_true. intros ->. congruence.
Qed.

Lemma scan_whitespace_byte c r :
  isWhitespace c = true → snd (scan (String c r)) = 1 + snd (scan r).
Proof.
  intros Hc. rewrite (scan_whitespace (String c "") r); [done |].
  simpl. by rewrite Hc.
Qed.

(** A token other than [EOF] takes bytes that come before the first zero
    byte. *)
Lemma next_token_width r tok (r' : string) :
  next_token r tok r' → Type_ tok ≠ EOF →
  len (before_NUL r) = snd (scan r) + len (before_NUL r').
Proof.
  induction 1 as [c r tok r' Hc _ IH | | r | c t r Hp
    | w r Hne Hw Hr | w r Hne Hw Hr | c r Hc Hn]; intros Heof; try done.
  - rewrite before_NUL_byte, scan_whitespace_byte, len_cons, IH by
      (done || by intros ->). lia.
  - rewrite (scan_punctuation c t r Hp). simpl snd.
    apply punctuation_type_Some in Hp as [Hp _].
    rewrite before_NUL_byte, len_cons; [lia |].
    intros ->. by rewrite isPunctuation_NUL in Hp.
  - rewrite (before_NUL_run isLetter), scan_word, len_app by done. done.
  - rewrite (before_NUL_run isDigit), scan_int, len_app by done. done.
  - rewrite scan_illegal, before_NUL_byte, len_cons by done. simpl. lia.
Qed.

(** [EOF] takes the whitespace before the end or the first zero byte, and
    one position. *)
Lemma next_token_eof_width r tok (r' : string) :
  next_token r tok r' → Type_ tok = EOF →
  snd (scan r) = len (before_NUL r) + 1.
Proof.
  induction 1 as [c r tok r' Hc _ IH | | r | c t r Hp
    | w r Hne Hw Hr | w r Hne Hw Hr | c r Hc Hn]; simpl; intros Heof;
    try done.
  - rewrite before_NUL_byte, scan_whitespace_byte, len_cons, IH by
      (done || by intros ->). lia.
  - apply punctuation_type_Some in Hp as [_ Hp]. by rewrite Heof in Hp.
  - by destruct (classify_not_EOF w).
Qed.

Lemma pass_width_eq r :
  pass_width r =
    snd (scan r) +
    if decide (Type_ (fst (scan r)) = EOF) then 0
    else pass_width (str_drop (Z.to_nat (snd (scan r))) r).
Proof.
  unfold pass_width. rewrite (scan_all_eq r), scan_n_S. cbn [snd].
  by destruct (decide _).
Qed.

(** A pass moves the cursor to the end of the input or to its first zero
    byte, and one position further. *)
Lemma pass_width_before_NUL r : pass_width r = len (before_NUL r) + 1.
Proof.
  induction r as [r Heof | r Hne IH] using scan_all_ind;
    rewrite pass_width_eq; pose proof (scan_next_token r) as Hr.
  - rewrite decide_True, Z.add_0_r by done.
    by apply (next_token_eof_width r _ _ Hr).
  - rewrite decide_False, IH by done.
    rewrite (next_token_width r _ _ Hr Hne). unfold after_scan. lia.
Qed.

Lemma before_NUL_bound r : len (before_NUL r) ≤ len r.
Proof.
  unfold len, before_NUL. pose proof (str_length_take_while not_NUL r). lia.
Qed.

End bytes.
