(* ===== verification/ScanLayout.v ===== *)
(** * Tokens and layout

    A layout is a list of tokens, each with the whitespace that comes before
    it, and the whitespace at the end.  [render] writes a layout as a string.
    A layout is well formed ([layout_ok]) when its tokens are printable and
    no lexeme is followed by a byte that would be read as part of it
    ([joins]).

    The file proves that the tokens of a rendered layout are the tokens of
    the layout, whatever the whitespace, and that every ASCII input without
    zero bytes is the rendering of a well-formed layout of its tokens: the
    tokens are what is left of an input when its layout is forgotten. *)

From Stdlib Require Import ZArith Ascii String List Lia.
From stdpp Require Import base tactics option list strings.
From S2P Require Import Prelude StrSeq GoRuntime Chars Token Scan ScanSeq ScanAll.
From S2P Require Import ScanRel.

#[local] Open Scope Z_scope.

(** [joins tok c]: the byte [c], right after the lexeme of [tok], would be
    read as part of the lexeme: a letter after a word, a digit after a
    number. *)
Definition joins (tok : Token) (c : ascii) : bool :=
  (isLetter c && str_forallb isLetter (Literal tok))
  || (isDigit c && str_forallb isDigit (Literal tok)).

(** The text of a layout. *)
Fixpoint render (l : list (string * Token)) (tail : string) : string :=
  match l with
  | [] => tail
  | (w, tok) :: l' => w +:+ (Literal tok +:+ render l' tail)
  end.

Section layout.
Context {classifier : Classifier}.
Implicit Types (r w tail : string) (c : ascii) (tok : Token)
  (toks : list Token) (l : list (string * Token)).

(** Well-formed layouts. *)
Fixpoint layout_ok l tail : Prop :=
  match l with
  | [] => str_forallb isWhitespace tail = true
  | (w, tok) :: l' =>
      str_forallb isWhitespace w = true ∧ printable tok ∧
      joins tok (str_head NUL (render l' tail)) = false ∧
      layout_ok l' tail
  end.

(** ** [joins] *)

Lemma joins_byte tok c d :
  Literal tok = String d "" → isLetter d = false → isDigit d = false →
  joins tok c = false.
Proof.
  intros Hl Hd1 Hd2. unfold joins. rewrite Hl. simpl.
  by rewrite Hd1, Hd2, !andb_false_r.
Qed.

(** A non-empty run of letters is not a run of digits, nor the converse. *)
Lemma letters_not_digits w :
  w ≠ "" → str_forallb isLetter w = true → str_forallb isDigit w = false.
Proof.
  destruct w as [|c w]; [done |]. simpl. intros _ [Hc _]%andb_prop.
  by rewrite (isLetter_not_digit c).
Qed.

Lemma digits_not_letters w :
  w ≠ "" → str_forallb isDigit w = true → str_forallb isLetter w = false.
Proof.
  destruct w as [|c w]; [done |]. simpl. intros _ [Hc _]%andb_prop.
  by rewrite (isDigit_not_letter c).
Qed.

Lemma joins_word w c t :
  w ≠ "" → str_forallb isLetter w = true →
  joins {| Type_ := t; Literal := w |} c = isLetter c.
Proof.
  intros Hne Hw. unfold joins. simpl.
  by rewrite Hw, letters_not_digits, andb_true_r, andb_false_r, orb_false_r.
Qed.

Lemma joins_int w c t :
  w ≠ "" → str_forallb isDigit w = true →
  joins {| Type_ := t; Literal := w |} c = isDigit c.
Proof.
  intros Hne Hw. unfold joins. simpl.
  by rewrite Hw, digits_not_letters, andb_true_r, andb_false_r.
Qed.

(** ** From a layout to its tokens *)

(** A printable token is read back as it is when the byte after it does not
    join it. *)
Lemma scan_joins tok r :
  printable tok → joins tok (str_head NUL r) = false →
  scan (Literal tok +:+ r) = (tok, len (Literal tok)).
Proof.
  intros (Hs & Hne & Ha).
  destruct Hs as [| c t Hc | w Hw Hf | w Hw Hf | c Hp Hn Hcl Hcd Hcw]; simpl in *.
  - done.
  - intros _. str_simpl. by apply scan_punctuation.
  - rewrite joins_word by done. by apply scan_word.
  - rewrite joins_int by done. by apply scan_int.
  - intros _. apply string_of_byte_ascii_inv in Ha.
    replace (string_of_byte c +:+ r) with (String c r)
      by (by rewrite string_of_byte_ascii).
    replace (len (string_of_byte c)) with 1
      by (by rewrite string_of_byte_ascii).
    apply scan_illegal; [by apply class_count_0 | done].
Qed.

Lemma scan_all_whitespace_only tail :
  str_forallb isWhitespace tail = true → scan_all tail = [].
Proof.
  intros Hw. rewrite <- (str_app_nil_r tail), scan_all_whitespace by done.
  apply scan_all_nil.
Qed.

(** The tokens of a rendered layout are the tokens of the layout. *)
Lemma scan_all_render l tail :
  layout_ok l tail → scan_all (render l tail) = l.*2.
Proof.
  induction l as [|[w tok] l IH]; simpl.
  - apply scan_all_whitespace_only.
  - intros (Hw & Hp & Hj & Hl). rewrite scan_all_whitespace by done.
    rewrite (scan_all_cons _ tok (len (Literal tok)));
      [| by apply scan_joins | by destruct Hp as (_ & ? & _)].
    by rewrite to_nat_len, str_drop_app_length, IH.
Qed.

(** ** From an input to its layout *)

Lemma layout_here tok r :
  printable tok → joins tok (str_head NUL r) = false →
  ∃ w, Literal tok +:+ r = w +:+ (Literal tok +:+ r) ∧
       str_forallb isWhitespace w = true ∧ printable tok ∧
       joins tok (str_head NUL r) = false.
Proof. intros Hp Hj. by exists "". Qed.

(** The first token of an ASCII input with the whitespace before it: the
    input is the whitespace, the literal and what is left, and the byte
    after the literal does not join it. *)
Lemma next_token_layout r tok (r' : string) :
  next_token r tok r' → Type_ tok ≠ EOF → str_forallb is_ascii r = true →
  ∃ w, r = w +:+ (Literal tok +:+ r') ∧
       str_forallb isWhitespace w = true ∧ printable tok ∧
       joins tok (str_head NUL r') = false.
Proof.
  induction 1 as [c r tok r' Hc _ IH | | r | c t r Hp
    | w r Hne Hw Hr | w r Hne Hw Hr | c r Hc Hn]; intros Heof Ha; try done.
  - simpl in Ha. apply andb_prop in Ha as [_ Ha].
    destruct (IH Heof Ha) as (w & -> & Hw & Hp & Hj).
    exists (String c w). simpl. by rewrite Hc.
  - simpl in Ha. apply andb_prop in Ha as [Hca _].
    pose proof (punctuation_type_Some _ _ Hp) as [Hpc _].
    change (String c r) with (String c "" +:+ r).
    apply (layout_here {| Type_ := t; Literal := String c "" |}).
    + split; [by constructor |]. split; [done |]. simpl. by rewrite Hca.
    + apply (joins_byte _ _ c); [done | |].
      * by apply isPunctuation_not_letter.
      * by apply isPunctuation_not_digit.
  - rewrite str_forallb_app in Ha. apply andb_prop in Ha as [Hwa _].
    apply (layout_here {| Type_ := classify w; Literal := w |});
      [| by rewrite joins_word].
    split; [by constructor |]. split; [apply classify_not_EOF | done].
  - rewrite str_forallb_app in Ha. apply andb_prop in Ha as [Hwa _].
    apply (layout_here {| Type_ := INT; Literal := w |});
      [| by rewrite joins_int].
    split; [by constructor | done].
  - simpl in Ha. apply andb_prop in Ha as [Hca _].
    apply class_count_0 in Hc as (Hcw & Hcp & Hcl & Hcd).
    replace (String c r) with (string_of_byte c +:+ r)
      by (by rewrite string_of_byte_ascii).
    apply (layout_here {| Type_ := ILLEGAL; Literal := string_of_byte c |}).
    + split; [by constructor |]. split; [done |].
      rewrite string_of_byte_ascii by done. simpl. by rewrite Hca.
    + apply (joins_byte _ _ c); [by apply string_of_byte_ascii | done..].
Qed.

(** Every ASCII input without zero bytes is the rendering of a well-formed
    layout of its tokens. *)
Lemma tokens_layout r toks :
  tokens r toks →
  str_forallb is_ascii r = true → str_forallb not_NUL r = true →
  ∃ l tail, r = render l tail ∧ l.*2 = toks ∧ layout_ok l tail.
Proof.
  induction 1 as [r r' Hr | r tok r' toks Hr Hne _ IH]; intros Ha Hn.
  - exists [], r. repeat split. simpl.
    apply next_token_scan in Hr as [Hr _].
    apply (scan_eof_whitespace r Hn). by rewrite Hr.
  - destruct (next_token_layout _ _ _ Hr Hne Ha) as (w & -> & Hw & Hp & Hj).
    rewrite !str_forallb_app in Ha, Hn.
    apply andb_prop in Ha as [_ [_ Ha]%andb_prop].
    apply andb_prop in Hn as [_ [_ Hn]%andb_prop].
    destruct (IH Ha Hn) as (l & tail & -> & <- & Hl).
    by exists ((w, tok) :: l), tail.
Qed.

(** The tokens of an input are [toks] exactly when the input is a
    well-formed layout of [toks]. *)
Lemma scan_all_layout r toks :
  str_forallb is_ascii r = true → str_forallb not_NUL r = true →
  scan_all r = toks ↔
  ∃ l tail, r = render l tail ∧ l.*2 = toks ∧ layout_ok l tail.
Proof.
  intros Ha Hn. split.
  - intros <-. by apply tokens_layout; [apply scan_all_tokens | |].
  - intros (l & tail & -> & <- & Hl). by apply scan_all_render.
Qed.

End layout.
