(* ===== verification/LexerInv.v ===== *)
(** * The lexer's invariant and the effect of its operations

    [lexer_at s pos] is the struct of a lexer on input [s] whose cursor is at
    [pos]: the states that satisfy the invariant [lexer_inv] are exactly
    these.  The file proves what [readChar], the loops and the two scanning
    methods do to such a state, and that no loop runs out of fuel on any
    state. *)

From Stdlib Require Import ZArith Ascii String Lia.
From stdpp Require Import base tactics strings.
From S2P Require Import Prelude GoRuntime Chars Token Lexer.

Local Open Scope Z_scope.

(** The lexer on [s] with its cursor at [pos]. *)
Definition lexer_at (s : string) (pos : Z) : Lexer :=
  {| input := s;
     currentPosition := pos;
     nextCharPosition := pos + 1;
     currentChar := byte_at s pos |}.

(** The input from position [pos] on. *)
Definition rest_at (s : string) (pos : Z) : string :=
  str_drop (Z.to_nat pos) s.

(** The input that is left to scan: from the cursor on. *)
Definition rest (lexer : Lexer) : string :=
  rest_at (input lexer) (currentPosition lexer).

Section inv.
Context {sz : IntSize} {classifier : Classifier}.
Implicit Types (lexer l : Lexer) (s w : string) (pos : Z) (c : ascii)
  (cond : ascii → bool) (fuel : nat).

(** The representation invariant: the cursor is not negative,
    [nextCharPosition] is one past it and has not overflowed, and
    [currentChar] is the byte under the cursor, [NUL] past the end.  The
    input leaves room for the two positions past its end that the first
    [EOF] token makes the lexer reach. *)
Definition lexer_inv lexer : Prop :=
  len (input lexer) + 1 < max_int ∧
  0 ≤ currentPosition lexer ∧
  nextCharPosition lexer = currentPosition lexer + 1 ∧
  nextCharPosition lexer ≤ max_int ∧
  currentChar lexer = byte_at (input lexer) (currentPosition lexer).

#[export] Instance lexer_inv_dec lexer : Decision (lexer_inv lexer).
Proof. unfold lexer_inv. apply _. Defined.

(** ** States with the invariant *)

Lemma lexer_inv_at lexer :
  lexer_inv lexer → lexer = lexer_at (input lexer) (currentPosition lexer).
Proof.
  intros (_ & _ & Hn & _ & Hc). destruct lexer; simpl in *.
  unfold lexer_at. simpl. by rewrite Hn, Hc.
Qed.

Lemma lexer_at_inv s pos :
  len s + 1 < max_int → 0 ≤ pos < max_int → lexer_inv (lexer_at s pos).
Proof. unfold lexer_inv. simpl. intros. repeat split; lia. Qed.

Lemma lexer_inv_iff lexer :
  lexer_inv lexer ↔
  lexer = lexer_at (input lexer) (currentPosition lexer) ∧
  len (input lexer) + 1 < max_int ∧ 0 ≤ currentPosition lexer < max_int.
Proof.
  split.
  - intros H. split; [by apply lexer_inv_at |].
    destruct H as (? & ? & ? & ? & ?). lia.
  - intros (-> & ? & ?). by apply lexer_at_inv.
Qed.

(** To prove a property of every lexer with the invariant, prove it of the
    canonical states. *)
Lemma lexer_inv_canonical (P : Lexer → Prop) lexer :
  lexer_inv lexer →
  (∀ s pos, len s + 1 < max_int → 0 ≤ pos < max_int → P (lexer_at s pos)) →
  P lexer.
Proof.
  intros Hinv HP. apply lexer_inv_iff in Hinv as (-> & ? & ?). by apply HP.
Qed.

(** ** The remaining input *)

Lemma rest_at_0 s : rest_at s 0 = s.
Proof. apply str_drop_0. Qed.

Lemma rest_at_ge s pos : len s ≤ pos → rest_at s pos = "".
Proof. unfold rest_at, len. intros. apply str_drop_ge. lia. Qed.

Lemma rest_at_succ s pos :
  0 ≤ pos → rest_at s (pos + 1) = str_tail (rest_at s pos).
Proof.
  intros. unfold rest_at. rewrite Z2Nat.inj_add by lia.
  rewrite Nat.add_1_r. apply str_drop_S.
Qed.

Lemma rest_at_add s pos n :
  0 ≤ pos → rest_at s (pos + Z.of_nat n) = str_drop n (rest_at s pos).
Proof.
  intros. unfold rest_at. rewrite str_drop_drop. f_equal. lia.
Qed.

Lemma len_rest_at s pos :
  0 ≤ pos ≤ len s → len (rest_at s pos) = len s - pos.
Proof. unfold rest_at, len. rewrite str_length_drop. lia. Qed.

Lemma rest_at_nonempty s pos c w :
  0 ≤ pos → rest_at s pos = String c w → pos < len s.
Proof.
  intros ? E. destruct (decide (pos < len s)); [done |].
  rewrite rest_at_ge in E by lia. done.
Qed.

Lemma byte_at_rest s pos :
  0 ≤ pos → byte_at s pos = str_head NUL (rest_at s pos).
Proof. apply byte_at_head. Qed.

Lemma rest_lexer_at s pos : rest (lexer_at s pos) = rest_at s pos.
Proof. done. Qed.

(** ** [readChar] and [New] *)

(** On a state with the invariant [readChar] moves the cursor one position
    forward, as long as [nextCharPosition] can still be incremented. *)
Lemma readChar_at s pos :
  0 ≤ pos → pos + 1 < max_int →
  readChar (lexer_at s pos) = Ok (lexer_at s (pos + 1)).
Proof.
  intros. unfold readChar, lexer_at. simpl.
  rewrite int_add_1 by lia. case_decide.
  - simpl. by rewrite byte_at_ge by lia.
  - by rewrite index_in_range by lia.
Qed.

Lemma New_at s : New s = Ok (lexer_at s 0).
Proof.
  unfold New, readChar, lexer_at. simpl.
  pose proof max_int_ge. rewrite int_add_1 by lia. case_decide.
  - simpl. by rewrite byte_at_ge by lia.
  - pose proof (len_nonneg s). by rewrite index_in_range by lia.
Qed.

(** ** The loops *)

Lemma readWhile_unfold cond fuel lexer :
  readWhile cond fuel lexer =
    if cond (currentChar lexer) then
      match fuel with
      | O => Panic OutOfFuel
      | S fuel => readChar lexer ≫= readWhile cond fuel
      end
    else Ok lexer.
Proof. by destruct fuel. Qed.

Lemma readWhile_stop cond fuel lexer :
  cond (currentChar lexer) = false → readWhile cond fuel lexer = Ok lexer.
Proof. intros E. by rewrite readWhile_unfold, E. Qed.

(** A loop started on a state with the invariant stops at the first byte
    that fails the test, [NUL] at the latest: the cursor has moved past the
    longest prefix of the remaining input that passes it. *)
Lemma readWhile_at cond fuel s pos :
  cond NUL = false → len s + 1 < max_int → 0 ≤ pos →
  (String.length (rest_at s pos) ≤ fuel)%nat →
  readWhile cond fuel (lexer_at s pos) =
    Ok (lexer_at s (pos + len (str_take_while cond (rest_at s pos)))).
Proof.
  intros Hnul Hlen. remember (rest_at s pos) as r eqn:Hr.
  revert pos fuel Hr. induction r as [|c r IH]; intros pos fuel Hr Hpos Hfuel.
  - rewrite readWhile_stop; [by rewrite Z.add_0_r |].
    simpl. by rewrite byte_at_rest, <- Hr.
  - rewrite readWhile_unfold. simpl currentChar.
    rewrite byte_at_rest, <- Hr by done. simpl str_head. simpl str_take_while.
    destruct (cond c); [| by rewrite Z.add_0_r].
    destruct fuel as [|fuel]; [simpl in Hfuel; lia |].
    pose proof (rest_at_nonempty s pos c r Hpos (eq_sym Hr)).
    rewrite readChar_at by lia. simpl.
    rewrite IH; simpl in Hfuel; [| | lia | lia].
    + f_equal. f_equal. rewrite len_cons. lia.
    + by rewrite rest_at_succ, <- Hr.
Qed.

(** The loops do not change the input. *)
Lemma readChar_input lexer l' : readChar lexer = Ok l' → input l' = input lexer.
Proof.
  unfold readChar. intros (ch & _ & [= <-])%result_bind_Ok. done.
Qed.

Lemma readWhile_input cond fuel lexer l' :
  readWhile cond fuel lexer = Ok l' → input l' = input lexer.
Proof.
  revert lexer. induction fuel as [|fuel IH]; intros lexer;
    rewrite readWhile_unfold; case_bool; try by intros [= <-].
  intros (l1 & H1 & H2)%result_bind_Ok.
  rewrite (IH _ H2). by apply readChar_input.
Qed.

(** *** Fuel

    Whatever the fields of the struct hold, a loop whose test fails on [NUL]
    ends within [loop_fuel] iterations: on a character, on the end of the
    input, or on a panic of [readChar]. *)
Lemma readWhile_enough_fuel cond fuel lexer :
  cond NUL = false → len (input lexer) ≤ max_int →
  (Z.to_nat (len (input lexer) - nextCharPosition lexer) < fuel)%nat →
  readWhile cond fuel lexer ≠ Panic OutOfFuel.
Proof.
  intros Hnul. revert lexer.
  induction fuel as [|fuel IH]; intros lexer Hlen Hfuel; [lia |].
  rewrite readWhile_unfold. case_bool; [| done].
  unfold readChar. case_decide as Hend.
  - simpl. by rewrite readWhile_stop.
  - destruct (decide (0 ≤ nextCharPosition lexer)) as [Hpos|Hneg].
    + rewrite index_in_range by lia. simpl. apply IH; simpl; [done |].
      rewrite int_add_1 by lia. lia.
    + by rewrite index_out_of_range by lia.
Qed.

Lemma readWhile_fuel cond lexer :
  cond NUL = false → len (input lexer) ≤ max_int →
  readWhile cond (loop_fuel lexer) lexer ≠ Panic OutOfFuel.
Proof. intros. apply readWhile_enough_fuel; unfold loop_fuel; [done..| lia]. Qed.

(** [loop_fuel] is enough on a state with the invariant. *)
Lemma loop_fuel_at s pos :
  0 ≤ pos →
  (String.length (rest_at s pos) ≤ loop_fuel (lexer_at s pos))%nat.
Proof.
  intros. unfold loop_fuel, rest_at, len. simpl.
  rewrite str_length_drop. lia.
Qed.

(** The panics are those of the index and slice expressions. *)
Lemma index_panic s i p : index s i = Panic p → p = IndexOutOfRange.
Proof. unfold index. repeat case_match; congruence. Qed.

Lemma slice_panic s lo hi p : slice s lo hi = Panic p → p = SliceBoundsOutOfRange.
Proof. unfold slice. case_decide; congruence. Qed.

Lemma readChar_panic lexer p : readChar lexer = Panic p → p = IndexOutOfRange.
Proof.
  unfold readChar. case_decide; [done |].
  destruct (index _ _) eqn:E; [done |]. intros [= <-]. by eapply index_panic.
Qed.

Lemma advance_fuel lexer (tok : Token) :
  (lexer ← readChar lexer; Ok (tok, lexer)) ≠ Panic OutOfFuel.
Proof.
  destruct (readChar lexer) eqn:E; [done |]. simpl.
  by rewrite (readChar_panic _ _ E).
Qed.

Lemma readIdentifier_fuel lexer :
  len (input lexer) ≤ max_int → readIdentifier lexer ≠ Panic OutOfFuel.
Proof.
  intros Hlen. unfold readIdentifier.
  pose proof (readWhile_fuel isLetter lexer isLetter_NUL Hlen) as Hf.
  destruct (readWhile _ _ _) eqn:E; simpl; [| congruence].
  destruct (slice _ _ _) eqn:Es; [done |]. simpl.
  by rewrite (slice_panic _ _ _ _ Es).
Qed.

Lemma readDigit_fuel lexer :
  len (input lexer) ≤ max_int → readDigit lexer ≠ Panic OutOfFuel.
Proof.
  intros Hlen. unfold readDigit.
  pose proof (readWhile_fuel isDigit lexer isDigit_NUL Hlen) as Hf.
  destruct (readWhile _ _ _) eqn:E; simpl; [| congruence].
  destruct (slice _ _ _) eqn:Es; [done |]. simpl.
  by rewrite (slice_panic _ _ _ _ Es).
Qed.

End inv.

(** The invariant of a concrete lexer, by evaluation. *)
Ltac solve_lexer_inv :=
  apply lexer_at_inv; [by vm_compute | split; by vm_compute].
