(* ===== verification/Refinement.v ===== *)
(** * [NextToken] computes [scan]

    The effect of [skipWhitespace], [readIdentifier] and [readDigit] on a
    state with the invariant, and the refinement theorem: a call of
    [NextToken] on the lexer at position [pos] of [s] returns the token
    [scan] finds at the head of the remaining input and leaves the lexer the
    number of bytes further that [scan] counts.  The properties of the lexer
    (no panic, invariant, progress, shape of the tokens) follow from it and
    from the lemmas on [scan]. *)

From Stdlib Require Import ZArith Ascii String Lia.
From stdpp Require Import base tactics strings.
From S2P Require Import Prelude GoRuntime Chars Token Lexer Scan LexerInv.

Local Open Scope Z_scope.

Section refinement.
Context {sz : IntSize} {classifier : Classifier}.
Implicit Types (lexer l : Lexer) (s w r : string) (pos : Z) (c : ascii)
  (cond : ascii → bool) (tok : Token).

(** ** The scanning methods *)

(** The cursor never moves past the end of the input inside a loop. *)
Lemma take_while_rest_bound cond s pos :
  0 ≤ pos →
  pos + len (str_take_while cond (rest_at s pos)) ≤ Z.max pos (len s).
Proof.
  intros. pose proof (str_length_take_while cond (rest_at s pos)) as Hle.
  unfold rest_at in Hle at 2. rewrite str_length_drop in Hle.
  unfold len. lia.
Qed.

Lemma rest_at_take_while cond s pos :
  0 ≤ pos →
  rest_at s (pos + len (str_take_while cond (rest_at s pos))) =
    str_drop_while cond (rest_at s pos).
Proof.
  intros. unfold len. rewrite rest_at_add by done. apply str_drop_take_while.
Qed.

Lemma skipWhitespace_at s pos :
  len s + 1 < max_int → 0 ≤ pos →
  skipWhitespace (lexer_at s pos) =
    Ok (lexer_at s (pos + len (str_take_while isWhitespace (rest_at s pos)))).
Proof.
  intros. unfold skipWhitespace.
  apply readWhile_at; auto using loop_fuel_at with lexer.
Qed.

(** A loop followed by the slice from where it started to where it stopped:
    the common body of [readIdentifier] and [readDigit]. *)
Lemma read_slice_at cond s pos :
  cond NUL = false → len s + 1 < max_int → 0 ≤ pos ≤ len s →
  let w := str_take_while cond (rest_at s pos) in
  (lexer ← readWhile cond (loop_fuel (lexer_at s pos)) (lexer_at s pos);
   identifier ← slice (input lexer) pos (currentPosition lexer);
   Ok (identifier, lexer)) = Ok (w, lexer_at s (pos + len w)).
Proof.
  intros Hnul Hlen Hpos w.
  rewrite readWhile_at by (try apply loop_fuel_at; auto; lia). simpl.
  fold w. pose proof (take_while_rest_bound cond s pos ltac:(lia)) as Hw.
  fold w in Hw. pose proof (len_nonneg w).
  rewrite slice_in_range by lia. simpl. do 2 f_equal.
  replace (Z.to_nat (pos + len w - pos)) with (String.length w)
    by (unfold len; lia).
  apply str_take_take_while.
Qed.

Lemma readIdentifier_at s pos :
  len s + 1 < max_int → 0 ≤ pos ≤ len s →
  let w := str_take_while isLetter (rest_at s pos) in
  readIdentifier (lexer_at s pos) = Ok (w, lexer_at s (pos + len w)).
Proof. intros. by apply read_slice_at. Qed.

Lemma readDigit_at s pos :
  len s + 1 < max_int → 0 ≤ pos ≤ len s →
  let w := str_take_while isDigit (rest_at s pos) in
  readDigit (lexer_at s pos) = Ok (w, lexer_at s (pos + len w)).
Proof. intros. by apply read_slice_at. Qed.

(** The slice of the input that holds a given part of the remaining input. *)
Lemma slice_rest_at s pos w1 w2 post :
  0 ≤ pos ≤ len s → rest_at s pos = w1 +:+ w2 +:+ post →
  slice s (pos + len w1) (pos + len w1 + len w2) = Ok w2.
Proof.
  intros Hpos Hr. pose proof (len_nonneg w1). pose proof (len_nonneg w2).
  assert (pos + len w1 + len w2 ≤ len s).
  { apply (f_equal len) in Hr. rewrite !len_app in Hr.
    pose proof (len_nonneg post). unfold rest_at, len in *.
    rewrite str_length_drop in Hr. lia. }
  rewrite slice_in_range by lia. f_equal.
  replace (Z.to_nat (pos + len w1)) with (Z.to_nat pos + String.length w1)%nat
    by (unfold len; lia).
  rewrite <- str_drop_drop. fold (rest_at s pos).
  rewrite Hr, str_drop_app_length.
  replace (Z.to_nat _) with (String.length w2) by (unfold len; lia).
  apply str_take_app_length.
Qed.

(** ** The refinement theorem *)

(** A byte that is not [NUL] is a byte of the input. *)
Lemma byte_at_not_NUL s pos :
  0 ≤ pos → byte_at s pos ≠ NUL → pos < len s.
Proof.
  intros Hpos Hc. destruct (decide (pos < len s)); [done |].
  by rewrite byte_at_ge in Hc by lia.
Qed.

(** The [switch] of [NextToken] on a one-byte token: [readChar] moves the
    cursor past it. *)
Lemma advance_at s pos tok :
  0 ≤ pos → pos + 1 < max_int →
  (lexer ← readChar (lexer_at s pos); Ok (tok, lexer)) =
    Ok (tok, lexer_at s (pos + 1)).
Proof. intros. by rewrite readChar_at. Qed.

(** What [NextToken] does once the whitespace is skipped. *)
Lemma NextToken_at_token s pos :
  len s + 1 < max_int → 0 ≤ pos → pos + 1 < max_int →
  isWhitespace (byte_at s pos) = false →
  NextToken (lexer_at s pos) =
    Ok (fst (scan_token (rest_at s pos)),
        lexer_at s (pos + snd (scan_token (rest_at s pos)))).
Proof.
  intros Hlen Hpos Hmax Hws. unfold NextToken, skipWhitespace.
  rewrite readWhile_stop by done. simpl.
  unfold scan_token, punctuation_type, newToken.
  rewrite <- byte_at_rest by done.
  pose proof (byte_at_not_NUL s pos Hpos) as Hin.
  set (c := byte_at s pos) in *.
  repeat match goal with
  | |- context [Ascii.eqb c ?d] =>
      destruct (Ascii.eqb_spec c d) as [->|?]; [by rewrite advance_at |]
  end.
  specialize (Hin ltac:(done)).
  destruct (isLetter c); [by rewrite readIdentifier_at by lia |].
  destruct (isDigit c); [by rewrite readDigit_at by lia |].
  by rewrite advance_at.
Qed.

(** *** [NextToken] refines [scan] *)
Theorem NextToken_scan s pos :
  len s + 1 < max_int → 0 ≤ pos → pos + 1 < max_int →
  NextToken (lexer_at s pos) =
    Ok (fst (scan (rest_at s pos)),
        lexer_at s (pos + snd (scan (rest_at s pos)))).
Proof.
  intros Hlen Hpos Hmax.
  pose proof (take_while_rest_bound isWhitespace s pos Hpos) as Hbound.
  pose proof (rest_at_take_while isWhitespace s pos Hpos) as Hrest.
  set (ws := str_take_while isWhitespace (rest_at s pos)) in *.
  pose proof (len_nonneg ws).
  assert (NextToken (lexer_at s pos) = NextToken (lexer_at s (pos + len ws)))
    as ->.
  { unfold NextToken.
    rewrite (skipWhitespace_at s pos), (skipWhitespace_at s (pos + len ws))
      by lia.
    fold ws. rewrite Hrest, (str_take_while_head_false _ _ NUL), len_nil,
      Z.add_0_r; [done | by apply str_head_drop_while | done]. }
  rewrite NextToken_at_token; [| lia..|].
  - unfold scan. fold ws. rewrite Hrest.
    destruct (scan_token _) as [tok n]. simpl. do 3 f_equal. lia.
  - rewrite byte_at_rest, Hrest by lia. by apply str_head_drop_while.
Qed.

(** The same for any state with the invariant. *)
Lemma NextToken_inv_scan lexer :
  lexer_inv lexer → nextCharPosition lexer < max_int →
  NextToken lexer =
    Ok (fst (scan (rest lexer)),
        lexer_at (input lexer)
          (currentPosition lexer + snd (scan (rest lexer)))).
Proof.
  intros (Hlen & Hpos & Hn & Hmax & Hc) Hnext.
  destruct lexer as [s pos nx ch]. simpl in *. subst nx ch.
  apply (NextToken_scan s pos); lia.
Qed.

(** The cursor after the call is within [max_int]: within the input or one
    past its end if it was, one further if it was past the end. *)
Lemma scan_rest_bound s pos :
  0 ≤ pos →
  pos + snd (scan (rest_at s pos)) ≤ Z.max (pos + 1) (len s + 1).
Proof.
  intros Hpos. pose proof (scan_bound_eof (rest_at s pos)) as Hn.
  destruct (decide (pos ≤ len s)).
  - rewrite len_rest_at in Hn by lia. lia.
  - rewrite rest_at_ge, scan_nil by lia. simpl. lia.
Qed.

Lemma NextToken_result_inv lexer :
  lexer_inv lexer → nextCharPosition lexer < max_int →
  lexer_inv (lexer_at (input lexer)
    (currentPosition lexer + snd (scan (rest lexer)))).
Proof.
  intros (Hlen & Hpos & Hn & Hmax & Hc) Hnext. rewrite Hn in Hnext.
  pose proof (scan_progress (rest lexer)).
  pose proof (scan_rest_bound (input lexer) (currentPosition lexer)
    ltac:(lia)).
  apply lexer_at_inv; [done |]. unfold rest in *. lia.
Qed.

(** The lexer whose cursor stands after [pre] in [pre +:+ r]. *)
Lemma rest_at_app pre r : rest_at (pre +:+ r) (len pre) = r.
Proof. unfold rest_at, len. rewrite Nat2Z.id. apply str_drop_app_length. Qed.

Lemma NextToken_at_app pre r :
  len (pre +:+ r) + 1 < max_int →
  NextToken (lexer_at (pre +:+ r) (len pre)) =
    Ok (fst (scan r), lexer_at (pre +:+ r) (len pre + snd (scan r))).
Proof.
  intros Hlen. rewrite len_app in Hlen.
  pose proof (len_nonneg pre). pose proof (len_nonneg r).
  rewrite NextToken_scan by (rewrite ?len_app; lia).
  by rewrite rest_at_app.
Qed.

(** The remaining input starts with the byte under the cursor. *)
Lemma rest_at_cons s pos :
  0 ≤ pos < len s →
  rest_at s pos = String (byte_at s pos) (rest_at s (pos + 1)).
Proof.
  intros Hpos. rewrite rest_at_succ, byte_at_rest by lia.
  destruct (rest_at s pos) eqn:E; [| done].
  apply (f_equal len) in E. rewrite len_rest_at in E by lia.
  rewrite len_nil in E. lia.
Qed.

(** ** Sequences of calls *)

Lemma rest_at_scan s pos :
  0 ≤ pos →
  rest_at s (pos + snd (scan (rest_at s pos))) =
    str_drop (Z.to_nat (snd (scan (rest_at s pos)))) (rest_at s pos).
Proof.
  intros. pose proof (scan_progress (rest_at s pos)).
  rewrite <- (Z2Nat.id (snd _)) at 1 by lia. by apply rest_at_add.
Qed.

(** [NextTokens] refines [scan_n], as long as the cursor it ends on is
    below the largest [int]. *)
Lemma NextTokens_scan_n n s pos :
  len s + 1 < max_int → 0 ≤ pos →
  pos + snd (scan_n n (rest_at s pos)) < max_int →
  NextTokens n (lexer_at s pos) =
    Ok (fst (scan_n n (rest_at s pos)),
        lexer_at s (pos + snd (scan_n n (rest_at s pos)))).
Proof.
  intros Hlen. revert pos. induction n as [|n IH]; intros pos Hpos Hmax.
  { simpl. by rewrite Z.add_0_r. }
  rewrite scan_n_S in *. cbn [fst snd] in *.
  pose proof (scan_progress (rest_at s pos)).
  pose proof (scan_n_progress n
    (str_drop (Z.to_nat (snd (scan (rest_at s pos)))) (rest_at s pos))).
  cbn [NextTokens]. rewrite NextToken_scan by lia. simpl.
  rewrite IH, rest_at_scan by (rewrite ?rest_at_scan; lia). simpl.
  do 3 f_equal. lia.
Qed.

(** [n + m] calls are [n] calls followed by [m] calls. *)
Lemma NextTokens_add n m lexer :
  NextTokens (n + m) lexer =
    '(toks1, lexer) ← NextTokens n lexer;
    '(toks2, lexer) ← NextTokens m lexer;
    Ok (toks1 ++ toks2, lexer).
Proof.
  revert lexer. induction n as [|n IH]; intros lexer.
  { simpl. by destruct (NextTokens m lexer) as [[]|]. }
  cbn [Nat.add NextTokens].
  destruct (NextToken lexer) as [[tok l1]|]; simpl; [| done].
  rewrite IH. destruct (NextTokens n l1) as [[toks1 l2]|]; simpl; [| done].
  by destruct (NextTokens m l2) as [[]|].
Qed.

End refinement.
