(* ===== verification/LexerCorrect.v ===== *)
(** * Correctness of [NextToken]

    The theorems on one call of [NextToken]: it computes the token and the
    cursor movement of the specification [scan], it keeps the invariant, it
    never runs out of fuel, it makes progress, the literal of the token is
    the slice of the input the cursor moved over, and the token has one of
    five shapes.  Each theorem is followed by its instance on a concrete
    lexer. *)

From Stdlib Require Import ZArith Ascii String Lia.
From stdpp Require Import base tactics strings.
From S2P Require Import Prelude GoRuntime Chars Token Lexer Scan.
From S2P Require Import LexerInv Refinement.

Local Open Scope Z_scope.

Section correct.
Context {sz : IntSize} {classifier : Classifier}.
Implicit Types (lexer : Lexer) (tok : Token) (s w r : string) (pos : Z).

(** C1.  [NextToken] refines [scan]: on a lexer that satisfies the invariant
    and whose [nextCharPosition] can be incremented, the call returns (it
    does not panic) the token that [scan] reads at the head of the remaining
    input, leaves the input unchanged, and moves the cursor by the number of
    bytes [scan] counts, so that the remaining input afterwards is the one
    before without these bytes. *)
Theorem NextToken_refines_scan lexer :
  lexer_inv lexer → nextCharPosition lexer < max_int →
  ∃ lexer',
    NextToken lexer = Ok (fst (scan (rest lexer)), lexer') ∧
    input lexer' = input lexer ∧
    currentPosition lexer' =
      currentPosition lexer + snd (scan (rest lexer)) ∧
    rest lexer' = str_drop (Z.to_nat (snd (scan (rest lexer)))) (rest lexer).
Proof.
  intros Hinv Hnext. eexists. split; [by apply NextToken_inv_scan |].
  repeat split. pose proof (scan_progress (rest lexer)).
  destruct Hinv as (_ & Hpos & _). unfold rest at 1. simpl.
  rewrite <- (Z2Nat.id (snd _)) at 1 by lia. by apply rest_at_add.
Qed.

(** C2.  [NextToken] preserves the invariant: called on a lexer with the
    invariant whose [nextCharPosition] is below the largest [int], it
    returns a token and a lexer that has the invariant again. *)
Theorem NextToken_preserves_inv lexer :
  lexer_inv lexer → nextCharPosition lexer < max_int →
  ∃ tok lexer', NextToken lexer = Ok (tok, lexer') ∧ lexer_inv lexer'.
Proof.
  intros Hinv Hnext. do 2 eexists.
  split; [by apply NextToken_inv_scan | by apply NextToken_result_inv].
Qed.

(** C4.  Progress: on a lexer with the invariant whose [nextCharPosition]
    is below the largest [int], a call that returns has moved the cursor
    forward by at least one byte, whatever the token, [EOF] included; the
    cursor of a token other than [EOF] stays within the input. *)
Theorem NextToken_progress lexer tok lexer' :
  lexer_inv lexer → nextCharPosition lexer < max_int →
  NextToken lexer = Ok (tok, lexer') →
  currentPosition lexer < currentPosition lexer' ∧
  (Type_ tok ≠ EOF → currentPosition lexer' ≤ len (input lexer)).
Proof.
  intros Hinv Hnext. rewrite NextToken_inv_scan by done. intros [= <- <-].
  pose proof (scan_progress (rest lexer)). simpl. split; [lia |].
  intros Hne. pose proof (scan_bound _ Hne) as Hb.
  destruct Hinv as (_ & Hpos & _).
  destruct (decide (currentPosition lexer ≤ len (input lexer))).
  - unfold rest in *. rewrite len_rest_at in Hb by lia. lia.
  - unfold rest in *. rewrite rest_at_ge in * by lia.
    by rewrite scan_nil in Hne.
Qed.

(** C5.  Termination of the loops: whatever the fields of the struct hold,
    [NextToken] never answers [OutOfFuel] on an input whose length is an
    [int].  The fuel [loop_fuel] gives to [skipWhitespace], [readIdentifier]
    and [readDigit] is enough for each of them to reach a byte that fails
    its test, the end of the input, or a panic of the program itself. *)
Theorem NextToken_total lexer :
  len (input lexer) ≤ max_int → NextToken lexer ≠ Panic OutOfFuel.
Proof.
  intros Hlen. unfold NextToken, skipWhitespace.
  pose proof (readWhile_fuel isWhitespace lexer isWhitespace_NUL Hlen) as Hf.
  destruct (readWhile _ _ _) as [l1|] eqn:E; simpl; [| congruence].
  apply readWhile_input in E. rewrite <- E in Hlen.
  repeat case_bool;
    auto using advance_fuel, readIdentifier_fuel, readDigit_fuel.
  - pose proof (readIdentifier_fuel l1 Hlen).
    destruct (readIdentifier l1) as [[]|]; simpl; congruence.
  - pose proof (readDigit_fuel l1 Hlen).
    destruct (readDigit l1) as [[]|]; simpl; congruence.
Qed.

(** C6.  Literal fidelity: on a lexer with the invariant whose
    [nextCharPosition] is below the largest [int], the literal of a
    returned token is the slice of the input that ends at the cursor after
    the call and has the literal's length, for every token but [EOF] and
    the [ILLEGAL] token of a byte outside ASCII. *)
Theorem NextToken_literal_slice lexer tok lexer' :
  lexer_inv lexer → nextCharPosition lexer < max_int →
  NextToken lexer = Ok (tok, lexer') →
  Type_ tok ≠ EOF →
  Type_ tok ≠ ILLEGAL ∨ str_forallb is_ascii (input lexer) = true →
  slice (input lexer) (currentPosition lexer' - len (Literal tok))
    (currentPosition lexer') = Ok (Literal tok).
Proof.
  intros Hinv Hnext. rewrite NextToken_inv_scan by done. intros [= <- <-].
  intros Heof Hill. destruct Hinv as (_ & Hpos & _). simpl.
  assert (currentPosition lexer ≤ len (input lexer)) as Hin.
  { destruct (decide (currentPosition lexer ≤ len (input lexer))); [done |].
    unfold rest in Heof. by rewrite rest_at_ge, scan_nil in Heof by lia. }
  destruct (scan_literal_split (rest lexer)) as (post & Hr & ->); [done | |].
  { destruct Hill as [? | Ha]; [by left | right].
    by apply str_forallb_drop. }
  rewrite <- (slice_rest_at _ _ _ _ _ (conj Hpos Hin) Hr) at 1. f_equal; lia.
Qed.

(** C20.  Every token [NextToken] returns, on a lexer with the invariant
    whose [nextCharPosition] is below the largest [int], is well formed:
    [EOF] has the empty literal, [INT] a non-empty literal of digits, an
    identifier or keyword a non-empty literal of letters that [classify]
    maps to its kind, a punctuation kind the one byte that stands for it,
    and [ILLEGAL] the conversion of a byte that is in no character class. *)
Theorem NextToken_token_wf lexer tok lexer' :
  lexer_inv lexer → nextCharPosition lexer < max_int →
  NextToken lexer = Ok (tok, lexer') → token_wf tok.
Proof.
  intros Hinv Hnext. rewrite NextToken_inv_scan by done. intros [= <- _].
  apply token_shape_wf, scan_shape.
Qed.

(** C21.  [New] returns a lexer that satisfies the invariant, with the whole
    input left to scan: the cursor is at position 0, [nextCharPosition] is 1
    and [currentChar] is the first byte of the input, [NUL] if it is empty. *)
Theorem New_establishes_inv s :
  len s + 1 < max_int →
  ∃ lexer,
    New s = Ok lexer ∧ lexer_inv lexer ∧ rest lexer = s ∧
    input lexer = s ∧ currentPosition lexer = 0 ∧
    nextCharPosition lexer = 1 ∧ currentChar lexer = str_head NUL s.
Proof.
  intros Hlen. exists (lexer_at s 0). pose proof max_int_ge.
  split; [apply New_at |]. split; [apply lexer_at_inv; lia |].
  repeat split. simpl. by rewrite byte_at_rest, rest_at_0.
Qed.

(** Whitespace before a token is invisible: with any run [w] of
    spaces, tabs, newlines and carriage returns inserted at the cursor,
    [NextToken] returns the same token and leaves the same input to scan. *)
Theorem NextToken_whitespace_invisible pre w r :
  str_forallb isWhitespace w = true →
  len (pre +:+ w +:+ r) + 1 < max_int →
  ∃ tok lexer1 lexer2,
    NextToken (lexer_at (pre +:+ w +:+ r) (len pre)) = Ok (tok, lexer1) ∧
    NextToken (lexer_at (pre +:+ r) (len pre)) = Ok (tok, lexer2) ∧
    rest lexer1 = rest lexer2.
Proof.
  intros Hw Hlen. rewrite !len_app in Hlen.
  pose proof (len_nonneg pre). pose proof (len_nonneg w).
  pose proof (len_nonneg r).
  rewrite !NextToken_scan by (rewrite ?len_app; lia).
  assert (∀ u, rest_at (pre +:+ u) (len pre) = u) as Hrest.
  { intros u. unfold rest_at, len. rewrite Nat2Z.id.
    apply str_drop_app_length. }
  rewrite !Hrest, scan_whitespace by done. do 3 eexists.
  split; [done |]. split; [done |]. pose proof (scan_progress r).
  rewrite !rest_lexer_at. cbn [snd].
  replace (len pre + (len w + snd (scan r)))
    with (len pre + Z.of_nat (String.length w + Z.to_nat (snd (scan r))))
    by (unfold len; lia).
  rewrite <- (Z2Nat.id (snd (scan r))) at 2 by lia.
  rewrite !rest_at_add, !Hrest, <- str_drop_drop by lia.
  by rewrite str_drop_app_length.
Qed.

End correct.

(** ** The theorems on concrete lexers

    On a 64-bit platform and with the keyword table of the package [token]:
    the lexer on ["let five = 5;"] with its cursor after ["let"]. *)

Section witnesses.
#[local] Existing Instance word64.

Lemma NextToken_refines_scan_witness :
  ∃ lexer',
    NextToken (lexer_at "let five = 5;" 3) =
      Ok ({| Type_ := IDENT; Literal := "five" |}, lexer') ∧
    input lexer' = "let five = 5;" ∧
    currentPosition lexer' = 8 ∧
    rest lexer' = " = 5;".
Proof.
  vm_cast_no_check
    (NextToken_refines_scan (lexer_at "let five = 5;" 3)
       ltac:(solve_lexer_inv) ltac:(by vm_compute)).
Defined.

Lemma NextToken_preserves_inv_witness :
  ∃ tok lexer',
    NextToken (lexer_at "let five = 5;" 3) = Ok (tok, lexer') ∧
    lexer_inv lexer'.
Proof.
  exact (NextToken_preserves_inv (lexer_at "let five = 5;" 3)
    ltac:(solve_lexer_inv) ltac:(by vm_compute)).
Defined.

Lemma NextToken_progress_witness :
  3 < 8 ∧ (IDENT ≠ EOF → 8 ≤ len "let five = 5;").
Proof.
  exact (NextToken_progress (sz := word64) (classifier := token_classifier)
    (lexer_at "let five = 5;" 3)
    {| Type_ := IDENT; Literal := "five" |} (lexer_at "let five = 5;" 8)
    ltac:(solve_lexer_inv) ltac:(by vm_compute) ltac:(by vm_compute)).
Defined.

Lemma NextToken_total_witness :
  NextToken (lexer_at "let five = 5;" 3) ≠ Panic OutOfFuel.
Proof.
  exact (NextToken_total (sz := word64) (classifier := token_classifier)
    (lexer_at "let five = 5;" 3) ltac:(by vm_compute)).
Defined.

Lemma NextToken_literal_slice_witness :
  slice "let five = 5;" (8 - len "five") 8 = Ok "five".
Proof.
  exact (NextToken_literal_slice (sz := word64)
    (classifier := token_classifier) (lexer_at "let five = 5;" 3)
    {| Type_ := IDENT; Literal := "five" |} (lexer_at "let five = 5;" 8)
    ltac:(solve_lexer_inv) ltac:(by vm_compute) ltac:(by vm_compute)
    ltac:(done) ltac:(by left)).
Defined.

Lemma NextToken_token_wf_witness :
  token_wf {| Type_ := IDENT; Literal := "five" |}.
Proof.
  exact (NextToken_token_wf (sz := word64) (classifier := token_classifier)
    (lexer_at "let five = 5;" 3)
    {| Type_ := IDENT; Literal := "five" |} (lexer_at "let five = 5;" 8)
    ltac:(solve_lexer_inv) ltac:(by vm_compute) ltac:(by vm_compute)).
Defined.

Lemma New_establishes_inv_witness :
  ∃ lexer,
    New "let five = 5;" = Ok lexer ∧ lexer_inv lexer ∧
    rest lexer = "let five = 5;" ∧ input lexer = "let five = 5;" ∧
    currentPosition lexer = 0 ∧ nextCharPosition lexer = 1 ∧
    currentChar lexer = "l"%char.
Proof.
  exact (New_establishes_inv "let five = 5;" ltac:(by vm_compute)).
Defined.

Lemma NextToken_whitespace_invisible_witness :
  ∃ tok lexer1 lexer2,
    NextToken (lexer_at "x=   five" 2) = Ok (tok, lexer1) ∧
    NextToken (lexer_at "x=five" 2) = Ok (tok, lexer2) ∧
    rest lexer1 = rest lexer2.
Proof.
  exact (NextToken_whitespace_invisible "x=" "   " "five"
    ltac:(done) ltac:(by vm_compute)).
Defined.

End witnesses.
