(* ===== verification/LexerOverflow.v ===== *)
(** * The end of the input, and the overflow of the position

    At the end of the input [NextToken] returns [EOF], and keeps returning
    it; but the [case 0] of the [switch] reaches the [readChar] after it like
    the other cases, so that each of these calls advances both positions.
    The file proves how many calls are safe, that the call after
    [nextCharPosition] has wrapped around panics, and what any number of
    calls on a new lexer comes to ([calls_outcome]). *)

From Stdlib Require Import ZArith Ascii String Lia.
From stdpp Require Import base tactics strings.
From S2P Require Import Prelude GoRuntime Chars Token Lexer Scan.
From S2P Require Import LexerInv Refinement.

Local Open Scope Z_scope.

(** The struct after the call that made [nextCharPosition] wrap around. *)
Definition overflowed {sz : IntSize} (s : string) : Lexer :=
  {| input := s;
     currentPosition := max_int;
     nextCharPosition := min_int;
     currentChar := NUL |}.

(** What [n] calls of [NextToken] on a new lexer for [s] come to, read off
    the position [p] at which the specification is after [n] tokens: below
    the largest [int] the lexer is at [p]; at the largest [int] the next
    position has wrapped around; beyond it a call has panicked. *)
Definition calls_outcome {sz : IntSize} {classifier : Classifier}
    (n : nat) (s : string) : result (list Token * Lexer) :=
  let p := snd (scan_n n s) in
  if decide (p < max_int) then Ok (fst (scan_n n s), lexer_at s p)
  else if decide (p = max_int) then Ok (fst (scan_n n s), overflowed s)
  else Panic IndexOutOfRange.

Section overflow.
Context {sz : IntSize} {classifier : Classifier}.
Implicit Types (lexer : Lexer) (tok : Token) (s : string) (pos : Z) (n : nat).

(** ** Helper lemmas *)

Lemma NextToken_at_NUL lexer :
  currentChar lexer = NUL →
  NextToken lexer = (lexer ← readChar lexer; Ok (eof_token, lexer)).
Proof.
  intros Hc. unfold NextToken, skipWhitespace.
  rewrite readWhile_stop by (by rewrite Hc). simpl. by rewrite Hc.
Qed.

(** The last call that returns: the cursor is at [max_int - 1]. *)
Lemma NextToken_at_last s :
  len s + 1 < max_int →
  NextToken (lexer_at s (max_int - 1)) = Ok (eof_token, overflowed s).
Proof.
  intros Hlen. rewrite NextToken_at_NUL by (simpl; apply byte_at_ge; lia).
  unfold readChar, lexer_at. simpl.
  rewrite decide_True by lia. simpl. unfold overflowed. do 3 f_equal; [lia |].
  replace (max_int - 1 + 1) with max_int by lia. apply int_add_1_overflow.
Qed.

(** The call after it indexes the input at [min_int]. *)
Lemma NextToken_overflowed s :
  NextToken (overflowed s) = Panic IndexOutOfRange.
Proof.
  rewrite NextToken_at_NUL by done. unfold readChar, overflowed. simpl.
  pose proof min_int_neg. pose proof (len_nonneg s).
  rewrite decide_False by lia. by rewrite index_out_of_range by lia.
Qed.

Lemma NextTokens_at_end n s pos :
  len s + 1 < max_int → len s ≤ pos → pos + Z.of_nat n < max_int →
  NextTokens n (lexer_at s pos) =
    Ok (replicate n eof_token, lexer_at s (pos + Z.of_nat n)).
Proof.
  intros Hlen Hpos Hmax. pose proof (len_nonneg s).
  rewrite NextTokens_scan_n; [| lia | lia |];
    rewrite rest_at_ge, scan_n_nil by lia; simpl; (done || lia).
Qed.

(** From the end of the input the panic is [max_int - pos + 1] calls away. *)
Lemma NextTokens_end_panics s pos :
  len s + 1 < max_int → len s ≤ pos < max_int →
  NextTokens (Z.to_nat (max_int - 1 - pos) + 2) (lexer_at s pos) =
    Panic IndexOutOfRange.
Proof.
  intros Hlen Hpos. rewrite NextTokens_add, NextTokens_at_end by lia. simpl.
  replace (pos + Z.of_nat _) with (max_int - 1) by lia.
  rewrite NextToken_at_last by done. simpl. by rewrite NextToken_overflowed.
Qed.

(** ** Where the calls cross the largest [int] *)

(** Past the end of the input every token is [EOF] and takes one
    position. *)
Lemma scan_n_past_end n k r :
  len r ≤ snd (scan_n n r) →
  scan_n (n + k) r =
    (fst (scan_n n r) ++ replicate k eof_token, snd (scan_n n r) + Z.of_nat k).
Proof.
  intros Hend. rewrite scan_n_add. fold (rest_at r (snd (scan_n n r))).
  by rewrite rest_at_ge, scan_n_nil by done.
Qed.

(** A bound [M] above the end of the input is not jumped over: the calls
    that reach it pass by [M - 1]. *)
Lemma scan_n_crosses M n r :
  len r + 1 < M → M ≤ snd (scan_n n r) →
  ∃ m k, n = (m + S k)%nat ∧ snd (scan_n m r) = M - 1.
Proof.
  intros HM. pose proof (len_nonneg r). induction n as [|n IH]; intros Hn.
  { simpl in Hn. lia. }
  destruct (decide (M ≤ snd (scan_n n r))) as [Hle|Hlt].
  { destruct (IH Hle) as (m & k & -> & Hm). exists m, (S k). split; [lia | done]. }
  exists n, 0%nat. split; [lia |]. revert Hn.
  replace (S n) with (n + 1)%nat by lia. rewrite scan_n_add.
  cbn [snd]. rewrite scan_n_S. cbn [scan_n snd]. rewrite Z.add_0_r.
  pose proof (scan_bound_eof (str_drop (Z.to_nat (snd (scan_n n r))) r)) as Hb.
  pose proof (scan_n_progress n r). unfold len in Hb.
  rewrite str_length_drop in Hb.
  destruct (decide (len r ≤ snd (scan_n n r))) as [Hend|Hin]; [| unfold len in *; lia].
  fold (rest_at r (snd (scan_n n r))). rewrite rest_at_ge, scan_nil by done.
  simpl. lia.
Qed.

(** The calls from the last position: one returns, the next panics. *)
Lemma NextTokens_from_last k s :
  len s + 1 < max_int →
  NextTokens (S k) (lexer_at s (max_int - 1)) =
    if decide (k = 0%nat) then Ok ([eof_token], overflowed s)
    else Panic IndexOutOfRange.
Proof.
  intros Hlen. cbn [NextTokens]. rewrite NextToken_at_last by done.
  destruct k as [|k]; [done |]. cbn [NextTokens]. simpl.
  by rewrite NextToken_overflowed.
Qed.

(** The calls on a new lexer, whatever their number. *)
Lemma NextTokens_New n s :
  len s + 1 < max_int →
  (lexer ← New s; NextTokens n lexer) = calls_outcome n s.
Proof.
  intros Hlen. pose proof (len_nonneg s). rewrite New_at. unfold calls_outcome.
  cbn [mbind result_bind]. case_decide as Hp.
  { rewrite NextTokens_scan_n; rewrite ?rest_at_0; by rewrite ?Z.add_0_l. }
  destruct (scan_n_crosses max_int n s) as (m & k & -> & Hm); [lia.. |].
  rewrite (scan_n_past_end m (S k)) by lia. rewrite NextTokens_add.
  rewrite NextTokens_scan_n; rewrite ?rest_at_0, ?Z.add_0_l; [| lia..].
  cbn [mbind result_bind fst snd]. rewrite Hm.
  rewrite (NextTokens_from_last k s Hlen).
  destruct k as [|k]; simpl.
  - rewrite decide_True by lia. done.
  - rewrite decide_False by lia. done.
Qed.

(** ** The theorems *)

(** C32.  [EOF] is not idempotent on the state: at the end of the input,
    on a lexer with the invariant whose [nextCharPosition] is below the
    largest [int], [NextToken] returns the [EOF] token and moves the cursor
    one position further, every time. *)
Theorem NextToken_eof_advances lexer :
  lexer_inv lexer → nextCharPosition lexer < max_int →
  len (input lexer) ≤ currentPosition lexer →
  NextToken lexer =
    Ok (eof_token, lexer_at (input lexer) (currentPosition lexer + 1)).
Proof.
  intros Hinv Hnext Hend. rewrite NextToken_inv_scan by done.
  unfold rest. by rewrite rest_at_ge, scan_nil by done.
Qed.

(** [EOF] is permanent: once the cursor is at the end of the input,
    [n] further calls return [n] tokens [EOF], as long as the position they
    reach is below the largest [int]. *)
Theorem NextTokens_eof_forever n lexer :
  lexer_inv lexer → len (input lexer) ≤ currentPosition lexer →
  currentPosition lexer + Z.of_nat n < max_int →
  fst <$> NextTokens n lexer = Ok (replicate n eof_token).
Proof.
  intros Hinv Hend Hmax. rewrite (lexer_inv_at _ Hinv).
  destruct Hinv as (Hlen & _). by rewrite NextTokens_at_end.
Qed.

(** C3.  Safety: the first [n] calls on a new lexer return [n] tokens and
    leave a lexer with the invariant, none of them panics, whenever
    [len input + n + 1] is below the largest [int]. *)
Theorem NextTokens_safe n s :
  len s + Z.of_nat n + 1 < max_int →
  ∃ toks lexer,
    (lexer ← New s; NextTokens n lexer) = Ok (toks, lexer) ∧
    length toks = n ∧ lexer_inv lexer.
Proof.
  intros Hmax. pose proof (scan_n_bound n s) as Hb.
  pose proof (scan_n_progress n s) as Hp. pose proof (len_nonneg s).
  rewrite New_at. simpl. do 2 eexists.
  rewrite NextTokens_scan_n; rewrite ?rest_at_0; [| lia..].
  split; [done |]. split; [apply scan_n_length |].
  apply lexer_at_inv; lia.
Qed.

(** Overflow: on every input some number of calls of [NextToken]
    makes the lexer panic with an index out of range.  The calls at the end
    of the input advance [nextCharPosition] until it wraps around to the
    smallest [int], and the call after that reads [input[nextCharPosition]]. *)
Theorem NextTokens_overflow_panics s :
  len s + 1 < max_int →
  ∃ n, (lexer ← New s; NextTokens n lexer) = Panic IndexOutOfRange.
Proof.
  intros Hlen. destruct (scan_n_reaches_end s) as [n0 Hn0].
  pose proof (len_nonneg s).
  exists (n0 + (Z.to_nat (max_int - 1 - snd (scan_n n0 s)) + 2))%nat.
  rewrite New_at. simpl. rewrite NextTokens_add.
  rewrite NextTokens_scan_n; rewrite ?rest_at_0; [| lia..]. simpl.
  rewrite Z.add_0_l. by rewrite NextTokens_end_panics by lia.
Qed.

(** C24.  The exact outcome of any number of calls: [n] calls of
    [NextToken] on a new lexer come to [calls_outcome n s], which is read
    off the position the specification has reached after [n] tokens.  They
    return the tokens of the specification as long as that position is at
    most the largest [int], and panic with an index out of range beyond it;
    no other panic occurs.  In terms of [n] alone: fewer than
    [max_int - len s] calls are safe, more than [max_int] calls are not. *)
Theorem NextTokens_outcome n s :
  len s + 1 < max_int →
  (lexer ← New s; NextTokens n lexer) = calls_outcome n s ∧
  (len s + Z.of_nat n < max_int →
   calls_outcome n s =
     Ok (fst (scan_n n s), lexer_at s (snd (scan_n n s)))) ∧
  (max_int < Z.of_nat n → calls_outcome n s = Panic IndexOutOfRange).
Proof.
  intros Hlen. pose proof (scan_n_bound n s). pose proof (scan_n_progress n s).
  split; [by apply NextTokens_New |].
  unfold calls_outcome. split; intros Hn.
  - by rewrite decide_True by lia.
  - by rewrite !decide_False by lia.
Qed.

End overflow.

(** ** The theorems on concrete lexers *)

Section witnesses.
#[local] Existing Instance word64.

Lemma NextToken_eof_advances_witness :
  NextToken (lexer_at "5;" 2) = Ok (eof_token, lexer_at "5;" 3).
Proof.
  exact (NextToken_eof_advances (lexer_at "5;" 2)
    ltac:(apply lexer_at_inv; [by vm_compute | split; by vm_compute])
    ltac:(by vm_compute) ltac:(by vm_compute)).
Defined.

Lemma NextTokens_eof_forever_witness :
  fst <$> NextTokens 3 (lexer_at "5;" 2) =
    Ok [eof_token; eof_token; eof_token].
Proof.
  exact (NextTokens_eof_forever 3 (lexer_at "5;" 2)
    ltac:(apply lexer_at_inv; [by vm_compute | split; by vm_compute])
    ltac:(by vm_compute) ltac:(by vm_compute)).
Defined.

Lemma NextTokens_safe_witness :
  ∃ toks lexer,
    (lexer ← New "let five = 5;"; NextTokens 6 lexer) = Ok (toks, lexer) ∧
    length toks = 6%nat ∧ lexer_inv lexer.
Proof.
  exact (NextTokens_safe 6 "let five = 5;" ltac:(by vm_compute)).
Defined.

Lemma NextTokens_overflow_panics_witness :
  ∃ n, (lexer ← New "5;"; NextTokens n lexer) = Panic IndexOutOfRange.
Proof.
  exact (NextTokens_overflow_panics (classifier := token_classifier) "5;"
    ltac:(by vm_compute)).
Defined.

Lemma NextTokens_outcome_witness :
  (lexer ← New "5;"; NextTokens 4 lexer) =
    calls_outcome (classifier := token_classifier) 4 "5;" ∧
  (len "5;" + Z.of_nat 4 < max_int →
   calls_outcome (classifier := token_classifier) 4 "5;" =
     Ok (fst (scan_n 4 "5;"), lexer_at "5;" (snd (scan_n 4 "5;")))) ∧
  (max_int < Z.of_nat 4 →
   calls_outcome (classifier := token_classifier) 4 "5;" =
     Panic IndexOutOfRange).
Proof.
  exact (NextTokens_outcome (classifier := token_classifier) 4 "5;"
    ltac:(by vm_compute)).
Defined.

End witnesses.
