(* ===== verification/Tokenizer.v ===== *)
(** * The caller's loop: every token of an input

    The caller of the lexer makes a lexer with [New] and asks it for the next
    token until it receives the token of kind [EOF].  [collect] is that loop
    and [Tokenize] the whole pass: the tokens in the order they were
    returned, the [EOF] token left out.  The loop has fuel; the length of the
    input is enough, since every token but [EOF] takes a byte.

    The file proves that [Tokenize] computes [ScanAll.scan_all], and from it
    that the pass ends, that its tokens are well formed, that printing tokens
    and reading them back is the identity, that the rules of [ScanRel] and
    the layouts of [ScanLayout] describe it, that no byte but whitespace is
    lost, and that a zero byte ends the input. *)

From Stdlib Require Import ZArith Ascii String List Lia.
From stdpp Require Import base tactics option list strings.
From S2P Require Import Prelude StrSeq GoRuntime Chars Token Lexer Scan ScanSeq.
From S2P Require Import ScanAll ScanRel ScanBytes ScanLayout LexerInv Refinement.

#[local] Open Scope Z_scope.

(** The tokens of [let x = 5;], the example of the theorems below. *)
Definition let_x : list Token :=
  [ {| Type_ := LET; Literal := "let" |}; {| Type_ := IDENT; Literal := "x" |};
    {| Type_ := ASSIGN; Literal := "=" |}; {| Type_ := INT; Literal := "5" |};
    {| Type_ := SEMICOLON; Literal := ";" |} ].

Section tokenizer.
Context {sz : IntSize} {classifier : Classifier}.
Implicit Types (s r x y : string) (pos : Z) (tok : Token)
  (toks : list Token) (lexer : Lexer) (fuel : nat).

(** [for tok := lexer.NextToken(); tok.Type != token.EOF;
         tok = lexer.NextToken() { tokens = append(tokens, tok) }] *)
Fixpoint collect (fuel : nat) (lexer : Lexer) : result (list Token) :=
  '(tok, lexer) ← NextToken lexer;
  if decide (Type_ tok = EOF) then Ok []
  else
    match fuel with
    | O => Panic OutOfFuel
    | S fuel => toks ← collect fuel lexer; Ok (tok :: toks)
    end.

(** A whole pass over [input]: a new lexer, and its tokens up to [EOF]. *)
Definition Tokenize (input : string) : result (list Token) :=
  lexer ← New input; collect (String.length input) lexer.

(** ** The loop *)

Lemma collect_unfold fuel lexer :
  collect fuel lexer =
    '(tok, lexer) ← NextToken lexer;
    if decide (Type_ tok = EOF) then Ok []
    else
      match fuel with
      | O => Panic OutOfFuel
      | S fuel => toks ← collect fuel lexer; Ok (tok :: toks)
      end.
Proof. by destruct fuel. Qed.

(** With as much fuel as there are bytes left, the loop started anywhere in
    the input returns the tokens of what is left. *)
Lemma collect_at fuel s pos :
  len s + 1 < max_int → 0 ≤ pos → pos + 1 < max_int →
  (String.length (rest_at s pos) ≤ fuel)%nat →
  collect fuel (lexer_at s pos) = Ok (scan_all (rest_at s pos)).
Proof.
  intros Hlen. revert pos.
  induction fuel as [|fuel IH]; intros pos Hpos Hmax Hfuel;
    rewrite collect_unfold, NextToken_scan, scan_all_eq by lia; simpl;
    destruct (decide _) as [| Hne]; try done.
  - apply scan_drop_lt in Hne. lia.
  - pose proof (scan_progress (rest_at s pos)).
    pose proof (scan_bound _ Hne) as Hb. pose proof (scan_drop_lt _ Hne).
    assert (pos ≤ len s) by (apply Z.le_ngt; intros ?;
      rewrite rest_at_ge in Hne by lia; by apply Hne).
    rewrite len_rest_at in Hb by lia.
    rewrite IH by (rewrite ?rest_at_scan; lia). simpl.
    by rewrite rest_at_scan by lia.
Qed.

(** More fuel than needed changes nothing. *)
Lemma collect_more_fuel fuel fuel' lexer toks :
  collect fuel lexer = Ok toks → (fuel ≤ fuel')%nat →
  collect fuel' lexer = Ok toks.
Proof.
  revert fuel' lexer toks.
  induction fuel as [|fuel IH]; intros fuel' lexer toks;
    rewrite (collect_unfold _ lexer), (collect_unfold fuel' lexer);
    destruct (NextToken lexer) as [[tok l1]|]; simpl; try done;
    destruct (decide _); try done.
  destruct fuel' as [|fuel']; [lia |].
  destruct (collect fuel l1) as [toks1|] eqn:E; [| done].
  intros ? ?. by rewrite (IH fuel' l1 toks1) by (done || lia).
Qed.

Lemma Tokenize_scan s : len s + 1 < max_int → Tokenize s = Ok (scan_all s).
Proof.
  intros Hlen. unfold Tokenize. rewrite New_at. simpl.
  pose proof (len_nonneg s).
  rewrite collect_at by (rewrite ?rest_at_0; lia). by rewrite rest_at_0.
Qed.

(** ** The theorems *)

(** C7.  Refinement and termination of the caller's loop.  Started on any
    lexer that has the invariant and whose [nextCharPosition] is below the
    largest [int], with at least as much fuel as bytes are left, the loop
    returns, and what it returns are the tokens [scan_all] gives for the
    remaining input. *)
Theorem collect_refines_scan_all fuel lexer :
  lexer_inv lexer → nextCharPosition lexer < max_int →
  (String.length (rest lexer) ≤ fuel)%nat →
  collect fuel lexer = Ok (scan_all (rest lexer)).
Proof.
  intros Hinv. pattern lexer. apply (lexer_inv_canonical _ _ Hinv).
  intros s pos Hlen Hpos. rewrite rest_lexer_at. simpl. intros Hnext Hfuel.
  apply collect_at; (done || lia).
Qed.

(** C8.  [Tokenize] and the calls of [NextToken]: the pass returns the
    tokens that as many calls of [NextToken] on the new lexer return, none of
    them [EOF], and the call after them returns [EOF]. *)
Theorem Tokenize_NextTokens s :
  len s + 1 < max_int →
  ∃ toks lexer lexer',
    Tokenize s = Ok toks ∧ New s = Ok lexer ∧
    NextTokens (S (length toks)) lexer = Ok (toks ++ [eof_token], lexer') ∧
    Forall (λ tok, Type_ tok ≠ EOF) toks.
Proof.
  intros Hlen. destruct (scan_n_scan_all s) as [Ht Hn].
  exists (scan_all s), (lexer_at s 0). eexists.
  split; [by apply Tokenize_scan |]. split; [apply New_at |]. split.
  - rewrite NextTokens_scan_n by (rewrite ?rest_at_0; lia).
    by rewrite rest_at_0, Ht.
  - eapply Forall_impl; [apply scan_all_shape |]. by intros tok [_ ?].
Qed.

(** The pass ends, on every input that leaves room for the positions
    past its end: [Tokenize] returns a list of well-formed tokens, none of
    kind [EOF], with at most one token for each byte of the input. *)
Theorem Tokenize_tokens_wf s :
  len s + 1 < max_int →
  ∃ toks,
    Tokenize s = Ok toks ∧
    Forall (λ tok, token_wf tok ∧ Type_ tok ≠ EOF) toks ∧
    (length toks ≤ String.length s)%nat.
Proof.
  intros Hlen. exists (scan_all s). split; [by apply Tokenize_scan |].
  split; [| apply scan_all_length].
  eapply Forall_impl; [apply scan_all_shape |].
  intros tok [? ?]. split; [by apply token_shape_wf | done].
Qed.

(** C18.  Round trip: the literals of printable tokens, written with one
    space between them, are read back by [Tokenize] as the same tokens,
    kinds included. *)
Theorem Tokenize_print toks :
  Forall printable toks → len (print_tokens toks) + 1 < max_int →
  Tokenize (print_tokens toks) = Ok toks.
Proof.
  intros Hp Hlen. rewrite Tokenize_scan by done.
  by rewrite scan_all_print_tokens.
Qed.

(** Printing is a normal form on ASCII input: the tokens of an input,
    printed and read again, are the same tokens.  The printed text is at most
    twice as long as the input, which the bound accounts for. *)
Theorem Tokenize_canonical s :
  str_forallb is_ascii s = true → 2 * len s + 1 < max_int →
  ∃ toks, Tokenize s = Ok toks ∧ Tokenize (print_tokens toks) = Ok toks.
Proof.
  intros Ha Hlen. pose proof (len_nonneg s).
  pose proof (print_tokens_scan_all_length s Ha).
  exists (scan_all s). rewrite !Tokenize_scan by lia. split; [done |].
  by rewrite scan_all_print_tokens by (by apply scan_all_printable).
Qed.

(** C27.  A zero byte ends the input: the tokens of an input with a zero
    byte in it are the tokens of what comes before the first such byte, and
    nothing of what follows it is ever read. *)
Theorem Tokenize_NUL_truncates x y :
  len (x +:+ String NUL y) + 1 < max_int →
  Tokenize (x +:+ String NUL y) = Ok (scan_all x) ∧
  Tokenize x = Ok (scan_all x).
Proof.
  intros Hlen. pose proof (len_nonneg y).
  rewrite len_app, len_cons in Hlen.
  rewrite !Tokenize_scan by (rewrite ?len_app, ?len_cons; lia).
  by rewrite scan_all_app_NUL.
Qed.

(** C19.  [NextToken] and the rules: on a lexer that has the invariant
    and whose [nextCharPosition] is below the largest [int], a token and a remaining input are derivable by the rules of [next_token]
    from what is left to scan exactly when [NextToken] returns that token
    and leaves that input. *)
Theorem NextToken_next_token lexer tok r :
  lexer_inv lexer → nextCharPosition lexer < max_int →
  next_token (rest lexer) tok r ↔
  ∃ lexer', NextToken lexer = Ok (tok, lexer') ∧ rest lexer' = r.
Proof.
  intros Hinv Hnext. rewrite next_token_iff, NextToken_inv_scan by done.
  destruct Hinv as (_ & Hpos & _).
  pose proof (rest_at_scan (input lexer) _ Hpos) as Hr.
  fold (rest lexer) in Hr. fold (after_scan (rest lexer)) in Hr. split.
  - intros [<- <-]. eexists. split; [done |]. by rewrite rest_lexer_at.
  - intros (lexer' & [= <- <-] & <-). by rewrite rest_lexer_at.
Qed.

(** [Tokenize] and the rules: the pass returns a list of tokens
    exactly when the rules of [tokens] derive it from the input. *)
Theorem Tokenize_tokens s toks :
  len s + 1 < max_int → Tokenize s = Ok toks ↔ tokens s toks.
Proof.
  intros Hlen. rewrite Tokenize_scan, tokens_iff by done.
  split; [by intros [= ->] | by intros ->].
Qed.

(** C26.  Nothing is lost and nothing is made up: on every input, ASCII or
    not, the bytes the tokens of a pass stand for (their literals, the
    literal of an [ILLEGAL] token decoded from UTF-8), one after the other,
    are the input before its first zero byte without the spaces, tabs,
    newlines and carriage returns. *)
Theorem Tokenize_bytes s :
  len s + 1 < max_int →
  ∃ toks,
    Tokenize s = Ok toks ∧
    str_concat (token_bytes <$> toks) =
      str_filter not_whitespace (before_NUL s).
Proof.
  intros Hlen. exists (scan_all s). split; [by apply Tokenize_scan |].
  apply scan_all_bytes.
Qed.

(** C25.  Tokens and layout: on an ASCII input without zero bytes, a pass
    returns [toks] exactly when the input is [toks] laid out: the literals in
    order, any whitespace before each and at the end, and no lexeme followed
    by a byte that would be read as part of it.  A layout of tokens is read
    back as these tokens whatever the input holds otherwise. *)
Theorem Tokenize_layout s toks :
  str_forallb is_ascii s = true → str_forallb not_NUL s = true →
  len s + 1 < max_int →
  Tokenize s = Ok toks ↔
  ∃ l tail, s = render l tail ∧ l.*2 = toks ∧ layout_ok l tail.
Proof.
  intros Ha Hn Hlen. rewrite Tokenize_scan, <- scan_all_layout by done.
  split; [by intros [= ->] | by intros ->].
Qed.

End tokenizer.

(** ** The theorems at concrete inputs *)

Section witnesses.
#[local] Existing Instance word64.
#[local] Existing Instance token_classifier.

Lemma collect_refines_scan_all_witness :
  collect 10 (lexer_at "let five = 5;" 3) =
    Ok (scan_all (rest (lexer_at "let five = 5;" 3))).
Proof.
  exact (collect_refines_scan_all 10 (lexer_at "let five = 5;" 3)
    ltac:(solve_lexer_inv) ltac:(by vm_compute) ltac:(vm_compute; lia)).
Defined.

Lemma Tokenize_NextTokens_witness :
  ∃ toks lexer lexer',
    Tokenize "x = 5;" = Ok toks ∧ New "x = 5;" = Ok lexer ∧
    NextTokens (S (length toks)) lexer = Ok (toks ++ [eof_token], lexer') ∧
    Forall (λ tok, Type_ tok ≠ EOF) toks.
Proof. exact (Tokenize_NextTokens "x = 5;" ltac:(by vm_compute)). Defined.

Lemma Tokenize_tokens_wf_witness :
  ∃ toks,
    Tokenize "x = 5;" = Ok toks ∧
    Forall (λ tok, token_wf tok ∧ Type_ tok ≠ EOF) toks ∧
    (length toks ≤ 6)%nat.
Proof. exact (Tokenize_tokens_wf "x = 5;" ltac:(by vm_compute)). Defined.

Lemma let_x_printable : Forall printable let_x.
Proof.
  unfold let_x.
  repeat apply List.Forall_cons; [.. | apply List.Forall_nil];
    (split; [| by split]).
  - exact (shape_word "let" ltac:(done) ltac:(done)).
  - exact (shape_word "x" ltac:(done) ltac:(done)).
  - exact (shape_punctuation "=" ASSIGN ltac:(done)).
  - exact (shape_int "5" ltac:(done) ltac:(done)).
  - exact (shape_punctuation ";" SEMICOLON ltac:(done)).
Qed.

Lemma Tokenize_print_witness : Tokenize "let x = 5 ;" = Ok let_x.
Proof.
  exact (Tokenize_print let_x let_x_printable ltac:(by vm_compute)).
Defined.

Lemma Tokenize_canonical_witness :
  ∃ toks,
    Tokenize "let  x=5;" = Ok toks ∧ Tokenize (print_tokens toks) = Ok toks.
Proof.
  exact (Tokenize_canonical "let  x=5;" ltac:(done) ltac:(by vm_compute)).
Defined.

Lemma Tokenize_NUL_truncates_witness :
  Tokenize ("x" +:+ String NUL "= 5;") = Ok (scan_all "x") ∧
  Tokenize "x" = Ok (scan_all "x").
Proof.
  exact (Tokenize_NUL_truncates "x" "= 5;" ltac:(by vm_compute)).
Defined.

Lemma NextToken_next_token_witness :
  next_token " five = 5;" {| Type_ := IDENT; Literal := "five" |} " = 5;" ↔
  ∃ lexer',
    NextToken (lexer_at "let five = 5;" 3) =
      Ok ({| Type_ := IDENT; Literal := "five" |}, lexer') ∧
    rest lexer' = " = 5;".
Proof.
  exact (NextToken_next_token (lexer_at "let five = 5;" 3)
    {| Type_ := IDENT; Literal := "five" |} " = 5;"
    ltac:(solve_lexer_inv) ltac:(by vm_compute)).
Defined.

(** The input [x = ] followed by the byte 233, a space and [;]. *)
Lemma Tokenize_bytes_witness :
  ∃ toks,
    Tokenize ("x = " +:+ String "233" " ;") = Ok toks ∧
    str_concat (token_bytes <$> toks) =
      str_filter not_whitespace (before_NUL ("x = " +:+ String "233" " ;")).
Proof.
  exact (Tokenize_bytes ("x = " +:+ String "233" " ;") ltac:(by vm_compute)).
Defined.

Lemma Tokenize_layout_witness :
  Tokenize "let  x=5;" = Ok let_x ↔
  ∃ l tail, "let  x=5;" = render l tail ∧ l.*2 = let_x ∧ layout_ok l tail.
Proof.
  exact (Tokenize_layout "let  x=5;" let_x
    ltac:(done) ltac:(done) ltac:(by vm_compute)).
Defined.

Lemma Tokenize_tokens_witness :
  Tokenize "let x = 5 ;" = Ok let_x ↔ tokens "let x = 5 ;" let_x.
Proof.
  exact (Tokenize_tokens "let x = 5 ;" let_x ltac:(by vm_compute)).
Defined.

End witnesses.
