(* ===== verification/TokenizerLines.v ===== *)
(** * A caller that reads its input line by line

    A host program need not hold its whole input: the read-eval-print loop
    of an interpreter makes a lexer for every line it reads.  [unlines] is
    the input as one string, each line followed by a newline, and
    [TokenizeLines] the caller that makes one pass per line, each with a
    lexer of its own, and appends the tokens.

    The file proves that the specification is compositional at whitespace
    ([scan_all_app_sep]: the tokens of [x], whitespace, [y] are the tokens
    of [x] followed by those of [y], when [x] holds no zero byte), and from
    it that the passes over the lines return the tokens of one pass over
    the whole input.  A zero byte in a line breaks this: the pass over the
    whole input stops there, the passes over the lines go on with the next
    line. *)

From Stdlib Require Import ZArith Ascii String List Lia.
From stdpp Require Import base tactics option list strings.
From S2P Require Import Prelude StrSeq GoRuntime Chars Token Lexer Scan ScanSeq.
From S2P Require Import ScanAll LexerInv Refinement Tokenizer.

#[local] Open Scope Z_scope.

(** The lines of an input as one string: each line and a newline. *)
Fixpoint unlines (lines : list string) : string :=
  match lines with
  | [] => ""
  | line :: lines => line +:+ String "010" (unlines lines)
  end.

(** A line holds no zero byte. *)
Definition NUL_free (line : string) : Prop := str_forallb not_NUL line = true.

#[export] Instance NUL_free_dec line : Decision (NUL_free line).
Proof. unfold NUL_free. apply _. Defined.

Section lines.
Context {sz : IntSize} {classifier : Classifier}.
Implicit Types (x y w line : string) (lines : list string)
  (toks : list Token).

(** [for each line { lexer := New(line); tokens = append(tokens, <the tokens
    of lexer up to EOF>...) }]: a pass per line. *)
Fixpoint TokenizeLines (lines : list string) : result (list Token) :=
  match lines with
  | [] => Ok []
  | line :: lines =>
      toks ← Tokenize line;
      rest ← TokenizeLines lines;
      Ok (toks ++ rest)
  end.

(** ** The specification at whitespace *)

(** Nothing that starts with whitespace makes a token longer. *)
Lemma no_longer_sep w y :
  w ≠ "" → str_forallb isWhitespace w = true → no_longer "" (w +:+ y).
Proof.
  destruct w as [|c w]; [done |]. str_simpl. intros _ [Hc _]%andb_prop.
  split; simpl; intros H;
    [apply isWhitespace_not_letter in Hc
    | apply isWhitespace_not_digit in Hc]; congruence.
Qed.

(** A token of [x] is the same token when whitespace follows [x]. *)
Lemma scan_app_sep x w y :
  Type_ (fst (scan x)) ≠ EOF → w ≠ "" → str_forallb isWhitespace w = true →
  scan (x +:+ w +:+ y) = scan x.
Proof.
  intros Hx Hne Hw. pose proof (scan_bound x Hx). pose proof (scan_progress x).
  destruct (str_split_at x (snd (scan x))) as (x1 & x2 & -> & H1); [lia |].
  rewrite str_app_assoc. rewrite <- (str_app_nil_r x2) at 2.
  rewrite <- (str_app_nil_r x2) in H1.
  apply scan_app_local; [done |]. by apply no_longer_app, no_longer_sep.
Qed.

(** The tokens of [x], whitespace, [y]: those of [x], then those of [y]. *)
Lemma scan_all_app_sep x w y :
  NUL_free x → w ≠ "" → str_forallb isWhitespace w = true →
  scan_all (x +:+ w +:+ y) = scan_all x ++ scan_all y.
Proof.
  intros Hx Hne Hw. revert Hx.
  induction x as [x Heof | x Hx IH] using scan_all_ind; intros Hnul.
  - destruct (scan_eof_whitespace x Hnul Heof) as [Hxw _].
    by rewrite (scan_all_eof x Heof), !scan_all_whitespace.
  - pose proof (scan_bound x Hx). pose proof (scan_progress x).
    rewrite (scan_all_eq x), (scan_all_eq (x +:+ _)), scan_app_sep by done.
    rewrite !decide_False by done. cbn [app]. f_equal.
    rewrite str_drop_app_le by (unfold len in *; lia).
    apply IH. by apply str_forallb_drop.
Qed.

(** The tokens of the lines of an input. *)
Lemma scan_all_unlines lines :
  Forall NUL_free lines →
  scan_all (unlines lines) = mjoin (scan_all <$> lines).
Proof.
  induction 1 as [|line lines Hline _ IH]; [apply scan_all_nil |].
  cbn [unlines fmap list_fmap mjoin list_join].
  change (String "010" (unlines lines))
    with (String "010" "" +:+ unlines lines).
  rewrite (scan_all_app_sep line (String "010" "")) by done.
  by rewrite IH.
Qed.

(** ** The passes *)

Lemma len_unlines_cons line lines :
  len (unlines (line :: lines)) = len line + 1 + len (unlines lines).
Proof. cbn [unlines]. rewrite len_app, len_cons. lia. Qed.

(** A pass per line returns the tokens of every line. *)
Lemma TokenizeLines_scan lines :
  len (unlines lines) + 1 < max_int →
  TokenizeLines lines = Ok (mjoin (scan_all <$> lines)).
Proof.
  induction lines as [|line lines IH]; [done |].
  rewrite len_unlines_cons. pose proof (len_nonneg line).
  pose proof (len_nonneg (unlines lines)). intros Hlen.
  cbn [TokenizeLines]. rewrite Tokenize_scan, IH by lia. done.
Qed.

(** ** The theorem *)

(** C28.  Line by line or all at once: a caller that makes a pass, with a
    lexer of its own, over every line of an input receives the tokens that
    one pass over the whole input returns, when no line holds a zero
    byte. *)
Theorem Tokenize_lines lines :
  Forall NUL_free lines → len (unlines lines) + 1 < max_int →
  TokenizeLines lines = Tokenize (unlines lines).
Proof.
  intros Hlines Hlen.
  by rewrite TokenizeLines_scan, Tokenize_scan, scan_all_unlines.
Qed.

End lines.

(** ** The theorem on concrete lines *)

Section witnesses.
#[local] Existing Instance word64.
#[local] Existing Instance token_classifier.

Lemma Tokenize_lines_witness :
  TokenizeLines ["let x"; "= 5;"] = Tokenize (unlines ["let x"; "= 5;"]).
Proof.
  exact (Tokenize_lines ["let x"; "= 5;"] ltac:(by repeat constructor)
    ltac:(by vm_compute)).
Defined.

(** The hypothesis is needed: after a zero byte in the first line the pass
    over the whole input returns nothing more, the passes over the lines
    return the tokens of the second line. *)
Example Tokenize_lines_NUL :
  TokenizeLines [String NUL ""; "x"] = Ok [ {| Type_ := IDENT; Literal := "x" |} ] ∧
  Tokenize (unlines [String NUL ""; "x"]) = Ok [].
Proof. by vm_compute. Qed.

End witnesses.
