(* ===== verification/LexerHeap.v ===== *)
(** * The lexer behind a pointer: model of src/lexer/lexer.go with a heap

    [New] returns a [*Lexer] and every method has a pointer receiver: the
    lexer is an object in memory, which its methods read and write through
    the pointer and which two parts of a program may share.  This file
    models that: a heap that maps pointers to [Lexer] structs, computations
    [go A] that read and change the heap and may panic, and under the names
    [ptr_New], [ptr_readChar], ... the functions of lexer.go statement by
    statement, every field
    access a [load] through the pointer and every assignment a [store].

    [serve] is a sequence of calls of [NextToken] by several callers, each
    through a pointer of its choice, one call after the other.

    The file holds definitions only.  [HeapLemmas] proves that the
    functions [ptr_...] compute what the functions of [Lexer] compute on the
    struct the pointer points to, and leave the rest of the heap alone. *)

From Stdlib Require Import ZArith Ascii String List.
From stdpp Require Import base tactics option list strings countable gmap.
From S2P Require Import Prelude GoRuntime Chars Token Lexer.

Local Open Scope Z_scope.

(** A pointer to a lexer, [*Lexer]. *)
Record ptr : Set := Ptr_ { ptr_car : positive }.

#[export] Instance ptr_eq_dec : EqDecision ptr.
Proof. solve_decision. Defined.

#[export] Instance ptr_countable : Countable ptr.
Proof. by apply (inj_countable' ptr_car Ptr_); intros []. Defined.

#[export] Program Instance ptr_infinite : Infinite ptr :=
  inj_infinite Ptr_ (λ p, Some (ptr_car p)) _.
Next Obligation. done. Qed.

(** The lexers in memory. *)
Abbreviation heap := (gmap ptr Lexer).

(** A computation that reads and changes the heap and may panic. *)
Definition go (A : Type) : Type := heap → result (A * heap).

#[export] Instance go_ret : MRet go := λ A a h, Ok (a, h).

#[export] Instance go_bind : MBind go := λ A B f m h,
  match m h with
  | Ok (a, h') => f a h'
  | Panic p => Panic p
  end.

(** A computation that does not touch the heap. *)
Definition lift {A} (m : result A) : go A := λ h,
  match m with
  | Ok a => Ok (a, h)
  | Panic p => Panic p
  end.

(** [&Lexer{...}]: a new object, at a pointer that was not in use. *)
Definition alloc (l : Lexer) : go ptr := λ h,
  let p := fresh (dom h) in Ok (p, <[p := l]> h).

(** Reading the struct a pointer points to ([lexer.field]). *)
Definition load (p : ptr) : go Lexer := λ h,
  match h !! p with
  | Some l => Ok (l, h)
  | None => Panic NilDereference
  end.

(** Writing it ([lexer.field = v]). *)
Definition store (p : ptr) (l : Lexer) : go unit := λ h,
  match h !! p with
  | Some _ => Ok (tt, <[p := l]> h)
  | None => Panic NilDereference
  end.

(** The struct with one field changed. *)
Definition with_currentChar (ch : ascii) (l : Lexer) : Lexer :=
  {| input := input l; currentChar := ch;
     currentPosition := currentPosition l;
     nextCharPosition := nextCharPosition l |}.

Definition with_currentPosition (pos : Z) (l : Lexer) : Lexer :=
  {| input := input l; currentChar := currentChar l;
     currentPosition := pos;
     nextCharPosition := nextCharPosition l |}.

Definition with_nextCharPosition (pos : Z) (l : Lexer) : Lexer :=
  {| input := input l; currentChar := currentChar l;
     currentPosition := currentPosition l;
     nextCharPosition := pos |}.

Section methods.
Context {sz : IntSize} {classifier : Classifier}.

(** [func (lexer *Lexer) readChar()]: three assignments through the
    pointer. *)
Definition ptr_readChar (lexer : ptr) : go unit :=
  l ← load lexer;
  ch ← (if decide (nextCharPosition l >= len (input l)) then mret NUL
        else lift (index (input l) (nextCharPosition l)));
  store lexer (with_currentChar ch l);;
  l ← load lexer;
  store lexer (with_currentPosition (nextCharPosition l) l);;
  l ← load lexer;
  store lexer (with_nextCharPosition (int_add (nextCharPosition l) 1) l).

(** [func New(input string) *Lexer] *)
Definition ptr_New (input : string) : go ptr :=
  lexer ← alloc {| input := input;
                   currentPosition := 0;
                   nextCharPosition := 0;
                   currentChar := NUL |};
  ptr_readChar lexer;;
  mret lexer.

(** [for cond(lexer.currentChar) { lexer.readChar() }] *)
Fixpoint ptr_readWhile (cond : ascii → bool) (fuel : nat) (lexer : ptr)
    : go unit :=
  l ← load lexer;
  if cond (currentChar l) then
    match fuel with
    | O => lift (Panic OutOfFuel)
    | S fuel => ptr_readChar lexer;; ptr_readWhile cond fuel lexer
    end
  else mret tt.

(** [func (lexer *Lexer) skipWhitespace()] *)
Definition ptr_skipWhitespace (lexer : ptr) : go unit :=
  l ← load lexer;
  ptr_readWhile isWhitespace (loop_fuel l) lexer.

(** [func (lexer *Lexer) readIdentifier() string] *)
Definition ptr_readIdentifier (lexer : ptr) : go string :=
  l ← load lexer;
  let startPosition := currentPosition l in
  ptr_readWhile isLetter (loop_fuel l) lexer;;
  l ← load lexer;
  let endPosition := currentPosition l in
  lift (slice (input l) startPosition endPosition).

(** [func (lexer *Lexer) readDigit() string] *)
Definition ptr_readDigit (lexer : ptr) : go string :=
  l ← load lexer;
  let startPosition := currentPosition l in
  ptr_readWhile isDigit (loop_fuel l) lexer;;
  l ← load lexer;
  let endPosition := currentPosition l in
  lift (slice (input l) startPosition endPosition).

(** [func (lexer *Lexer) NextToken() token.Token] *)
Definition ptr_NextToken (lexer : ptr) : go Token :=
  ptr_skipWhitespace lexer;;
  l ← load lexer;
  let advance (tok : Token) : go Token := ptr_readChar lexer;; mret tok in
  let ch := currentChar l in
  if (ch =? "=")%char then advance (newToken ASSIGN ch)
  else if (ch =? ";")%char then advance (newToken SEMICOLON ch)
  else if (ch =? "(")%char then advance (newToken LPAREN ch)
  else if (ch =? ")")%char then advance (newToken RPAREN ch)
  else if (ch =? "{")%char then advance (newToken LBRACE ch)
  else if (ch =? "}")%char then advance (newToken RBRACE ch)
  else if (ch =? ",")%char then advance (newToken COMMA ch)
  else if (ch =? "+")%char then advance (newToken PLUS ch)
  else if (ch =? NUL)%char then advance {| Literal := ""; Type_ := EOF |}
  else if isLetter ch then
    identifier ← ptr_readIdentifier lexer;
    mret {| Literal := identifier; Type_ := classify identifier |}
  else if isDigit ch then
    digit ← ptr_readDigit lexer;
    mret {| Literal := digit; Type_ := INT |}
  else advance (newToken ILLEGAL ch).

End methods.

(** ** Callers *)

Section callers.
Context {sz : IntSize} {classifier : Classifier}.

(** Calls of [NextToken] made one after the other, each through the pointer
    given, and the token each returned. *)
Fixpoint serve (calls : list ptr) : go (list Token) :=
  match calls with
  | [] => mret []
  | lexer :: calls =>
      tok ← ptr_NextToken lexer;
      toks ← serve calls;
      mret (tok :: toks)
  end.

End callers.

(** The tokens returned to the calls that satisfy [P]. *)
Fixpoint pick {A} (P : A → bool) (calls : list A) (toks : list Token)
    : list Token :=
  match calls, toks with
  | c :: calls, tok :: toks =>
      if P c then tok :: pick P calls toks else pick P calls toks
  | _, _ => []
  end.

(** The number of calls that satisfy [P]. *)
Fixpoint count {A} (P : A → bool) (calls : list A) : nat :=
  match calls with
  | [] => 0
  | c :: calls => if P c then S (count P calls) else count P calls
  end.

(** The calls through the pointer [p]. *)
Definition through (p : ptr) (q : ptr) : bool := bool_decide (q = p).

(** The calls of two callers in the order [sched] gives: a call of caller
    0, through [p0], where it says [false], and a call of caller 1, through
    [p1], where it says [true]. *)
Definition schedule (p0 p1 : ptr) (sched : list bool) : list ptr :=
  (λ b : bool, if b then p1 else p0) <$> sched.

Section passes.
Context {sz : IntSize} {classifier : Classifier}.

(** Two callers, each with a lexer of its own, on [s0] and on [s1], whose
    calls come in the order [sched]: the tokens each caller receives. *)
Definition two_passes (s0 s1 : string) (sched : list bool)
    : go (list Token * list Token) :=
  p0 ← ptr_New s0;
  p1 ← ptr_New s1;
  toks ← serve (schedule p0 p1 sched);
  mret (pick negb sched toks, pick id sched toks).

(** Two callers that share one lexer on [s]. *)
Definition shared_pass (s : string) (sched : list bool)
    : go (list Token * list Token) :=
  p ← ptr_New s;
  toks ← serve (schedule p p sched);
  mret (pick negb sched toks, pick id sched toks).

End passes.
