(* ===== verification/HeapLemmas.v ===== *)
(** * The pointer methods compute what the functions on structs compute

    [implements m p f]: run on a heap where the pointer [p] points to a
    lexer [l], the computation [m] returns what the function [f] returns on
    [l], stores the lexer that [f] returns at [p], leaves every other object
    of the heap as it was, and panics when [f] does.  The predicate composes
    along the monad, which gives the refinement method by method, from
    [readChar] up to [NextToken]. *)

From Stdlib Require Import ZArith Ascii String List Lia.
From stdpp Require Import base tactics option list strings countable gmap.
From S2P Require Import Prelude GoRuntime Chars Token Lexer LexerHeap.

Local Open Scope Z_scope.

(** What [f] says the heap computation at [p] does, from the heap [h] with
    the lexer [l] at [p]. *)
Definition outcome_at {A} (p : ptr) (h : heap)
    (r : result (A * Lexer)) : result (A * heap) :=
  match r with
  | Ok (a, l') => Ok (a, <[p := l']> h)
  | Panic e => Panic e
  end.

Definition implements {A} (m : go A) (p : ptr)
    (f : Lexer → result (A * Lexer)) : Prop :=
  ∀ h l, h !! p = Some l → m h = outcome_at p h (f l).

Section implements.
Context {A B : Type}.
Implicit Types (p : ptr) (h : heap) (l : Lexer).

Lemma implements_ext (m : go A) p f g :
  implements m p f → (∀ l, f l = g l) → implements m p g.
Proof. intros Hm Hfg h l Hl. rewrite <- Hfg. by apply Hm. Qed.

Lemma implements_ret (a : A) p : implements (mret a) p (λ l, Ok (a, l)).
Proof. intros h l Hl. simpl. by rewrite insert_id. Qed.

Lemma implements_lift (m : result A) p :
  implements (lift m) p (λ l, a ← m; Ok (a, l)).
Proof.
  intros h l Hl. unfold lift. destruct m; simpl; [| done].
  by rewrite insert_id.
Qed.

Lemma implements_bind (m : go A) (k : A → go B) p f g :
  implements m p f → (∀ a, implements (k a) p (g a)) →
  implements (m ≫= k) p (λ l, '(a, l') ← f l; g a l').
Proof.
  intros Hm Hk h l Hl. unfold mbind at 1, go_bind. rewrite (Hm h l Hl).
  destruct (f l) as [[a l']|]; simpl; [| done].
  rewrite (Hk a (<[p:=l']> h) l') by apply lookup_insert_eq.
  destruct (g a l') as [[b l'']|]; simpl; [| done].
  by rewrite insert_insert_eq.
Qed.

Lemma implements_if (b : bool) (m1 m2 : go A) p f1 f2 :
  implements m1 p f1 → implements m2 p f2 →
  implements (if b then m1 else m2) p (if b then f1 else f2).
Proof. by destruct b. Qed.

Lemma implements_if_dec `(d : Decision P) (m1 m2 : go A) p f1 f2 :
  implements m1 p f1 → implements m2 p f2 →
  implements (if d then m1 else m2) p (if d then f1 else f2).
Proof. by destruct d. Qed.

End implements.

Lemma implements_load p : implements (load p) p (λ l, Ok (l, l)).
Proof. intros h l Hl. unfold load. rewrite Hl. simpl. by rewrite insert_id. Qed.

Lemma implements_store p l' : implements (store p l') p (λ _, Ok (tt, l')).
Proof. intros h l Hl. unfold store. by rewrite Hl. Qed.

(** The rest of the heap: a computation that implements a function at [p]
    leaves the objects at other pointers alone and allocates nothing. *)
Lemma implements_frame {A} (m : go A) p f h l a h' q :
  implements m p f → h !! p = Some l → m h = Ok (a, h') →
  q ≠ p → h' !! q = h !! q.
Proof.
  intros Hm Hl. rewrite (Hm h l Hl). destruct (f l) as [[a' l']|]; [| done].
  intros [= _ <-] Hq. by apply lookup_insert_ne.
Qed.

Lemma implements_run {A} (m : go A) p f h l a h' :
  implements m p f → h !! p = Some l → m h = Ok (a, h') →
  ∃ l', f l = Ok (a, l') ∧ h' = <[p := l']> h.
Proof.
  intros Hm Hl. rewrite (Hm h l Hl). destruct (f l) as [[a' l']|]; [| done].
  intros [= <- <-]. by exists l'.
Qed.

(** ** The methods *)

Section methods.
Context {sz : IntSize} {classifier : Classifier}.
Implicit Types (p : ptr) (h : heap) (l : Lexer) (cond : ascii → bool)
  (fuel : nat).

Lemma implements_readChar p :
  implements (ptr_readChar p) p (λ l, l' ← readChar l; Ok (tt, l')).
Proof.
  unfold ptr_readChar. eapply implements_ext.
  { apply implements_bind; [apply implements_load |]. intros l.
    apply implements_bind.
    { apply implements_if_dec; [apply implements_ret | apply implements_lift]. }
    intros ch. apply implements_bind; [apply implements_store |]. intros ?.
    apply implements_bind; [apply implements_load |]. intros l1.
    apply implements_bind; [apply implements_store |]. intros ?.
    apply implements_bind; [apply implements_load |]. intros l2.
    apply implements_store. }
  intros l. unfold readChar. simpl. case_decide; simpl; [done |].
  by destruct (index _ _).
Qed.

Lemma implements_readWhile cond fuel p :
  implements (ptr_readWhile cond fuel p) p
    (λ l, l' ← readWhile cond fuel l; Ok (tt, l')).
Proof.
  induction fuel as [|fuel IH]; simpl; eapply implements_ext.
  - apply implements_bind; [apply implements_load |]. intros l.
    apply implements_if; [apply implements_lift | apply implements_ret].
  - intros l. simpl. by destruct (cond _).
  - apply implements_bind; [apply implements_load |]. intros l.
    apply implements_if; [| apply implements_ret].
    apply implements_bind; [apply implements_readChar |]. intros ?. apply IH.
  - intros l. simpl. destruct (cond _); [| done].
    destruct (readChar l); simpl; [| done]. by destruct (readWhile _ _ _).
Qed.

Lemma implements_skipWhitespace p :
  implements (ptr_skipWhitespace p) p
    (λ l, l' ← skipWhitespace l; Ok (tt, l')).
Proof.
  unfold ptr_skipWhitespace. eapply implements_ext.
  { apply implements_bind; [apply implements_load |]. intros l.
    apply implements_readWhile. }
  done.
Qed.

(** The two scanning methods have one shape. *)
Lemma implements_read cond p :
  implements
    (l ← load p;
     let startPosition := currentPosition l in
     ptr_readWhile cond (loop_fuel l) p;;
     l ← load p;
     let endPosition := currentPosition l in
     lift (slice (input l) startPosition endPosition)) p
    (λ l,
     let startPosition := currentPosition l in
     lexer ← readWhile cond (loop_fuel l) l;
     let endPosition := currentPosition lexer in
     w ← slice (input lexer) startPosition endPosition;
     Ok (w, lexer)).
Proof.
  eapply implements_ext.
  { apply implements_bind; [apply implements_load |]. intros l.
    apply implements_bind; [apply implements_readWhile |]. intros ?.
    apply implements_bind; [apply implements_load |]. intros l1.
    apply implements_lift. }
  intros l. cbn -[readWhile loop_fuel slice].
  destruct (readWhile _ _ _) as [l1|]; cbn -[slice]; [| done].
  by destruct (slice _ _ _).
Qed.

Lemma implements_readIdentifier p :
  implements (ptr_readIdentifier p) p readIdentifier.
Proof. apply implements_read. Qed.

Lemma implements_readDigit p : implements (ptr_readDigit p) p readDigit.
Proof. apply implements_read. Qed.

Lemma implements_advance p (tok : Token) :
  implements (ptr_readChar p;; mret tok) p
    (λ l, lexer ← readChar l; Ok (tok, lexer)).
Proof.
  eapply implements_ext.
  { apply implements_bind; [apply implements_readChar |]. intros ?.
    apply implements_ret. }
  intros l. simpl. by destruct (readChar l).
Qed.

Lemma implements_NextToken p : implements (ptr_NextToken p) p NextToken.
Proof.
  unfold ptr_NextToken. eapply implements_ext.
  { apply implements_bind; [apply implements_skipWhitespace |]. intros ?.
    apply implements_bind; [apply implements_load |]. intros l. cbv zeta.
    repeat (apply implements_if; [apply implements_advance |]).
    apply implements_if.
    { apply implements_bind; [apply implements_readIdentifier |].
      intros identifier. apply implements_ret. }
    apply implements_if; [| apply implements_advance].
    apply implements_bind; [apply implements_readDigit |].
    intros digit. apply implements_ret. }
  intros l. unfold NextToken. simpl.
  destruct (skipWhitespace l) as [l1|]; simpl; [| done].
  by repeat case_bool.
Qed.

(** [New] allocates: the lexer it makes is at a pointer that was not in
    use, and is the one [Lexer.New] returns. *)
Lemma New_run (s : string) h :
  ptr_New s h =
    match New s with
    | Ok l => Ok (fresh (dom h), <[fresh (dom h) := l]> h)
    | Panic e => Panic e
    end.
Proof.
  unfold ptr_New, New, alloc. unfold mbind at 1, go_bind.
  set (p := fresh (dom h)). set (l0 := Build_Lexer _ _ _ _).
  unfold mbind at 1, go_bind.
  rewrite (implements_readChar p (<[p:=l0]> h) l0)
    by apply lookup_insert_eq.
  destruct (readChar l0) as [l|]; simpl; [| done].
  by rewrite insert_insert_eq.
Qed.

End methods.
