(* ===== verification/HeapCorrect.v ===== *)
(** * Lexers in memory: refinement, allocation, independence and sharing

    The theorems on the heap model of [LexerHeap]: every method through a
    pointer implements the function of [Lexer] on the struct the pointer
    points to; [New] allocates; the calls made through one pointer see the
    tokens of that lexer whatever is done through other pointers in
    between, so two passes that each have a lexer of their own do not
    disturb each other; two callers that share a lexer share its tokens, and
    neither receives the tokens of the input. *)

From Stdlib Require Import ZArith Ascii String List Lia.
From stdpp Require Import base tactics option list strings countable gmap.
From S2P Require Import Prelude StrSeq GoRuntime Chars Token Lexer Scan.
From S2P Require Import LexerInv Refinement LexerHeap HeapLemmas.

Local Open Scope Z_scope.

(** A heap with one lexer, on [let x]: the example of the theorems below. *)
Definition heap_let_x : heap := {[ Ptr_ 1 := lexer_at "let x" 0 ]}.

(** ** Selecting calls *)

Section pick.
Context {A B : Type}.
Implicit Types (P Q : A → bool) (xs : list A) (toks : list Token).

Lemma pick_ext P Q xs toks :
  (∀ x, P x = Q x) → pick P xs toks = pick Q xs toks.
Proof.
  intros H. revert toks. induction xs as [|x xs IH]; intros [|tok toks];
    simpl; try done. by rewrite H, IH.
Qed.

Lemma count_ext P Q xs : (∀ x, P x = Q x) → count P xs = count Q xs.
Proof.
  intros H. induction xs as [|x xs IH]; simpl; [done |]. by rewrite H, IH.
Qed.

Lemma pick_fmap (f : B → A) P (ys : list B) toks :
  pick P (f <$> ys) toks = pick (P ∘ f) ys toks.
Proof.
  revert toks. induction ys as [|y ys IH]; intros [|tok toks]; simpl;
    try done. by rewrite IH.
Qed.

Lemma count_fmap (f : B → A) P (ys : list B) :
  count P (f <$> ys) = count (P ∘ f) ys.
Proof.
  induction ys as [|y ys IH]; [done |].
  rewrite fmap_cons. cbn [count]. by rewrite IH.
Qed.

Lemma pick_all P xs toks :
  (∀ x, P x = true) → length toks = length xs → pick P xs toks = toks.
Proof.
  intros H. revert toks. induction xs as [|x xs IH]; intros [|tok toks];
    simpl; try done. intros [= Hl]. by rewrite H, IH.
Qed.

Lemma count_all P xs : (∀ x, P x = true) → count P xs = length xs.
Proof.
  intros H. induction xs as [|x xs IH]; simpl; [done |]. by rewrite H, IH.
Qed.

Lemma pick_length P xs toks :
  length toks = length xs → length (pick P xs toks) = count P xs.
Proof.
  revert toks. induction xs as [|x xs IH]; intros [|tok toks]; simpl;
    try done. intros [= Hl]. destruct (P x); simpl; by rewrite IH.
Qed.

End pick.

Lemma through_eq p : through p p = true.
Proof. by apply bool_decide_eq_true_2. Qed.

Lemma through_ne p q : q ≠ p → through p q = false.
Proof. intros H. by apply bool_decide_eq_false_2. Qed.

(** ** The calls through each pointer *)

Section serve.
Context {sz : IntSize} {classifier : Classifier}.
Implicit Types (p q : ptr) (h : heap) (l : Lexer) (calls : list ptr)
  (toks : list Token) (s : string) (sched : list bool).

Lemma serve_cons p calls h l :
  h !! p = Some l →
  serve (p :: calls) h =
    '(tok, l') ← NextToken l;
    '(toks, h') ← serve calls (<[p := l']> h);
    Ok (tok :: toks, h').
Proof.
  intros Hl. cbn [serve]. unfold mbind at 1, go_bind.
  rewrite (implements_NextToken p h l Hl).
  destruct (NextToken l) as [[tok l']|]; simpl; [| done].
  unfold mbind at 1, go_bind. by destruct (serve calls _) as [[]|].
Qed.

Lemma NextTokens_S_Ok n l toks l' :
  NextTokens (S n) l = Ok (toks, l') →
  ∃ tok l1 toks1,
    NextToken l = Ok (tok, l1) ∧ NextTokens n l1 = Ok (toks1, l') ∧
    toks = tok :: toks1.
Proof.
  cbn [NextTokens]. destruct (NextToken l) as [[tok l1]|]; simpl; [| done].
  destruct (NextTokens n l1) as [[toks1 l2]|] eqn:E; simpl; [| done].
  intros [= <- <-]. by exists tok, l1, toks1.
Qed.

(** If the calls through each pointer return on the lexer it points to,
    the calls return in any order, and those through a pointer return the
    tokens of its lexer; the heap holds the same objects afterwards, each
    lexer advanced by its own calls. *)
Lemma serve_per_pointer calls h :
  (∀ p, p ∈ calls →
     ∃ l, h !! p = Some l ∧ is_Ok (NextTokens (count (through p) calls) l)) →
  ∃ toks h',
    serve calls h = Ok (toks, h') ∧ length toks = length calls ∧
    ∀ p l, h !! p = Some l →
      ∃ l', NextTokens (count (through p) calls) l =
              Ok (pick (through p) calls toks, l') ∧
            h' !! p = Some l'.
Proof.
  revert h. induction calls as [|q calls IH]; intros h Hcalls.
  { exists [], h. repeat split. intros p l Hl. by exists l. }
  destruct (Hcalls q) as (lq & Hq & Hok); [by left |].
  cbn [count] in Hok. rewrite through_eq in Hok.
  destruct (NextTokens (S _) lq) as [[toksq lq']|] eqn:E; [| done].
  apply NextTokens_S_Ok in E as (tok & l1 & toks1 & E1 & En & ->).
  destruct (IH (<[q := l1]> h)) as (toks & h' & Hs & Hlen & Hp).
  { intros p Hin. destruct (decide (p = q)) as [-> | Hne].
    - exists l1. by rewrite lookup_insert_eq, En.
    - destruct (Hcalls p) as (l & Hl & Hokp); [by right |].
      exists l. rewrite lookup_insert_ne by done. split; [done |].
      cbn [count] in Hokp. by rewrite through_ne in Hokp. }
  exists (tok :: toks), h'. rewrite (serve_cons q calls h lq), E1 by done.
  simpl. rewrite Hs. simpl. split; [done |]. split; [by rewrite Hlen |].
  intros p l Hl. cbn [count pick]. destruct (decide (p = q)) as [-> | Hne].
  - rewrite through_eq. rewrite Hq in Hl. injection Hl as <-.
    destruct (Hp q l1) as (l' & HN & Hh'); [apply lookup_insert_eq |].
    exists l'. cbn [NextTokens]. by rewrite E1; simpl; rewrite HN.
  - rewrite through_ne by done. apply Hp. by rewrite lookup_insert_ne.
Qed.

(** [n] calls on a new lexer return, given room for the positions. *)
Lemma NextTokens_new n s :
  len s + Z.of_nat n + 1 < max_int →
  NextTokens n (lexer_at s 0) =
    Ok (fst (scan_n n s), lexer_at s (snd (scan_n n s))).
Proof.
  intros Hlen. pose proof (scan_n_bound n s). pose proof (len_nonneg s).
  rewrite NextTokens_scan_n; rewrite ?rest_at_0; [done | lia..].
Qed.

(** ** Schedules of two callers *)

Lemma elem_of_schedule p p0 p1 sched :
  p ∈ schedule p0 p1 sched → p = p0 ∨ p = p1.
Proof.
  unfold schedule.
  intros ([] & -> & _)%list_elem_of_fmap; [by right | by left].
Qed.

Lemma schedule_through0 p0 p1 sched toks :
  p0 ≠ p1 →
  pick (through p0) (schedule p0 p1 sched) toks = pick negb sched toks ∧
  count (through p0) (schedule p0 p1 sched) = count negb sched.
Proof.
  intros Hne. unfold schedule. rewrite pick_fmap, count_fmap.
  split; [apply pick_ext | apply count_ext]; intros []; simpl;
    by rewrite ?through_eq, ?through_ne.
Qed.

Lemma schedule_through1 p0 p1 sched toks :
  p0 ≠ p1 →
  pick (through p1) (schedule p0 p1 sched) toks = pick id sched toks ∧
  count (through p1) (schedule p0 p1 sched) = count id sched.
Proof.
  intros Hne. unfold schedule. rewrite pick_fmap, count_fmap.
  split; [apply pick_ext | apply count_ext]; intros []; simpl;
    by rewrite ?through_eq, ?through_ne.
Qed.

Lemma schedule_through_other p p0 p1 sched :
  p ≠ p0 → p ≠ p1 → count (through p) (schedule p0 p1 sched) = 0%nat.
Proof.
  intros H0 H1. unfold schedule. rewrite count_fmap.
  induction sched as [|[] sched IH]; simpl; [done | |];
    by rewrite through_ne.
Qed.

Lemma schedule_shared_count p sched :
  count (through p) (schedule p p sched) = length sched.
Proof.
  unfold schedule. rewrite count_fmap. apply count_all.
  intros []; apply through_eq.
Qed.

Lemma schedule_shared_pick p sched toks :
  length toks = length sched →
  pick (through p) (schedule p p sched) toks = toks.
Proof.
  intros Hlen. unfold schedule. rewrite pick_fmap.
  apply pick_all; [| done]. intros []; apply through_eq.
Qed.

(** A pointer that is in use is not the one [New] returns. *)
Lemma fresh_ne h q l : h !! q = Some l → q ≠ fresh (dom h).
Proof.
  intros Hq ->. apply elem_of_dom_2 in Hq. by apply is_fresh in Hq.
Qed.

(** An object that no call goes through is still there. *)
Lemma serve_untouched calls h toks h' q l :
  (∀ p l, h !! p = Some l →
     ∃ l', NextTokens (count (through p) calls) l =
             Ok (pick (through p) calls toks, l') ∧ h' !! p = Some l') →
  h !! q = Some l → count (through q) calls = 0%nat → h' !! q = Some l.
Proof.
  intros Hp Hq H0. destruct (Hp q l Hq) as (l' & HN & Hh').
  rewrite H0 in HN. by injection HN as _ <-.
Qed.

(** ** The theorems *)

(** C10.  Refinement of the functions on structs by the methods on
    pointers: run on a heap where [p] points to the lexer [l], each method
    of lexer.go returns what the function of [Lexer] returns on [l], leaves
    at [p] the lexer that function returns and every other object as it
    was, and panics when the function does. *)
Theorem Ptr_methods_refine p h l :
  h !! p = Some l →
  ptr_readChar p h = outcome_at p h (l' ← readChar l; Ok (tt, l')) ∧
  ptr_skipWhitespace p h =
    outcome_at p h (l' ← skipWhitespace l; Ok (tt, l')) ∧
  ptr_readIdentifier p h = outcome_at p h (readIdentifier l) ∧
  ptr_readDigit p h = outcome_at p h (readDigit l) ∧
  ptr_NextToken p h = outcome_at p h (NextToken l).
Proof.
  intros Hl. split_and!.
  - by apply implements_readChar.
  - by apply implements_skipWhitespace.
  - by apply implements_readIdentifier.
  - by apply implements_readDigit.
  - by apply implements_NextToken.
Qed.

(** C30.  [New] allocates: it returns a pointer that pointed to nothing,
    which now points to a lexer with the invariant and the whole input left
    to scan; the objects that were in the heap are unchanged. *)
Theorem New_ptr_fresh s h :
  ∃ p, h !! p = None ∧
       ptr_New s h = Ok (p, <[p := lexer_at s 0]> h) ∧
       rest (lexer_at s 0) = s ∧
       ∀ q l, h !! q = Some l → <[p := lexer_at s 0]> h !! q = Some l.
Proof.
  exists (fresh (dom h)). split; [apply not_elem_of_dom, is_fresh |].
  split; [by rewrite New_run, New_at |]. split; [apply rest_at_0 |].
  intros q l Hq. rewrite lookup_insert_ne; [done |].
  apply not_eq_sym. by eapply fresh_ne.
Qed.

(** C29.  A call of [NextToken] through a pointer to a lexer with the
    invariant whose [nextCharPosition] is below the largest [int] returns the token [scan] reads from what that lexer has left,
    leaves a lexer with the invariant there, advanced past the token, and
    touches no other object of the heap. *)
Theorem NextToken_ptr_frame p h l :
  h !! p = Some l → lexer_inv l → nextCharPosition l < max_int →
  ∃ l',
    ptr_NextToken p h = Ok (fst (scan (rest l)), <[p := l']> h) ∧
    lexer_inv l' ∧
    rest l' = str_drop (Z.to_nat (snd (scan (rest l)))) (rest l) ∧
    ∀ q, q ≠ p → <[p := l']> h !! q = h !! q.
Proof.
  intros Hl Hinv Hnext. eexists. split.
  { by rewrite (implements_NextToken p h l Hl), NextToken_inv_scan. }
  split; [by apply NextToken_result_inv |]. split.
  - destruct Hinv as (_ & Hpos & _). rewrite rest_lexer_at.
    by apply rest_at_scan.
  - intros q Hq. by apply lookup_insert_ne.
Qed.

(** C13.  Two passes, each with a lexer of its own, do not disturb each
    other: however the calls of the two callers are interleaved, each
    caller receives the tokens of its own input, in order, and the objects
    that were in the heap before are unchanged. *)
Theorem two_passes_independent s0 s1 sched h :
  len s0 + Z.of_nat (count negb sched) + 1 < max_int →
  len s1 + Z.of_nat (count id sched) + 1 < max_int →
  ∃ h',
    two_passes s0 s1 sched h =
      Ok ((fst (scan_n (count negb sched) s0),
           fst (scan_n (count id sched) s1)), h') ∧
    ∀ q l, h !! q = Some l → h' !! q = Some l.
Proof.
  intros Hlen0 Hlen1. unfold two_passes, mbind, go_bind.
  rewrite New_run, New_at. set (p0 := fresh (dom h)).
  set (h0 := <[p0 := lexer_at s0 0]> h).
  rewrite New_run, New_at. set (p1 := fresh (dom h0)).
  assert (h0 !! p0 = Some (lexer_at s0 0)) as H0 by apply lookup_insert_eq.
  pose proof (fresh_ne _ _ _ H0) as Hne. fold p1 in Hne.
  destruct (serve_per_pointer (schedule p0 p1 sched)
    (<[p1 := lexer_at s1 0]> h0)) as (toks & h' & -> & Hlen & Hp).
  { intros p [-> | ->]%elem_of_schedule; eexists;
      (split; [by rewrite ?lookup_insert_eq, ?lookup_insert_ne |]).
    - by rewrite (proj2 (schedule_through0 _ _ _ [] Hne)), NextTokens_new.
    - by rewrite (proj2 (schedule_through1 _ _ _ [] Hne)), NextTokens_new. }
  destruct (Hp p0 (lexer_at s0 0)) as (l0 & HN0 & _);
    [by rewrite lookup_insert_ne |].
  destruct (Hp p1 (lexer_at s1 0)) as (l1 & HN1 & _);
    [apply lookup_insert_eq |].
  destruct (schedule_through0 p0 p1 sched toks Hne) as [Hp0 Hc0].
  destruct (schedule_through1 p0 p1 sched toks Hne) as [Hp1 Hc1].
  rewrite Hp0, Hc0, NextTokens_new in HN0 by done. injection HN0 as <- _.
  rewrite Hp1, Hc1, NextTokens_new in HN1 by done. injection HN1 as <- _.
  exists h'. split; [done |]. intros q l Hq.
  assert (q ≠ p0) by (by eapply fresh_ne).
  assert (h0 !! q = Some l) as Hq0 by (unfold h0; by rewrite lookup_insert_ne).
  assert (q ≠ p1) by (by eapply fresh_ne).
  eapply serve_untouched; [done | | by apply schedule_through_other].
  by rewrite lookup_insert_ne.
Qed.

(** C14.  Two callers that share one lexer share its tokens: the calls
    return, in the order they are made, the tokens of the input, so each
    caller receives the tokens at the places of its own calls and misses
    those the other received. *)
Theorem shared_pass_splits s sched h :
  len s + Z.of_nat (length sched) + 1 < max_int →
  ∃ h',
    shared_pass s sched h =
      Ok ((pick negb sched (fst (scan_n (length sched) s)),
           pick id sched (fst (scan_n (length sched) s))), h') ∧
    ∀ q l, h !! q = Some l → h' !! q = Some l.
Proof.
  intros Hlen. unfold shared_pass, mbind, go_bind.
  rewrite New_run, New_at. set (p := fresh (dom h)).
  destruct (serve_per_pointer (schedule p p sched)
    (<[p := lexer_at s 0]> h)) as (toks & h' & -> & Hl & Hp).
  { intros q [-> | ->]%elem_of_schedule; eexists;
      (split; [apply lookup_insert_eq |]);
      by rewrite schedule_shared_count, NextTokens_new. }
  unfold schedule in Hl. rewrite length_fmap in Hl.
  destruct (Hp p (lexer_at s 0)) as (l' & HN & _); [apply lookup_insert_eq |].
  rewrite schedule_shared_pick, schedule_shared_count, NextTokens_new in HN
    by done.
  injection HN as <- _.
  exists h'. split; [done |]. intros q l Hq.
  assert (q ≠ p) by (by eapply fresh_ne).
  eapply serve_untouched; [done | | by apply schedule_through_other].
  by rewrite lookup_insert_ne.
Qed.

End serve.

(** ** The theorems at concrete inputs *)

Section witnesses.
#[local] Existing Instance word64.
#[local] Existing Instance token_classifier.

Lemma Ptr_methods_refine_witness :
  ptr_NextToken (Ptr_ 1) heap_let_x =
    outcome_at (Ptr_ 1) heap_let_x (NextToken (lexer_at "let x" 0)).
Proof.
  exact (proj2 (proj2 (proj2 (proj2
    (Ptr_methods_refine (Ptr_ 1) heap_let_x (lexer_at "let x" 0)
       ltac:(by vm_compute)))))).
Defined.

Lemma NextToken_ptr_frame_witness :
  ∃ l',
    ptr_NextToken (Ptr_ 1) heap_let_x =
      Ok (fst (scan "let x"), <[Ptr_ 1 := l']> heap_let_x) ∧
    lexer_inv l' ∧
    rest l' = str_drop (Z.to_nat (snd (scan "let x"))) "let x" ∧
    ∀ q, q ≠ Ptr_ 1 → <[Ptr_ 1 := l']> heap_let_x !! q = heap_let_x !! q.
Proof.
  exact (NextToken_ptr_frame (Ptr_ 1) heap_let_x (lexer_at "let x" 0)
    ltac:(by vm_compute) ltac:(solve_lexer_inv) ltac:(by vm_compute)).
Defined.

(** Caller 0 scans [let x] and caller 1 scans [5;], their calls
    alternating. *)
Lemma two_passes_independent_witness :
  ∃ h',
    two_passes "let x" "5;" [false; true; false; true] ∅ =
      Ok (([ {| Type_ := LET; Literal := "let" |};
             {| Type_ := IDENT; Literal := "x" |} ],
           [ {| Type_ := INT; Literal := "5" |};
             {| Type_ := SEMICOLON; Literal := ";" |} ]), h') ∧
    ∀ q l, (∅ : heap) !! q = Some l → h' !! q = Some l.
Proof.
  exact (two_passes_independent "let x" "5;" [false; true; false; true] ∅
    ltac:(by vm_compute) ltac:(by vm_compute)).
Defined.

(** Both callers scan [let x = 5;] through one lexer, their calls
    alternating: caller 0 receives [let], [=] and [;]. *)
Lemma shared_pass_splits_witness :
  ∃ h',
    shared_pass "let x = 5;" [false; true; false; true; false] ∅ =
      Ok (([ {| Type_ := LET; Literal := "let" |};
             {| Type_ := ASSIGN; Literal := "=" |};
             {| Type_ := SEMICOLON; Literal := ";" |} ],
           [ {| Type_ := IDENT; Literal := "x" |};
             {| Type_ := INT; Literal := "5" |} ]), h') ∧
    ∀ q l, (∅ : heap) !! q = Some l → h' !! q = Some l.
Proof.
  exact (shared_pass_splits "let x = 5;" [false; true; false; true; false] ∅
    ltac:(by vm_compute)).
Defined.

End witnesses.
