(* ===== verification/Contract.v ===== *)
(** * The contract between the scanner and its caller

    What a caller relies on, whatever the scanner is made of: a scanner is
    constructed from an input, answers a request with a token, and stands
    for the input that is left to scan.  The class [Scanner] states this as
    operations and laws: construction succeeds on the inputs the scanner
    accepts and leaves the whole input to scan; a request returns the token
    [Scan.scan] finds in what is left and leaves what [scan] leaves; a
    scanner can be asked again as long as it has not returned [EOF].

    [pass] is the caller's pass written against the class, and
    [pass_scan_all] the client's lemma, proved from the laws alone: it says
    nothing of lexer.go by itself.  The lexer on structs of [Lexer] and the
    lexer behind a pointer of [LexerHeap] are instances: their laws are
    discharged by the refinement theorems on [New] and [NextToken], and
    [lexers_keep_contract] is the theorem on these two lexers. *)

From Stdlib Require Import ZArith Ascii String List Lia.
From stdpp Require Import base tactics option list strings countable gmap.
From S2P Require Import Prelude StrSeq GoRuntime Chars Token Lexer Scan ScanSeq.
From S2P Require Import ScanAll ScanRel LexerInv Refinement Tokenizer.
From S2P Require Import LexerHeap HeapLemmas.

#[local] Open Scope Z_scope.

Section contract.
Context {classifier : Classifier}.

(** A scanner with states [St]. *)
Class Scanner (St : Type) : Type := {
  (** the inputs a scanner can be made for *)
  sc_accepts : string → Prop;
  (** construction *)
  sc_construct : string → result St;
  (** [next_token] *)
  sc_next_token : St → result (Token * St);
  (** the input that is left to scan *)
  sc_remaining : St → string;
  (** the states in which a scanner can be asked for a token *)
  sc_ready : St → Prop;
  sc_construct_ready s :
    sc_accepts s →
    ∃ st, sc_construct s = Ok st ∧ sc_ready st ∧ sc_remaining st = s;
  sc_next_token_scan st :
    sc_ready st →
    ∃ st',
      sc_next_token st = Ok (fst (scan (sc_remaining st)), st') ∧
      sc_remaining st' = after_scan (sc_remaining st) ∧
      (Type_ (fst (scan (sc_remaining st))) ≠ EOF → sc_ready st')
}.

(** The caller's loop on any scanner: ask until the token is [EOF]. *)
Fixpoint drain {St} `{Scanner St} (fuel : nat) (st : St)
    : result (list Token) :=
  '(tok, st) ← sc_next_token st;
  if decide (Type_ tok = EOF) then Ok []
  else
    match fuel with
    | O => Panic OutOfFuel
    | S fuel => toks ← drain fuel st; Ok (tok :: toks)
    end.

(** A pass on any scanner. *)
Definition pass (St : Type) `{Scanner St} (input : string)
    : result (list Token) :=
  st ← sc_construct input; drain (String.length input) st.

End contract.

(** ** The two lexers as scanners *)

Section lexers.
Context {sz : IntSize} {classifier : Classifier}.

(** A lexer can be asked for a token when it has the invariant and has not
    gone past the end of its input. *)
Definition lexer_ready (l : Lexer) : Prop :=
  lexer_inv l ∧ currentPosition l ≤ len (input l).

(** A scanner behind a pointer: a heap and the pointer. *)
Definition heap_construct (input : string) : result (heap * ptr) :=
  '(p, h) ← ptr_New input ∅; Ok (h, p).

Definition heap_next_token (st : heap * ptr) : result (Token * (heap * ptr)) :=
  '(tok, h) ← ptr_NextToken st.2 st.1; Ok (tok, (h, st.2)).

Definition heap_remaining (st : heap * ptr) : string :=
  from_option rest "" (st.1 !! st.2).

Definition heap_ready (st : heap * ptr) : Prop :=
  ∃ l, st.1 !! st.2 = Some l ∧ lexer_ready l.

End lexers.

(** ** The client, from the laws *)

Section client.
Context {classifier : Classifier} {St : Type} `{!Scanner St}.
Implicit Types (st : St) (s : string) (fuel : nat).

Lemma drain_unfold fuel st :
  drain fuel st =
    '(tok, st) ← sc_next_token st;
    if decide (Type_ tok = EOF) then Ok []
    else
      match fuel with
      | O => Panic OutOfFuel
      | S fuel => toks ← drain fuel st; Ok (tok :: toks)
      end.
Proof. by destruct fuel. Qed.

(** With as much fuel as bytes are left, the loop returns the tokens of what
    is left. *)
Lemma drain_scan_all fuel st :
  sc_ready st → (String.length (sc_remaining st) ≤ fuel)%nat →
  drain fuel st = Ok (scan_all (sc_remaining st)).
Proof.
  revert st. induction fuel as [|fuel IH]; intros st Hready Hfuel;
    destruct (sc_next_token_scan st Hready) as (st' & Hnext & Hrem & Hst');
    rewrite drain_unfold, Hnext, scan_all_eq; simpl;
    destruct (decide _) as [| Hne]; try done.
  - apply scan_drop_lt in Hne. lia.
  - pose proof (scan_drop_lt _ Hne). fold (after_scan (sc_remaining st)) in *.
    rewrite IH by (rewrite ?Hrem; auto with lia). simpl. by rewrite Hrem.
Qed.

End client.

(** ** The laws, for the two lexers *)

Section laws.
Context {sz : IntSize} {classifier : Classifier}.
Implicit Types (s : string) (l : Lexer) (h : heap) (p : ptr).

Lemma lexer_construct_ready s :
  len s + 1 < max_int →
  ∃ l, New s = Ok l ∧ lexer_ready l ∧ rest l = s.
Proof.
  intros Hlen. pose proof (len_nonneg s). exists (lexer_at s 0).
  split_and!; [apply New_at | | apply rest_at_0].
  split; [apply lexer_at_inv; lia | done].
Qed.

Lemma lexer_next_token_scan l :
  lexer_ready l →
  ∃ l',
    NextToken l = Ok (fst (scan (rest l)), l') ∧
    rest l' = after_scan (rest l) ∧
    (Type_ (fst (scan (rest l))) ≠ EOF → lexer_ready l').
Proof.
  intros [Hinv Hpos].
  assert (nextCharPosition l < max_int) as Hnext
    by (destruct Hinv as (? & ? & ? & ?); lia).
  eexists. split; [by apply NextToken_inv_scan |].
  pose proof Hinv as (Hlen & Hpos0 & _). split.
  - rewrite rest_lexer_at. by apply rest_at_scan.
  - intros Hne. split; [by apply NextToken_result_inv |].
    pose proof (scan_bound _ Hne) as Hb. unfold rest in Hb.
    rewrite len_rest_at in Hb by lia. simpl. unfold rest. lia.
Qed.

Lemma heap_construct_ready s :
  len s + 1 < max_int →
  ∃ st, heap_construct s = Ok st ∧ heap_ready st ∧ heap_remaining st = s.
Proof.
  intros Hlen. destruct (lexer_construct_ready s Hlen) as (l & Hl & Hr & Hs).
  unfold heap_construct. rewrite New_run, Hl. simpl. eexists.
  split; [done |]. unfold heap_ready, heap_remaining. simpl.
  rewrite lookup_insert_eq. eauto.
Qed.

Lemma heap_next_token_scan st :
  heap_ready st →
  ∃ st',
    heap_next_token st = Ok (fst (scan (heap_remaining st)), st') ∧
    heap_remaining st' = after_scan (heap_remaining st) ∧
    (Type_ (fst (scan (heap_remaining st))) ≠ EOF → heap_ready st').
Proof.
  destruct st as [h p]. intros (l & Hl & Hr).
  destruct (lexer_next_token_scan l Hr) as (l' & Hnext & Hrest & Hready).
  unfold heap_next_token, heap_remaining, heap_ready. simpl in *.
  rewrite (implements_NextToken p h l Hl), Hnext, Hl. simpl. eexists.
  split; [done |]. simpl. rewrite lookup_insert_eq. simpl. eauto.
Qed.

End laws.

(** The lexer on structs is a scanner. *)
#[export] Instance lexer_scanner {sz : IntSize} {classifier : Classifier}
    : Scanner Lexer := {|
  sc_accepts s := len s + 1 < max_int;
  sc_construct := New;
  sc_next_token := NextToken;
  sc_remaining := rest;
  sc_ready := lexer_ready;
  sc_construct_ready := lexer_construct_ready;
  sc_next_token_scan := lexer_next_token_scan
|}.

(** The lexer behind a pointer is a scanner. *)
#[export] Instance heap_scanner {sz : IntSize} {classifier : Classifier}
    : Scanner (heap * ptr) := {|
  sc_accepts s := len s + 1 < max_int;
  sc_construct := heap_construct;
  sc_next_token := heap_next_token;
  sc_remaining := heap_remaining;
  sc_ready := heap_ready;
  sc_construct_ready := heap_construct_ready;
  sc_next_token_scan := heap_next_token_scan
|}.

(** On the lexer on structs the loop is [collect]. *)
Lemma drain_collect {sz : IntSize} {classifier : Classifier} fuel
    (l : Lexer) :
  drain fuel l = collect fuel l.
Proof.
  revert l. induction fuel as [|fuel IH]; intros l;
    rewrite drain_unfold, collect_unfold; simpl;
    destruct (NextToken l) as [[tok l1]|]; simpl; try done.
  by rewrite IH.
Qed.

(** ** The pass, from the laws *)

(** The caller's pass, proved against the contract.  On every scanner
    that keeps the laws of [Scanner], whatever its states are, a pass over
    an input the scanner accepts returns the tokens of the input up to its
    end: the loop, with the length of the input as fuel, does not run out
    of fuel and the scanner does not panic. *)
Lemma pass_scan_all {classifier : Classifier} (St : Type) `{!Scanner St}
    (s : string) :
  sc_accepts s → pass St s = Ok (scan_all s).
Proof.
  intros Hs. unfold pass.
  destruct (sc_construct_ready s Hs) as (st & -> & Hready & Hrem). simpl.
  rewrite drain_scan_all by (by rewrite ?Hrem). by rewrite Hrem.
Qed.

(** ** The theorem *)

(** C16.  The two lexers keep the contract, and a caller cannot tell them
    apart: the pass on the lexer on structs is the pass [Tokenize], and on
    every input shorter than the largest [int] less one the pass on the
    lexer behind a pointer returns what it returns, the tokens of the
    input. *)
Theorem lexers_keep_contract {sz : IntSize} {classifier : Classifier}
    (s : string) :
  pass Lexer s = Tokenize s ∧
  (len s + 1 < max_int →
   pass (heap * ptr) s = Ok (scan_all s) ∧ pass Lexer s = Ok (scan_all s)).
Proof.
  split.
  - unfold pass, Tokenize. simpl. destruct (New s); simpl; [| done].
    apply drain_collect.
  - intros Hlen. split.
    + by apply (pass_scan_all (heap * ptr)).
    + by apply (pass_scan_all Lexer).
Qed.

(** ** The theorem at a concrete input *)

Section witnesses.
#[local] Existing Instance word64.
#[local] Existing Instance token_classifier.

Lemma lexers_keep_contract_witness :
  pass (heap * ptr) "let x = 5;" = Ok (scan_all "let x = 5;") ∧
  pass Lexer "let x = 5;" = Ok (scan_all "let x = 5;").
Proof.
  refine (proj2 (lexers_keep_contract "let x = 5;") _). by vm_compute.
Defined.

End witnesses.
