(* ===== verification/LexerTree.v ===== *)
(** * The lexer without fuel: model of src/lexer/lexer.go as interaction trees

    The loops of lexer.go, [for cond(lexer.currentChar) { lexer.readChar() }],
    have no bound written in them.  [Lexer] and [LexerHeap] run them with
    fuel; here they are [ITree.iter], which may go on for ever, and the
    methods are trees whose events are the accesses to the struct behind
    the receiver: [LoadE] for a field read, [StoreE] for an assignment,
    [PanicE] for a run-time panic.  The functions of lexer.go are
    [tree_New], [tree_readChar], ..., statement by statement.

    [h_mem] gives the events their meaning on a state that holds the struct
    and the number of assignments made to it so far, which measures the work
    of a call.

    The file holds definitions only.  [TreeLemmas] relates the trees to the
    functions of [Lexer]. *)

From ITree Require Import ITree ITreeFacts Events.State Events.StateFacts.
From Stdlib Require Import ZArith Ascii String List.
From stdpp Require Import base tactics option list strings.
From S2P Require Import Prelude GoRuntime Chars Token Lexer LexerHeap.

#[local] Open Scope Z_scope.

(** The accesses of a method to the struct it is called on, and panics. *)
Variant lexE : Type → Type :=
| LoadE : lexE Lexer
| StoreE (l : Lexer) : lexE unit
| PanicE (p : panic) : lexE void.

(** What is left when the accesses are given their meaning: a panic, an
    event that no answer follows. *)
Variant panicE : Type → Type :=
| Throw (p : panic) : panicE void.

(** The notations of the other models of the lexer, on trees. *)
#[export] Instance itree_ret {E} : MRet (itree E) := λ A a, Ret a.

#[export] Instance itree_bind {E} : MBind (itree E) :=
  λ A B k m, ITree.bind m k.

(** The tree that panics. *)
Definition raise {A} (p : panic) : itree panicE A :=
  ITree.bind (ITree.trigger (Throw p)) (λ v : void, match v with end).


(** [lexer.field] *)
Definition tree_load : itree lexE Lexer := ITree.trigger LoadE.

(** [lexer.field = v] *)
Definition tree_store (l : Lexer) : itree lexE unit := ITree.trigger (StoreE l).

Definition tree_panic {A} (p : panic) : itree lexE A :=
  ITree.bind (ITree.trigger (PanicE p)) (λ v : void, match v with end).

(** An expression that may panic. *)
Definition tree_lift {A} (m : result A) : itree lexE A :=
  match m with
  | Ok a => Ret a
  | Panic p => tree_panic p
  end.

Section methods.
Context {sz : IntSize} {classifier : Classifier}.

(** [func (lexer *Lexer) readChar()] *)
Definition tree_readChar : itree lexE unit :=
  l ← tree_load;
  ch ← (if decide (nextCharPosition l >= len (input l)) then mret NUL
        else tree_lift (index (input l) (nextCharPosition l)));
  tree_store (with_currentChar ch l);;
  l ← tree_load;
  tree_store (with_currentPosition (nextCharPosition l) l);;
  l ← tree_load;
  tree_store (with_nextCharPosition (int_add (nextCharPosition l) 1) l).

(** [func New(input string) *Lexer]; the new struct takes the place of the
    one in the state. *)
Definition tree_New (input : string) : itree lexE unit :=
  tree_store {| input := input;
                currentPosition := 0;
                nextCharPosition := 0;
                currentChar := NUL |};;
  tree_readChar.

(** One turn of [for cond(lexer.currentChar) { lexer.readChar() }]: go on
    ([inl]) or leave the loop ([inr]). *)
Definition tree_readWhile_body (cond : ascii → bool) (_ : unit)
    : itree lexE (unit + unit) :=
  l ← tree_load;
  if cond (currentChar l) then tree_readChar;; mret (inl tt)
  else mret (inr tt).

(** [for cond(lexer.currentChar) { lexer.readChar() }] *)
Definition tree_readWhile (cond : ascii → bool) : itree lexE unit :=
  ITree.iter (tree_readWhile_body cond) tt.

(** [func (lexer *Lexer) skipWhitespace()] *)
Definition tree_skipWhitespace : itree lexE unit :=
  tree_readWhile isWhitespace.

(** [func (lexer *Lexer) readIdentifier() string] *)
Definition tree_readIdentifier : itree lexE string :=
  l ← tree_load;
  let startPosition := currentPosition l in
  tree_readWhile isLetter;;
  l ← tree_load;
  let endPosition := currentPosition l in
  tree_lift (slice (input l) startPosition endPosition).

(** [func (lexer *Lexer) readDigit() string] *)
Definition tree_readDigit : itree lexE string :=
  l ← tree_load;
  let startPosition := currentPosition l in
  tree_readWhile isDigit;;
  l ← tree_load;
  let endPosition := currentPosition l in
  tree_lift (slice (input l) startPosition endPosition).

(** [func (lexer *Lexer) NextToken() token.Token] *)
Definition tree_NextToken : itree lexE Token :=
  tree_skipWhitespace;;
  l ← tree_load;
  let advance (tok : Token) : itree lexE Token := tree_readChar;; mret tok in
  let ch := currentChar l in
  if (ch =? "=")%char then advance (newToken ASSIGN ch)
  else if (ch =? ";")%char then advance (newToken SEMICOLON ch)
  else if (ch =? "(")%char then advance (newToken LPAREN ch)
  else if (ch =? ")")%char then advance (newToken RPAREN ch)
  else if (ch =? "{")%char then advance (newToken LBRACE ch)
  else if (ch =? "}")%char then advance (newToken RBRACE ch)
  else if (ch =? ",")%char then advance (newToken COMMA ch)
  else if (ch =? "+")%char then advance (newToken PLUS ch)
  else if (ch =? NUL)%char then advance {| Literal := ""; Type_ := EOF |}
  else if isLetter ch then
    identifier ← tree_readIdentifier;
    mret {| Literal := identifier; Type_ := classify identifier |}
  else if isDigit ch then
    digit ← tree_readDigit;
    mret {| Literal := digit; Type_ := INT |}
  else advance (newToken ILLEGAL ch).

End methods.

(** ** The meaning of the events *)

(** The state: the struct and the number of assignments made to it. *)
Definition h_mem : lexE ~> Monads.stateT (Lexer * nat) (itree panicE) :=
  λ _ e st,
    match e with
    | LoadE => Ret (st, fst st)
    | StoreE l' => Ret ((l', S (snd st)), tt)
    | PanicE p => raise p
    end.

(** A method run on the struct [l] after [c] assignments. *)
Definition run_tree {A} (t : itree lexE A) (l : Lexer) (c : nat)
    : itree panicE (Lexer * nat * A) :=
  interp_state h_mem t (l, c).

(** ** The work of a call, on the model with fuel *)

Section work.
Context {sz : IntSize}.

(** The number of turns of a loop: of calls of [readChar] that return. *)
Fixpoint iterations (cond : ascii → bool) (fuel : nat) (l : Lexer) : nat :=
  if cond (currentChar l) then
    match fuel with
    | O => O
    | S fuel =>
        match readChar l with
        | Ok l' => S (iterations cond fuel l')
        | Panic _ => O
        end
    end
  else O.

(** The number of calls of [readChar] in a call of [NextToken] that
    returns: one per byte of whitespace, and then one per byte of the word
    or the number, or one. *)
Definition readChars (l : Lexer) : nat :=
  (iterations isWhitespace (loop_fuel l) l +
   match skipWhitespace l with
   | Ok l1 =>
       if isLetter (currentChar l1) then iterations isLetter (loop_fuel l1) l1
       else if isDigit (currentChar l1) then
         iterations isDigit (loop_fuel l1) l1
       else 1
   | Panic _ => 0
   end)%nat.

End work.
