(* ===== verification/TreeLemmas.v ===== *)
(** * The trees compute what the functions with fuel compute

    [computes t l r k]: run on the struct [l], the tree [t] ends as the
    result [r] of the model with fuel says, with the value and the struct of
    [r] after [k] assignments, or with the panic of [r].  The predicate
    composes along the bind of trees, which gives the refinement method by
    method, from [readChar] up to [NextToken]; for a loop it holds with any
    fuel that the model with fuel does not use up. *)

From ITree Require Import ITree ITreeFacts Events.State Events.StateFacts.
From Stdlib Require Import ZArith Ascii String List Lia.
From stdpp Require Import base tactics option list strings.
From S2P Require Import Prelude GoRuntime Chars Token Lexer LexerInv LexerHeap.
From S2P Require Import LexerTree.

#[local] Open Scope Z_scope.

(** What a result of the model with fuel is as a tree: the value and the
    struct after [c] assignments, or the panic. *)
Definition ends_as {A} (r : result (A * Lexer)) (c : nat)
    : itree panicE (Lexer * nat * A) :=
  match r with
  | Ok (a, l') => Ret ((l', c), a)
  | Panic p => raise p
  end.

Definition computes {A} (t : itree lexE A) (l : Lexer)
    (r : result (A * Lexer)) (k : nat) : Prop :=
  ∀ c, run_tree t l c ≈ ends_as r (c + k).

(** ** Panics *)

(** Nothing follows a panic. *)
Lemma raise_bind {A B} (p : panic) (k : A → itree panicE B) :
  ITree.bind (raise p) k ≈ raise p.
Proof.
  unfold raise. rewrite bind_bind. apply eutt_eq_bind. by intros [].
Qed.

Lemma run_panic {A} (p : panic) l c :
  run_tree (tree_panic (A:=A) p) l c ≈ raise p.
Proof.
  unfold run_tree, tree_panic. rewrite interp_state_bind, interp_state_trigger.
  cbn [h_mem]. apply raise_bind.
Qed.

(** ** The calculus *)

Section computes.
Context {A B : Type}.
Implicit Types (l : Lexer) (k : nat).

Lemma computes_ext (t : itree lexE A) l r r' k k' :
  computes t l r k → r = r' → (∀ a l', r = Ok (a, l') → k = k') →
  computes t l r' k'.
Proof.
  intros Ht <- Hk c. rewrite (Ht c). destruct r as [[a l']|]; [| done].
  by rewrite (Hk a l').
Qed.

(** Trees that are equivalent up to silent steps compute the same: a tree
    can be rewritten under [computes]. *)
#[export] Instance computes_proper :
  Proper (eutt eq ==> eq ==> eq ==> eq ==> iff) (@computes A).
Proof.
  intros t t' Ht ? l -> ? r -> ? k ->. unfold computes, run_tree.
  by setoid_rewrite Ht.
Qed.

Lemma computes_ret (a : A) l : computes (mret a) l (Ok (a, l)) 0.
Proof.
  intros c. unfold run_tree, mret, itree_ret. rewrite interp_state_ret.
  by rewrite Nat.add_0_r.
Qed.

Lemma computes_lift (m : result A) l :
  computes (tree_lift m) l (a ← m; Ok (a, l)) 0.
Proof.
  destruct m as [a|p]; [apply computes_ret |]. intros c. apply run_panic.
Qed.

Lemma computes_bind (t : itree lexE A) (u : A → itree lexE B) l r1 k1
    (r2 : A → Lexer → result (B * Lexer)) (k2 : A → Lexer → nat) :
  computes t l r1 k1 →
  (∀ a l', r1 = Ok (a, l') → computes (u a) l' (r2 a l') (k2 a l')) →
  computes (t ≫= u) l ('(a, l') ← r1; r2 a l')
    (k1 + match r1 with Ok (a, l') => k2 a l' | Panic _ => 0 end).
Proof.
  intros Ht Hu c. unfold run_tree, mbind, itree_bind.
  rewrite interp_state_bind. fold (run_tree t l c). rewrite (Ht c).
  destruct r1 as [[a l']|p]; simpl.
  - rewrite bind_ret_l. cbn [fst snd]. rewrite Nat.add_assoc.
    by apply Hu.
  - apply raise_bind.
Qed.

Lemma computes_if (b : bool) (t1 t2 : itree lexE A) l r1 r2 k1 k2 :
  (b = true → computes t1 l r1 k1) → (b = false → computes t2 l r2 k2) →
  computes (if b then t1 else t2) l (if b then r1 else r2)
    (if b then k1 else k2).
Proof. destruct b; auto. Qed.

Lemma computes_if_dec `(d : Decision P) (t1 t2 : itree lexE A) l r1 r2 k1 k2 :
  computes t1 l r1 k1 → computes t2 l r2 k2 →
  computes (if d then t1 else t2) l (if d then r1 else r2)
    (if d then k1 else k2).
Proof. by destruct d. Qed.

End computes.

(** The bind of a tree whose result is known. *)
Lemma computes_bind_Ok {A B} (t : itree lexE A) (u : A → itree lexE B)
    l a l1 k1 r k2 :
  computes t l (Ok (a, l1)) k1 → computes (u a) l1 r k2 →
  computes (t ≫= u) l r (k1 + k2).
Proof.
  intros Ht Hu.
  eapply computes_ext;
    [apply (computes_bind t u l _ _ (λ _ _, r) (λ _ _, k2) Ht) | done..].
  by intros ? ? [= <- <-].
Qed.

Lemma computes_load l : computes tree_load l (Ok (l, l)) 0.
Proof.
  intros c. unfold run_tree, tree_load. rewrite interp_state_trigger.
  cbn [h_mem fst ends_as]. by rewrite Nat.add_0_r.
Qed.

Lemma computes_store l l' : computes (tree_store l') l (Ok (tt, l')) 1.
Proof.
  intros c. unfold run_tree, tree_store. rewrite interp_state_trigger.
  cbn [h_mem snd ends_as]. by rewrite Nat.add_1_r.
Qed.

(** ** The methods *)

Section methods.
Context {sz : IntSize} {classifier : Classifier}.
Implicit Types (l : Lexer) (cond : ascii → bool) (fuel : nat).

Lemma computes_readChar l :
  computes tree_readChar l (l' ← readChar l; Ok (tt, l')) 3.
Proof.
  unfold tree_readChar. eapply computes_ext.
  { eapply computes_bind; [apply computes_load |]. intros l0 ? _.
    eapply computes_bind.
    { apply computes_if_dec; [apply computes_ret | apply computes_lift]. }
    intros ch ? _. eapply computes_bind; [apply computes_store |].
    intros ? ? _. eapply computes_bind; [apply computes_load |].
    intros l1 ? _. eapply computes_bind; [apply computes_store |].
    intros ? ? _. eapply computes_bind; [apply computes_load |].
    intros l2 ? _. apply computes_store. }
  - unfold readChar. simpl. case_decide; simpl; [done |].
    by destruct (index _ _).
  - intros a l'. simpl. case_decide; simpl; [done |].
    by destruct (index _ _).
Qed.

Lemma computes_New (s : string) l :
  computes (tree_New s) l (l' ← New s; Ok (tt, l')) 4.
Proof.
  unfold tree_New, New.
  eapply computes_ext;
    [eapply computes_bind; [apply computes_store |]; intros u l0 _;
     apply computes_readChar | ..].
  - simpl. by destruct (readChar _).
  - intros a l'. simpl. by destruct (readChar _).
Qed.

(** The loop, unfolded once. *)
Lemma readWhile_tree_unfold cond :
  tree_readWhile cond ≈
    (l ← tree_load;
     if cond (currentChar l) then tree_readChar;; tree_readWhile cond
     else mret tt).
Proof.
  unfold tree_readWhile. rewrite unfold_iter. unfold tree_readWhile_body at 1.
  unfold mbind, itree_bind, mret, itree_ret. rewrite bind_bind.
  apply eutt_eq_bind. intros l. destruct (cond _).
  - rewrite bind_bind. apply eutt_eq_bind. intros [].
    rewrite bind_ret_l, tau_eutt. reflexivity.
  - rewrite bind_ret_l. reflexivity.
Qed.

(** The loop without fuel does what the loop with fuel does, when that has
    fuel enough; the assignments are those of its turns. *)
Lemma computes_readWhile cond fuel l :
  readWhile cond fuel l ≠ Panic OutOfFuel →
  computes (tree_readWhile cond) l (l' ← readWhile cond fuel l; Ok (tt, l'))
    (3 * iterations cond fuel l).
Proof.
  revert l. induction fuel as [|fuel IH]; intros l Hfuel;
    rewrite readWhile_unfold in Hfuel;
    rewrite readWhile_tree_unfold;
    eapply computes_ext.
  - eapply computes_bind; [apply computes_load |]. intros l0 l' Hl.
    apply computes_if; intros E; [| apply computes_ret].
    injection Hl as <- <-. by rewrite E in Hfuel.
  - simpl. by destruct (cond _).
  - intros [] l'. simpl. by destruct (cond _).
  - eapply computes_bind; [apply computes_load |]. intros l0 l' Hl.
    apply computes_if; intros E; [| apply computes_ret].
    eapply computes_bind; [apply computes_readChar |]. intros u l1 E1.
    apply IH. injection Hl as <- <-. rewrite E in Hfuel.
    by destruct (readChar l) as [l2|]; simplify_eq/=.
  - simpl. destruct (cond _); [| done].
    destruct (readChar l); simpl; [| done]. by destruct (readWhile _ _ _).
  - intros [] l'. simpl. destruct (cond _); [| done].
    destruct (readChar l); simpl; [lia | done].
Qed.

Lemma computes_skipWhitespace l :
  len (input l) ≤ max_int →
  computes tree_skipWhitespace l (l' ← skipWhitespace l; Ok (tt, l'))
    (3 * iterations isWhitespace (loop_fuel l) l).
Proof. intros. by apply computes_readWhile, readWhile_fuel. Qed.

(** The two scanning methods have one shape. *)
Lemma computes_read cond l :
  cond NUL = false → len (input l) ≤ max_int →
  computes
    (l ← tree_load;
     let startPosition := currentPosition l in
     tree_readWhile cond;;
     l ← tree_load;
     let endPosition := currentPosition l in
     tree_lift (slice (input l) startPosition endPosition)) l
    (let startPosition := currentPosition l in
     lexer ← readWhile cond (loop_fuel l) l;
     let endPosition := currentPosition lexer in
     w ← slice (input lexer) startPosition endPosition;
     Ok (w, lexer))
    (3 * iterations cond (loop_fuel l) l).
Proof.
  intros Hnul Hlen. eapply computes_ext.
  { eapply computes_bind; [apply computes_load |]. intros l0 l' Hl.
    eapply computes_bind.
    { apply (computes_readWhile cond (loop_fuel l)).
      injection Hl as <- <-. by apply readWhile_fuel. }
    intros u l1 _. eapply computes_bind; [apply computes_load |].
    intros l2 l3 _. apply computes_lift. }
  - cbn -[readWhile loop_fuel slice].
    destruct (readWhile _ _ _) as [l1|]; cbn -[slice]; [| done].
    by destruct (slice _ _ _).
  - intros w l'. cbn -[readWhile loop_fuel slice iterations].
    destruct (readWhile _ _ _) as [l1|]; cbn -[slice iterations]; [| done].
    destruct (slice _ _ _); cbn -[iterations]; [lia | done].
Qed.

Lemma computes_readIdentifier l :
  len (input l) ≤ max_int →
  computes tree_readIdentifier l (readIdentifier l)
    (3 * iterations isLetter (loop_fuel l) l).
Proof. exact (computes_read isLetter l isLetter_NUL). Qed.

Lemma computes_readDigit l :
  len (input l) ≤ max_int →
  computes tree_readDigit l (readDigit l)
    (3 * iterations isDigit (loop_fuel l) l).
Proof. exact (computes_read isDigit l isDigit_NUL). Qed.

Lemma computes_advance l (tok : Token) :
  computes (tree_readChar;; mret tok) l
    (lexer ← readChar l; Ok (tok, lexer)) 3.
Proof.
  eapply computes_ext.
  { eapply computes_bind; [apply computes_readChar |]. intros u l1 _.
    apply computes_ret. }
  - simpl. by destruct (readChar l).
  - intros a l'. simpl. by destruct (readChar l).
Qed.

Lemma skipWhitespace_input l l1 :
  skipWhitespace l = Ok l1 → input l1 = input l.
Proof. apply readWhile_input. Qed.

Lemma computes_NextToken l :
  len (input l) ≤ max_int →
  computes tree_NextToken l (NextToken l) (3 * readChars l).
Proof.
  intros Hlen. unfold tree_NextToken. eapply computes_ext.
  { eapply computes_bind; [by apply computes_skipWhitespace |].
    intros u l1 Hl1. eapply computes_bind; [apply computes_load |].
    intros l2 l3 Hl. cbv zeta.
    assert (len (input l3) ≤ max_int) as Hlen3.
    { injection Hl as <- <-.
      destruct (skipWhitespace l) as [l4|] eqn:E; simplify_eq/=.
      by rewrite (skipWhitespace_input _ _ E). }
    repeat (apply computes_if; intros ?; [apply computes_advance |]).
    apply computes_if; intros ?.
    { eapply computes_bind; [by apply computes_readIdentifier |].
      intros identifier l4 _. apply computes_ret. }
    apply computes_if; intros ?; [| apply computes_advance].
    eapply computes_bind; [by apply computes_readDigit |].
    intros digit l4 _. apply computes_ret. }
  - unfold NextToken. simpl.
    destruct (skipWhitespace l) as [l1|]; simpl; [| done].
    by repeat case_bool.
  - intros tok l' _. unfold readChars.
    destruct (skipWhitespace l) as [l1|] eqn:E; cbn -[iterations loop_fuel];
      [| lia].
    remember (currentChar l1) as ch eqn:Hch.
    repeat match goal with
    | |- context [Ascii.eqb ch ?d] =>
        destruct (Ascii.eqb_spec ch d) as [->|?];
          [cbn -[iterations loop_fuel]; destruct (readChar l1); simpl; lia |]
    end.
    destruct (isLetter ch);
      [destruct (readIdentifier l1) as [[]|]; simpl; lia |].
    destruct (isDigit ch); [destruct (readDigit l1) as [[]|]; simpl; lia |].
    destruct (readChar l1); simpl; lia.
Qed.

End methods.
