(* ===== verification/TreeCorrect.v ===== *)
(** * The lexer without fuel: theorems

    The methods of lexer.go as trees, whose loops have no bound, do what the
    functions with fuel do, on every struct, panics included; a call of
    [NextToken] on a lexer with the invariant ends, returns the token of
    [scan] and makes three assignments to the struct for every byte it
    moves the cursor forward, whitespace included. *)

From ITree Require Import ITree ITreeFacts Events.State Events.StateFacts.
From Stdlib Require Import ZArith Ascii String List Lia.
From stdpp Require Import base tactics option list strings.
From S2P Require Import Prelude StrSeq GoRuntime Chars Token Lexer Scan.
From S2P Require Import LexerInv Refinement LexerHeap LexerTree TreeLemmas.

#[local] Open Scope Z_scope.

Section tree.
Context {sz : IntSize} {classifier : Classifier}.
Implicit Types (s : string) (pos : Z) (cond : ascii → bool) (fuel c : nat)
  (l lexer : Lexer).

(** ** The work of a call on a lexer with the invariant *)

(** A loop turns once for every byte of the longest prefix of the remaining
    input that passes its test. *)
Lemma iterations_at cond fuel s pos :
  cond NUL = false → len s + 1 < max_int → 0 ≤ pos →
  (String.length (rest_at s pos) ≤ fuel)%nat →
  iterations cond fuel (lexer_at s pos) =
    String.length (str_take_while cond (rest_at s pos)).
Proof.
  intros Hnul Hlen. remember (rest_at s pos) as r eqn:Hr.
  revert pos fuel Hr. induction r as [|c r IH]; intros pos fuel Hr Hpos Hfuel.
  - destruct fuel; simpl; rewrite byte_at_rest, <- Hr by done; simpl;
      by rewrite Hnul.
  - destruct fuel as [|fuel]; [simpl in Hfuel; lia |].
    cbn [iterations]. simpl currentChar.
    rewrite byte_at_rest, <- Hr by done. simpl str_head. simpl str_take_while.
    destruct (cond c); [| done].
    pose proof (rest_at_nonempty s pos c r Hpos (eq_sym Hr)).
    rewrite readChar_at by lia. simpl String.length. f_equal.
    apply IH; [by rewrite rest_at_succ, <- Hr | lia | simpl in Hfuel; lia].
Qed.

(** [NextToken] calls [readChar] once for every byte that [scan] counts. *)
Lemma readChars_at s pos :
  len s + 1 < max_int → 0 ≤ pos →
  Z.of_nat (readChars (lexer_at s pos)) = snd (scan (rest_at s pos)).
Proof.
  intros Hlen Hpos. unfold readChars.
  pose proof (rest_at_take_while isWhitespace s pos Hpos) as Hrest.
  rewrite skipWhitespace_at by done.
  set (ws := str_take_while isWhitespace (rest_at s pos)) in *.
  pose proof (len_nonneg ws).
  rewrite !iterations_at by (try apply loop_fuel_at; auto with lexer; lia).
  simpl currentChar. rewrite byte_at_rest, !Hrest by lia.
  unfold scan. fold ws.
  set (r1 := str_drop_while isWhitespace (rest_at s pos)).
  unfold scan_token, punctuation_type. set (ch := str_head NUL r1).
  repeat match goal with
  | |- context [Ascii.eqb ch ?d] =>
      destruct (Ascii.eqb_spec ch d) as [->|?]; [simpl; unfold len; lia |]
  end.
  destruct (isLetter ch); [simpl; unfold len; lia |].
  destruct (isDigit ch); simpl; unfold len; lia.
Qed.

(** The tree of [NextToken] on the lexer at position [pos] of [s]. *)
Lemma computes_NextToken_at s pos :
  len s + 1 < max_int → 0 ≤ pos → pos + 1 < max_int →
  let n := snd (scan (rest_at s pos)) in
  computes tree_NextToken (lexer_at s pos)
    (Ok (fst (scan (rest_at s pos)), lexer_at s (pos + n)))
    (3 * Z.to_nat n).
Proof.
  intros Hlen Hpos Hmax n. eapply computes_ext.
  - apply computes_NextToken. simpl. lia.
  - by apply NextToken_scan.
  - intros _ _ _. subst n. by rewrite <- readChars_at, Nat2Z.id.
Qed.

(** ** The theorems *)

(** C11.  The methods without fuel refine the methods with fuel.  On any
    struct whose input is no longer than the largest [int], each method of
    lexer.go as a tree, its loops unbounded, ends as the function with fuel
    says: with the same value and the same struct, after three assignments
    for each call of [readChar], or with the same panic.  The fuel of the
    model with fuel is not seen. *)
Theorem Tree_methods_refine l :
  len (input l) ≤ max_int →
  (∀ s, computes (tree_New s) l (l' ← New s; Ok (tt, l')) 4) ∧
  computes tree_readChar l (l' ← readChar l; Ok (tt, l')) 3 ∧
  computes tree_skipWhitespace l (l' ← skipWhitespace l; Ok (tt, l'))
    (3 * iterations isWhitespace (loop_fuel l) l) ∧
  computes tree_readIdentifier l (readIdentifier l)
    (3 * iterations isLetter (loop_fuel l) l) ∧
  computes tree_readDigit l (readDigit l)
    (3 * iterations isDigit (loop_fuel l) l) ∧
  computes tree_NextToken l (NextToken l) (3 * readChars l).
Proof.
  intros Hlen. split_and!.
  - intros s. apply computes_New.
  - apply computes_readChar.
  - by apply computes_skipWhitespace.
  - by apply computes_readIdentifier.
  - by apply computes_readDigit.
  - by apply computes_NextToken.
Qed.

(** C15.  A call of [NextToken] ends, and its work is three assignments per
    byte.  On a lexer with the invariant whose [nextCharPosition] is below
    the largest [int], the tree of [NextToken] is equivalent to returning
    the token [scan] finds in the remaining input, with the lexer moved
    forward by the [n] bytes [scan] counts and the invariant kept, after
    exactly [3 * n] assignments to the struct: whitespace before the token
    is part of [n]. *)
Theorem Tree_NextToken_cost lexer c :
  lexer_inv lexer → nextCharPosition lexer < max_int →
  let n := snd (scan (rest lexer)) in
  ∃ lexer',
    run_tree tree_NextToken lexer c ≈
      Ret ((lexer', (c + 3 * Z.to_nat n)%nat), fst (scan (rest lexer))) ∧
    lexer_inv lexer' ∧
    rest lexer' = str_drop (Z.to_nat n) (rest lexer).
Proof.
  intros Hinv. pose proof (NextToken_result_inv lexer Hinv) as Hinv'.
  revert Hinv'. pattern lexer. apply (lexer_inv_canonical _ _ Hinv).
  intros s pos Hlen Hpos Hinv' Hnext n. simpl in Hnext.
  exists (lexer_at s (pos + n)). split_and!.
  - by apply computes_NextToken_at; lia.
  - by apply Hinv'.
  - rewrite !rest_lexer_at. apply rest_at_scan. lia.
Qed.

End tree.

(** ** The theorems at concrete inputs *)

Section witnesses.
#[local] Existing Instance word64.
#[local] Existing Instance token_classifier.

Lemma Tree_methods_refine_witness :
  computes tree_NextToken (lexer_at "let x" 0) (NextToken (lexer_at "let x" 0))
    (3 * readChars (lexer_at "let x" 0)).
Proof.
  refine (proj2 (proj2 (proj2 (proj2 (proj2
    (Tree_methods_refine (lexer_at "let x" 0) _)))))).
  by vm_compute.
Defined.

(** Three blanks and a name of one letter: four bytes, twelve
    assignments. *)
Lemma Tree_NextToken_cost_witness :
  ∃ lexer',
    run_tree tree_NextToken (lexer_at "   x = 5" 0) 0 ≈
      Ret ((lexer', 12%nat), {| Type_ := IDENT; Literal := "x" |}) ∧
    lexer_inv lexer' ∧ rest lexer' = " = 5".
Proof.
  refine (Tree_NextToken_cost (lexer_at "   x = 5" 0) 0 _ _);
    [solve_lexer_inv | by vm_compute].
Defined.

End witnesses.
