(* ===== verification/CallerTree.v ===== *)
(** * The caller's loop without fuel

    The loop of the caller, [for tok != EOF], has no bound of its own: it
    ends because the lexer reaches the end of its input.  Here the caller is
    an interaction tree that asks for tokens ([NextTokenE]) in a loop
    ([ITree.iter]) that may go on for ever, and the lexer answers: as the
    function [NextToken] of the model with fuel ([h_lexer]), or as the tree
    [tree_NextToken], whose loops have no bound either ([h_call]).

    The file proves that the loop, served by the lexer, ends and returns
    the tokens of [ScanAll.scan_all], from every state with the invariant;
    and that a whole pass, from [New] to [EOF], with no fuel anywhere, makes three
    assignments to the struct for every byte of the input and for its end,
    and four in [New]: the work of a pass is linear in the length of the
    input. *)

From ITree Require Import ITree ITreeFacts Events.State Events.StateFacts.
From Stdlib Require Import ZArith Ascii String List Lia.
From stdpp Require Import base tactics option list strings.
From S2P Require Import Prelude StrSeq GoRuntime Chars Token Lexer Scan ScanSeq.
From S2P Require Import ScanAll ScanRel ScanBytes LexerInv Refinement Tokenizer.
From S2P Require Import LexerHeap LexerTree TreeLemmas TreeCorrect.

#[local] Open Scope Z_scope.

(** What a caller asks of a lexer: the next token. *)
Variant lexerE : Type → Type :=
| NextTokenE : lexerE Token.

(** One turn of the loop: ask for a token; stop with the tokens collected
    so far when it is [EOF], go on with one more otherwise.  The tokens are
    collected in reverse. *)
Definition collect_body (acc : list Token)
    : itree lexerE (list Token + list Token) :=
  ITree.bind (ITree.trigger NextTokenE) (λ tok,
    if decide (Type_ tok = EOF) then Ret (inr (rev acc))
    else Ret (inl (tok :: acc))).

(** [for tok := lexer.NextToken(); tok.Type != token.EOF;
         tok = lexer.NextToken() { tokens = append(tokens, tok) }] *)
Definition collect_loop : itree lexerE (list Token) :=
  ITree.iter collect_body [].

Section handlers.
Context {sz : IntSize} {classifier : Classifier}.

(** The lexer serves the requests of the caller: as the function of the
    model with fuel, on the struct as state. *)
Definition h_lexer : lexerE ~> Monads.stateT Lexer (itree panicE) :=
  λ _ e l,
    match e with
    | NextTokenE =>
        match NextToken l with
        | Ok (tok, l') => Ret (l', tok)
        | Panic p => raise p
        end
    end.

(** The caller's loop run against the lexer [l]. *)
Definition run_loop (acc : list Token) (l : Lexer)
    : itree panicE (Lexer * list Token) :=
  interp_state h_lexer (ITree.iter collect_body acc) l.

(** The lexer serves the requests of the caller: as the method without
    fuel. *)
Definition h_call : lexerE ~> itree lexE :=
  λ _ e, match e with NextTokenE => tree_NextToken end.

(** A pass: [lexer := New(input)] and the loop. *)
Definition tokenize_pass (input : string) : itree lexE (list Token) :=
  tree_New input;; interp h_call collect_loop.

End handlers.

Section tree.
Context {sz : IntSize} {classifier : Classifier}.
Implicit Types (s r : string) (pos : Z) (tok : Token)
  (toks acc : list Token) (l lexer : Lexer) (fuel c : nat).

(** ** One turn, served by the model with fuel *)

Lemma h_lexer_Ok l tok l' :
  NextToken l = Ok (tok, l') → h_lexer Token NextTokenE l = Ret (l', tok).
Proof. intros H. unfold h_lexer. by rewrite H. Qed.

(** A turn of the loop on a lexer whose call returns. *)
Lemma run_loop_step acc l tok l' :
  NextToken l = Ok (tok, l') →
  run_loop acc l ≈
    (if decide (Type_ tok = EOF) then Ret (l', rev acc)
     else run_loop (tok :: acc) l').
Proof.
  intros H. unfold run_loop. rewrite unfold_iter. unfold collect_body at 1.
  rewrite bind_bind, interp_state_bind, interp_state_trigger.
  rewrite (h_lexer_Ok _ _ _ H), bind_ret_l. cbn [fst snd].
  destruct (decide _).
  - rewrite bind_ret_l, interp_state_ret. reflexivity.
  - rewrite bind_ret_l, interp_state_tau, tau_eutt. reflexivity.
Qed.

(** Whatever the lexer, when the loop with fuel returns, the loop without
    returns the same tokens. *)
Lemma run_loop_collect fuel acc l toks :
  collect fuel l = Ok toks →
  ∃ l', run_loop acc l ≈ Ret (l', rev acc ++ toks).
Proof.
  revert acc l toks. induction fuel as [|fuel IH]; intros acc l toks;
    rewrite collect_unfold;
    destruct (NextToken l) as [[tok l1]|] eqn:E; simpl; try done;
    destruct (decide (Type_ tok = EOF)) as [Heof | Hne]; try done;
    try (intros [= <-]; exists l1;
         rewrite (run_loop_step _ _ _ _ E), decide_True by done;
         by rewrite app_nil_r).
  destruct (collect fuel l1) as [toks1|] eqn:E1; simpl; [| done].
  intros [= <-]. destruct (IH (tok :: acc) l1 toks1 E1) as [l' Hl'].
  exists l'. rewrite (run_loop_step _ _ _ _ E), decide_False by done.
  rewrite Hl'. cbn [rev]. by rewrite <- app_assoc.
Qed.

(** ** One turn, served by the method without fuel *)

Lemma pass_loop_unfold acc :
  interp h_call (ITree.iter collect_body acc) ≈
    (tok ← tree_NextToken;
     if decide (Type_ tok = EOF) then mret (rev acc)
     else interp h_call (ITree.iter collect_body (tok :: acc))).
Proof.
  rewrite unfold_iter. unfold collect_body at 1.
  unfold mbind, itree_bind, mret, itree_ret.
  rewrite bind_bind, interp_bind, interp_trigger. cbn [h_call].
  apply eutt_eq_bind. intros tok. destruct (decide _).
  - rewrite bind_ret_l, interp_ret. reflexivity.
  - rewrite bind_ret_l, interp_tau, tau_eutt. reflexivity.
Qed.

(** The loop from position [pos] of [s]: the tokens of the remaining input,
    the cursor at the end of the pass, three assignments per byte. *)
Lemma pass_loop_at s pos acc :
  len s + 1 < max_int → 0 ≤ pos ≤ len s →
  computes (interp h_call (ITree.iter collect_body acc)) (lexer_at s pos)
    (Ok (rev acc ++ scan_all (rest_at s pos),
         lexer_at s (pos + pass_width (rest_at s pos))))
    (3 * Z.to_nat (pass_width (rest_at s pos))).
Proof.
  intros Hlen Hpos. remember (rest_at s pos) as r eqn:Hr.
  revert pos acc Hpos Hr.
  induction r as [r Heof | r Hne IH] using scan_all_ind;
    intros pos acc Hpos ->;
    rewrite pass_loop_unfold;
    rewrite pass_width_eq, (scan_all_eq (rest_at s pos));
    pose proof (scan_progress (rest_at s pos)) as Hprogress;
    (eapply computes_ext;
     [eapply computes_bind_Ok; [apply computes_NextToken_at; lia |] | ..]).
  - rewrite decide_True by done. apply computes_ret.
  - by rewrite !decide_True, app_nil_r, Z.add_0_r by done.
  - intros _ _ _. rewrite decide_True by done. lia.
  - rewrite decide_False by done.
    pose proof (scan_bound _ Hne) as Hbound.
    rewrite len_rest_at in Hbound by lia.
    apply IH; [lia | by rewrite rest_at_scan by lia].
  - rewrite !decide_False by done. cbn [rev].
    rewrite <- app_assoc. do 3 f_equal. lia.
  - intros _ _ _. rewrite decide_False, pass_width_before_NUL by done.
    pose proof (len_nonneg (before_NUL
      (str_drop (Z.to_nat (snd (scan (rest_at s pos)))) (rest_at s pos)))).
    lia.
Qed.

(** ** The theorems *)

(** C31.  The caller's loop ends.  Served by a lexer that has the invariant
    and whose [nextCharPosition] is below the largest [int], the loop
    without fuel is equivalent to returning the tokens of the remaining
    input up to its end: it does not go on for ever and the lexer does not
    panic. *)
Theorem collect_loop_terminates lexer :
  lexer_inv lexer → nextCharPosition lexer < max_int →
  ∃ lexer',
    interp_state h_lexer collect_loop lexer ≈
      Ret (lexer', scan_all (rest lexer)).
Proof.
  intros Hinv Hnext.
  apply (run_loop_collect (String.length (rest lexer)) []).
  revert Hnext. pattern lexer. apply (lexer_inv_canonical _ _ Hinv).
  intros s pos Hlen Hpos. rewrite rest_lexer_at. simpl. intros Hnext.
  apply collect_at; (done || lia).
Qed.

(** C12.  The work of a pass is linear in the length of the input.  With no
    fuel anywhere, [New] followed by the caller's loop, the lexer serving
    it with the method whose loops are unbounded, ends on every input
    shorter than the largest [int] less one, whatever was in the state
    before: it returns the tokens of the input, leaves the cursor one
    position past the end of the input or past its first zero byte, and
    has made four assignments to the struct in [New] and three for each
    position the cursor moved: [3 * n + 7] for an input of [n] bytes
    without a zero byte, fewer with one. *)
Theorem tokenize_pass_linear s l c :
  len s + 1 < max_int →
  let n := String.length (before_NUL s) in
  run_tree (tokenize_pass s) l c ≈
    Ret ((lexer_at s (Z.of_nat n + 1), (c + (3 * n + 7))%nat), scan_all s) ∧
  (n ≤ String.length s)%nat ∧
  (str_forallb not_NUL s = true → n = String.length s).
Proof.
  intros Hlen n. pose proof (len_nonneg s).
  pose proof (before_NUL_bound s) as Hn. unfold len in Hn. fold n in Hn.
  split_and!; [| lia | intros Hs; unfold n, before_NUL;
                       by rewrite str_take_while_all].
  pose proof (pass_loop_at s 0 [] Hlen ltac:(lia)) as Hloop.
  rewrite rest_at_0, pass_width_before_NUL in Hloop.
  assert (computes (tree_New s) l (Ok (tt, lexer_at s 0)) 4) as Hnew.
  { eapply computes_ext; [apply computes_New | by rewrite New_at | done]. }
  refine (computes_ext _ _ _
    (Ok (scan_all s, lexer_at s (Z.of_nat n + 1))) _ (3 * n + 7)
    (computes_bind_Ok _ _ _ _ _ _ _ _ Hnew Hloop) _ _ c).
  - done.
  - intros _ _ _. unfold len. fold n. lia.
Qed.

End tree.

(** ** The theorems at concrete inputs *)

Section witnesses.
#[local] Existing Instance word64.
#[local] Existing Instance token_classifier.

Lemma collect_loop_terminates_witness :
  ∃ lexer',
    interp_state h_lexer collect_loop (lexer_at "let x = 5;" 0) ≈
      Ret (lexer', scan_all (rest (lexer_at "let x = 5;" 0))).
Proof.
  refine (collect_loop_terminates (lexer_at "let x = 5;" 0) _ _);
    [solve_lexer_inv | by vm_compute].
Defined.

(** Ten bytes and the end of the input: eleven positions, four assignments
    in [New] and thirty-three in the loop. *)
Lemma tokenize_pass_linear_witness :
  run_tree (tokenize_pass "let x = 5;") (lexer_at "" 0) 0 ≈
    Ret ((lexer_at "let x = 5;" 11, 37%nat), let_x) ∧
  (10 ≤ 10)%nat ∧ (true = true → 10%nat = 10%nat).
Proof.
  pose proof (tokenize_pass_linear "let x = 5;" (lexer_at "" 0) 0
    ltac:(by vm_compute)) as H.
  exact H.
Defined.

End witnesses.
