(* ===== verification/LexerCases.v ===== *)
(** * [NextToken], lexeme by lexeme

    What [NextToken] returns for each kind of lexeme under the cursor: a word
    (identifier or keyword), an integer, a punctuation byte, a byte in no
    class, a byte outside ASCII and a zero byte inside the input.  The
    theorems on keywords are for the classifier [LookupIdent] of the package
    [token]. *)

From Stdlib Require Import ZArith Ascii String Lia.
From stdpp Require Import base tactics strings.
From S2P Require Import Prelude GoRuntime Chars Token Lexer Scan.
From S2P Require Import LexerInv Refinement.

#[local] Set Warnings "-clear-no-such-hyp".
Local Open Scope Z_scope.

(** ** Keywords among well-formed tokens *)

(** What the kind [t] of a token with literal [lit] says about keywords. *)
Definition keyword_closed (t : TokenType) (lit : string) : Prop :=
  (t = LET ↔ lit = "let") ∧
  (t = FUNCTION ↔ lit = "fn" ∨ lit = "function") ∧
  (t = IDENT ↔
     isLetter (str_head NUL lit) = true ∧ lit ≠ "let" ∧ lit ≠ "fn" ∧
     lit ≠ "function").

(** A token that does not start with a letter is no word. *)
Lemma keyword_closed_other t lit :
  is_word_type t = false → isLetter (str_head NUL lit) = false →
  keyword_closed t lit.
Proof.
  intros Ht Hl. unfold keyword_closed. split_and!; split.
  - by intros ->.
  - intros ->. by vm_compute in Hl.
  - by intros ->.
  - intros [-> | ->]; by vm_compute in Hl.
  - by intros ->.
  - intros [Hl' _]. congruence.
Qed.

(** A word is classified by [LookupIdent]. *)
Lemma keyword_closed_word lit :
  isLetter (str_head NUL lit) = true → keyword_closed (LookupIdent lit) lit.
Proof.
  intros Hl. unfold keyword_closed.
  rewrite LookupIdent_LET_iff, LookupIdent_FUNCTION_iff, LookupIdent_IDENT_iff.
  tauto.
Qed.

Lemma string_of_byte_not_letter c :
  isLetter c = false → isLetter (str_head NUL (string_of_byte c)) = false.
Proof.
  intros Hl. destruct (is_ascii c) eqn:Ha.
  { by rewrite string_of_byte_ascii. }
  pose proof (string_of_byte_head c Ha) as Hh.
  destruct (isLetter (str_head _ _)) eqn:E; [| done].
  apply isLetter_range in E as [?|[?|E]]; [lia | lia |].
  rewrite E in Hh. vm_compute in Hh. destruct Hh as [Hh _]. by destruct Hh.
Qed.

Lemma token_wf_keywords (tok : Token) :
  token_wf tok → keyword_closed (Type_ tok) (Literal tok).
Proof.
  unfold token_wf. destruct tok as [t lit]. simpl.
  destruct t; simpl;
    try (intros (c & -> & [Hp _]%punctuation_type_Some);
         apply keyword_closed_other; [done |];
         by apply isPunctuation_not_letter);
    try (intros (Hne & Hw & <-); apply keyword_closed_word;
         by apply str_forallb_head_nonempty).
  - intros (c & -> & (_ & _ & Hl & _)%class_count_0 & _).
    apply keyword_closed_other; [done |]. by apply string_of_byte_not_letter.
  - intros ->. by apply keyword_closed_other.
  - intros (Hne & Hw). apply keyword_closed_other; [done |].
    by apply isDigit_not_letter, str_forallb_head_nonempty.
Qed.

Section cases.
Context {sz : IntSize}.
Implicit Types (lexer : Lexer) (tok : Token) (pre w r s : string) (pos : Z)
  (c : ascii).

(** A maximal run of letters under the cursor is returned as one
    token whose literal is the run and whose kind is what [LookupIdent]
    answers for it; the cursor is left on the byte after the run.  No extra
    [readChar] follows the early return. *)
Theorem NextToken_word pre w r :
  w ≠ "" → str_forallb isLetter w = true →
  isLetter (str_head NUL r) = false →
  len (pre +:+ w +:+ r) + 1 < max_int →
  NextToken (lexer_at (pre +:+ w +:+ r) (len pre)) =
    Ok ({| Type_ := LookupIdent w; Literal := w |},
        lexer_at (pre +:+ w +:+ r) (len pre + len w)).
Proof.
  intros Hne Hw Hr Hlen. rewrite NextToken_at_app by done.
  by rewrite scan_word.
Qed.

(** A maximal run of digits under the cursor is returned as one [INT]
    token; a letter that follows is not part of it, and the cursor is left
    on that letter. *)
Theorem NextToken_int `{Classifier} pre w r :
  w ≠ "" → str_forallb isDigit w = true →
  isDigit (str_head NUL r) = false →
  len (pre +:+ w +:+ r) + 1 < max_int →
  NextToken (lexer_at (pre +:+ w +:+ r) (len pre)) =
    Ok ({| Type_ := INT; Literal := w |},
        lexer_at (pre +:+ w +:+ r) (len pre + len w)).
Proof.
  intros Hne Hw Hr Hlen. rewrite NextToken_at_app by done.
  by rewrite scan_int.
Qed.

(** A punctuation byte under the cursor is returned as a token of the
    kind of its case in the [switch], with the byte as literal, and the
    cursor moves by one. *)
Theorem NextToken_punctuation `{Classifier} pre c t r :
  punctuation_type c = Some t →
  len (pre +:+ String c r) + 1 < max_int →
  NextToken (lexer_at (pre +:+ String c r) (len pre)) =
    Ok ({| Type_ := t; Literal := String c "" |},
        lexer_at (pre +:+ String c r) (len pre + 1)).
Proof.
  intros Hp Hlen. rewrite NextToken_at_app by done.
  by rewrite (scan_punctuation c t).
Qed.

(** C33.  Literal fidelity fails outside ASCII: for a byte [b >= 0x80] under
    the cursor of a lexer with the invariant whose [nextCharPosition] is
    below the largest [int], [NextToken] returns an [ILLEGAL] token whose literal is
    [string(b)], the two-byte UTF-8 encoding of the code point [b], while
    the cursor moves by the one byte the input holds. *)
Theorem NextToken_non_ascii `{Classifier} lexer :
  lexer_inv lexer → nextCharPosition lexer < max_int →
  is_ascii (currentChar lexer) = false →
  ∃ tok lexer',
    NextToken lexer = Ok (tok, lexer') ∧ Type_ tok = ILLEGAL ∧
    String.length (Literal tok) = 2%nat ∧
    currentPosition lexer' = currentPosition lexer + 1 ∧
    slice (input lexer) (currentPosition lexer) (currentPosition lexer')
      = Ok (String (currentChar lexer) "") ∧
    Literal tok ≠ String (currentChar lexer) "".
Proof.
  intros Hinv Hnext Ha. pose proof Hinv as (Hlen & Hpos & _ & _ & Hc).
  assert (currentChar lexer ≠ NUL) as Hn by (by intros E; rewrite E in Ha).
  pose proof (byte_at_not_NUL _ _ Hpos ltac:(by rewrite <- Hc)) as Hin.
  rewrite NextToken_inv_scan by done. unfold rest.
  rewrite rest_at_cons, <- Hc by lia.
  rewrite scan_illegal by auto using non_ascii_no_class.
  do 2 eexists. split; [done |]. simpl.
  destruct (string_of_byte_non_ascii _ Ha) as [Hl Hd].
  repeat split; try done.
  rewrite slice_in_range by lia. f_equal.
  replace (Z.to_nat _) with 1%nat by lia.
  fold (rest_at (input lexer) (currentPosition lexer)).
  by rewrite rest_at_cons, <- Hc by lia.
Qed.

(** C34.  A zero byte inside the input is taken for the end of the input:
    [NextToken] returns [EOF] although input is left, moves the cursor past
    the zero byte, and the calls that follow scan the rest. *)
Theorem NextToken_embedded_NUL `{Classifier} lexer :
  lexer_inv lexer → currentPosition lexer < len (input lexer) →
  currentChar lexer = NUL →
  ∃ lexer',
    NextToken lexer = Ok (eof_token, lexer') ∧ lexer_inv lexer' ∧
    rest lexer = String NUL (rest lexer').
Proof.
  intros Hinv Hin Hnul. pose proof Hinv as (Hlen & Hpos & Hn & _ & Hc).
  rewrite NextToken_inv_scan by (done || lia). unfold rest.
  rewrite (rest_at_cons (input lexer)), <- Hc, Hnul, scan_NUL by lia.
  eexists. split; [done |]. split; [apply lexer_at_inv; simpl; lia | done].
Qed.

(** C35.  Keyword closure on what the lexer returns, on a lexer with the
    invariant whose [nextCharPosition] is below the largest [int]: with
    [LookupIdent] as classifier, a token has kind [LET] exactly when its literal is ["let"],
    kind [FUNCTION] exactly when its literal is ["fn"] or ["function"], and
    every other token made of letters is an [IDENT]. *)
Theorem NextToken_keyword_closure lexer tok lexer' :
  lexer_inv lexer → nextCharPosition lexer < max_int →
  NextToken lexer = Ok (tok, lexer') →
  keyword_closed (Type_ tok) (Literal tok).
Proof.
  intros Hinv Hnext. rewrite NextToken_inv_scan by done. intros [= <- _].
  apply token_wf_keywords, token_shape_wf, scan_shape.
Qed.

End cases.

(** ** The theorems on concrete lexers *)

Section witnesses.
#[local] Existing Instance word64.

Lemma NextToken_word_witness :
  NextToken (lexer_at "let five" 0) =
    Ok ({| Type_ := LET; Literal := "let" |}, lexer_at "let five" 3).
Proof.
  exact (NextToken_word "" "let" " five" ltac:(done) ltac:(done) ltac:(done)
    ltac:(by vm_compute)).
Defined.

(** ["5x"] is the integer ["5"], and the cursor is left on the ["x"]. *)
Lemma NextToken_int_witness :
  NextToken (lexer_at "5x" 0) =
    Ok ({| Type_ := INT; Literal := "5" |}, lexer_at "5x" 1).
Proof.
  exact (NextToken_int "" "5" "x" ltac:(done) ltac:(done) ltac:(done)
    ltac:(by vm_compute)).
Defined.

Lemma NextToken_punctuation_witness :
  NextToken (lexer_at "={}" 1) =
    Ok ({| Type_ := LBRACE; Literal := "{" |}, lexer_at "={}" 2).
Proof.
  exact (NextToken_punctuation "=" "{" LBRACE "}" ltac:(done)
    ltac:(by vm_compute)).
Defined.

(** The input of one byte [0xFF]: the literal is ["\xC3\xBF"]. *)
Lemma NextToken_non_ascii_witness :
  ∃ tok lexer',
    NextToken (lexer_at (String "255" "") 0) = Ok (tok, lexer') ∧
    Type_ tok = ILLEGAL ∧ String.length (Literal tok) = 2%nat ∧
    currentPosition lexer' = 0 + 1 ∧
    slice (String "255" "") 0 (currentPosition lexer') = Ok (String "255" "") ∧
    Literal tok ≠ String "255" "".
Proof.
  exact (NextToken_non_ascii (lexer_at (String "255" "") 0)
    ltac:(apply lexer_at_inv; [by vm_compute | split; by vm_compute])
    ltac:(by vm_compute) ltac:(done)).
Defined.

(** The input ["a\x00b"] with the cursor on the zero byte. *)
Lemma NextToken_embedded_NUL_witness :
  ∃ lexer',
    NextToken (lexer_at (String "a" (String NUL "b")) 1) =
      Ok (eof_token, lexer') ∧
    lexer_inv lexer' ∧
    rest (lexer_at (String "a" (String NUL "b")) 1) = String NUL (rest lexer').
Proof.
  exact (NextToken_embedded_NUL (lexer_at (String "a" (String NUL "b")) 1)
    ltac:(apply lexer_at_inv; [by vm_compute | split; by vm_compute])
    ltac:(by vm_compute) ltac:(done)).
Defined.

Lemma NextToken_keyword_closure_witness : keyword_closed LET "let".
Proof.
  exact (NextToken_keyword_closure (sz := word64) (lexer_at "let five" 0)
    {| Type_ := LET; Literal := "let" |} (lexer_at "let five" 3)
    ltac:(apply lexer_at_inv; [by vm_compute | split; by vm_compute])
    ltac:(by vm_compute) ltac:(by vm_compute)).
Defined.

End witnesses.
