(* ===== verification/LexerOps.v ===== *)
(** * Contracts of the helper methods of the lexer

    What each method that [NextToken] calls does on its own: [readChar] on
    every branch, the panic included; [skipWhitespace], [readIdentifier] and
    [readDigit] on a lexer that has the invariant, in terms of the remaining
    input; the slice that the two readers take when they are called with
    the cursor beyond the end of the input; that the result of a loop does
    not depend on its fuel; and that [NextToken] depends on the classifier
    for the kind of a word only. *)

From Stdlib Require Import ZArith Ascii String Lia.
From stdpp Require Import base tactics option strings.
From S2P Require Import Prelude GoRuntime Chars Token Lexer Scan.
From S2P Require Import LexerInv Refinement.

#[local] Open Scope Z_scope.

Section ops.
Context {sz : IntSize}.
Implicit Types (lexer : Lexer) (s w : string) (pos : Z) (cond : ascii → bool).

(** ** Shared lemmas *)

(** The state a loop [for cond(currentChar) { readChar() }] stops in. *)
Lemma loop_end_at cond s pos :
  cond NUL = false → len s + 1 < max_int → 0 ≤ pos < max_int →
  let pos' := pos + len (str_take_while cond (rest_at s pos)) in
  lexer_inv (lexer_at s pos') ∧
  cond (currentChar (lexer_at s pos')) = false ∧
  rest_at s pos' = str_drop_while cond (rest_at s pos).
Proof.
  intros Hnul Hlen Hpos pos'. pose proof (take_while_rest_bound cond s pos).
  pose proof (len_nonneg (str_take_while cond (rest_at s pos))).
  assert (0 ≤ pos') as Hpos' by (unfold pos'; lia).
  split; [apply lexer_at_inv; unfold pos'; lia |].
  split; [| by apply rest_at_take_while; lia].
  simpl. rewrite byte_at_rest by done. unfold pos'.
  rewrite rest_at_take_while by lia. by apply str_head_drop_while.
Qed.

(** A reader ([readIdentifier] with [isLetter], [readDigit] with [isDigit])
    that behaves on canonical states as [read_slice_at] says. *)
Lemma reader_spec cond (read : Lexer → result (string * Lexer)) lexer :
  cond NUL = false →
  (∀ s pos, len s + 1 < max_int → 0 ≤ pos ≤ len s →
     read (lexer_at s pos) =
       Ok (str_take_while cond (rest_at s pos),
           lexer_at s (pos + len (str_take_while cond (rest_at s pos))))) →
  lexer_inv lexer → currentPosition lexer ≤ len (input lexer) →
  ∃ lexer',
    read lexer = Ok (str_take_while cond (rest lexer), lexer') ∧
    lexer_inv lexer' ∧ input lexer' = input lexer ∧
    cond (currentChar lexer') = false ∧
    rest lexer = str_take_while cond (rest lexer) +:+ rest lexer'.
Proof.
  intros Hnul Hread Hinv. pattern lexer.
  apply (lexer_inv_canonical _ _ Hinv). clear lexer Hinv.
  intros s pos Hlen Hpos Hin. simpl in Hin.
  rewrite rest_lexer_at, Hread by lia.
  destruct (loop_end_at cond s pos) as (Hinv' & Hc & Hrest); [done..|].
  eexists. split; [done |]. split; [done |]. split; [done |].
  split; [done |]. rewrite rest_lexer_at, Hrest.
  by rewrite str_take_while_drop_while.
Qed.

Lemma reader_past_end cond lexer :
  cond NUL = false → lexer_inv lexer →
  len (input lexer) < currentPosition lexer →
  (lexer' ← readWhile cond (loop_fuel lexer) lexer;
   w ← slice (input lexer') (currentPosition lexer) (currentPosition lexer');
   Ok (w, lexer')) = Panic SliceBoundsOutOfRange.
Proof.
  intros Hnul Hinv Hend. pose proof Hinv as (_ & _ & _ & _ & Hc).
  rewrite readWhile_stop by (by rewrite Hc, byte_at_ge by lia). simpl.
  by rewrite slice_out_of_range by lia.
Qed.

(** A loop that has ended within its fuel ends the same way with more. *)
Lemma readWhile_more_fuel cond fuel fuel' lexer :
  (fuel ≤ fuel')%nat → readWhile cond fuel lexer ≠ Panic OutOfFuel →
  readWhile cond fuel' lexer = readWhile cond fuel lexer.
Proof.
  revert fuel' lexer. induction fuel as [|fuel IH]; intros fuel' lexer Hle;
    rewrite (readWhile_unfold cond fuel'), (readWhile_unfold cond _ lexer);
    destruct (cond (currentChar lexer)); try done.
  destruct fuel' as [|fuel']; [lia |].
  destruct (readChar lexer) as [l1|]; simpl; [| done]. apply IH. lia.
Qed.

(** ** The contracts *)

(** C38.  [readChar] on every branch: it panics with an index out of range
    exactly when [nextCharPosition] is negative; otherwise it loads the byte
    at [nextCharPosition], the zero byte when that is at or beyond the end
    of the input, moves [currentPosition] there and increments
    [nextCharPosition] with wrap-around. *)
Theorem readChar_cases lexer :
  readChar lexer =
    if decide (nextCharPosition lexer < 0) then Panic IndexOutOfRange
    else Ok {| input := input lexer;
               currentChar := byte_at (input lexer) (nextCharPosition lexer);
               currentPosition := nextCharPosition lexer;
               nextCharPosition := int_add (nextCharPosition lexer) 1 |}.
Proof.
  unfold readChar. pose proof (len_nonneg (input lexer)).
  repeat case_decide; try lia.
  - by rewrite byte_at_ge by lia.
  - by rewrite index_out_of_range by lia.
  - by rewrite index_in_range by lia.
Qed.

(** [readChar] preserves the invariant as long as [nextCharPosition]
    has not reached the largest [int]: it returns, the cursor has moved by
    one and the remaining input has lost its first byte. *)
Theorem readChar_preserves_inv lexer :
  lexer_inv lexer → nextCharPosition lexer < max_int →
  ∃ lexer',
    readChar lexer = Ok lexer' ∧ lexer_inv lexer' ∧
    input lexer' = input lexer ∧
    currentPosition lexer' = currentPosition lexer + 1 ∧
    rest lexer' = str_tail (rest lexer).
Proof.
  intros Hinv. pattern lexer.
  apply (lexer_inv_canonical _ _ Hinv). clear lexer Hinv.
  intros s pos Hlen Hpos Hnext. simpl in Hnext.
  rewrite readChar_at by lia.
  eexists. split; [done |]. split; [apply lexer_at_inv; lia |].
  repeat split. rewrite !rest_lexer_at. apply rest_at_succ. lia.
Qed.

(** C39.  [skipWhitespace], on a lexer with the invariant, returns a lexer
    whose current character is not
    whitespace and whose remaining input is the one before without its
    leading spaces, tabs, newlines and carriage returns; the invariant is
    kept and no byte other than whitespace is consumed. *)
Theorem skipWhitespace_spec lexer :
  lexer_inv lexer →
  ∃ lexer',
    skipWhitespace lexer = Ok lexer' ∧ lexer_inv lexer' ∧
    input lexer' = input lexer ∧
    isWhitespace (currentChar lexer') = false ∧
    rest lexer' = str_drop_while isWhitespace (rest lexer) ∧
    currentPosition lexer' =
      currentPosition lexer + len (str_take_while isWhitespace (rest lexer)).
Proof.
  intros Hinv. pattern lexer.
  apply (lexer_inv_canonical _ _ Hinv). clear lexer Hinv.
  intros s pos Hlen Hpos. rewrite skipWhitespace_at by lia.
  destruct (loop_end_at isWhitespace s pos) as (Hinv' & Hc & Hrest);
    [done..|].
  eexists. split; [done |]. split; [done |]. by repeat split.
Qed.

(** C40.  [readIdentifier], on a lexer with the invariant whose cursor is
    not beyond the end of the input, returns the longest run of letters and
    underscores at the head of the remaining input and leaves the cursor on
    the byte after it, which is not a letter: the remaining input before is
    the run followed by the remaining input after. *)
Theorem readIdentifier_spec lexer :
  lexer_inv lexer → currentPosition lexer ≤ len (input lexer) →
  ∃ lexer',
    readIdentifier lexer = Ok (str_take_while isLetter (rest lexer), lexer') ∧
    lexer_inv lexer' ∧ input lexer' = input lexer ∧
    isLetter (currentChar lexer') = false ∧
    rest lexer = str_take_while isLetter (rest lexer) +:+ rest lexer'.
Proof.
  apply (reader_spec isLetter readIdentifier); [done |].
  intros s pos ??. by apply readIdentifier_at.
Qed.

(** [readDigit] returns the longest run of decimal digits at the head
    of the remaining input and leaves the cursor on the byte after it, which
    is not a digit. *)
Theorem readDigit_spec lexer :
  lexer_inv lexer → currentPosition lexer ≤ len (input lexer) →
  ∃ lexer',
    readDigit lexer = Ok (str_take_while isDigit (rest lexer), lexer') ∧
    lexer_inv lexer' ∧ input lexer' = input lexer ∧
    isDigit (currentChar lexer') = false ∧
    rest lexer = str_take_while isDigit (rest lexer) +:+ rest lexer'.
Proof.
  apply (reader_spec isDigit readDigit); [done |].
  intros s pos ??. by apply readDigit_at.
Qed.

(** Called with the cursor beyond the end of the input, where the
    calls of [NextToken] at the end of the input leave it, [readIdentifier]
    and [readDigit] panic: their loops do not run, and the slice expression
    [input[startPosition:endPosition]] has both bounds beyond [len(input)].
    [NextToken] never calls them there, since the current character is the
    zero byte. *)
Theorem readers_past_end_panic lexer :
  lexer_inv lexer → len (input lexer) < currentPosition lexer →
  readIdentifier lexer = Panic SliceBoundsOutOfRange ∧
  readDigit lexer = Panic SliceBoundsOutOfRange.
Proof.
  intros Hinv Hend. split; by apply reader_past_end.
Qed.

(** The fuel of the model does not show: a loop run with any amount of
    fuel from [loop_fuel] on gives the result it gives with [loop_fuel], and
    that result is never [OutOfFuel], whatever the fields of the struct
    hold.  The loops of the program, which have no bound, behave as the
    loops of the model. *)
Theorem readWhile_fuel_independent cond fuel lexer :
  cond NUL = false → len (input lexer) ≤ max_int →
  (loop_fuel lexer ≤ fuel)%nat →
  readWhile cond fuel lexer = readWhile cond (loop_fuel lexer) lexer ∧
  readWhile cond fuel lexer ≠ Panic OutOfFuel.
Proof.
  intros Hnul Hlen Hfuel.
  pose proof (readWhile_fuel cond lexer Hnul Hlen) as Hok.
  rewrite (readWhile_more_fuel cond (loop_fuel lexer) fuel) by done.
  done.
Qed.

(** The scanner does not depend on the classifier but for the kind of
    the words: with any two implementations of [token.LookupIdent],
    [NextToken] returns or panics alike, and when it returns, the literal of
    the token and the state of the lexer are the same. *)
Theorem NextToken_classifier_independent (c1 c2 : Classifier) lexer :
  (λ r, (Literal r.1, r.2)) <$> NextToken (classifier := c1) lexer =
  (λ r, (Literal r.1, r.2)) <$> NextToken (classifier := c2) lexer.
Proof.
  unfold NextToken. destruct (skipWhitespace lexer) as [l1|]; [| done].
  simpl. repeat case_bool; try done.
  by destruct (readIdentifier l1) as [[w l2]|].
Qed.

End ops.

(** ** The contracts on concrete lexers *)

Section witnesses.
#[local] Existing Instance word64.

Lemma readChar_preserves_inv_witness :
  ∃ lexer',
    readChar (lexer_at "5;" 1) = Ok lexer' ∧ lexer_inv lexer' ∧
    input lexer' = "5;" ∧ currentPosition lexer' = 1 + 1 ∧
    rest lexer' = str_tail (rest (lexer_at "5;" 1)).
Proof.
  exact (readChar_preserves_inv (lexer_at "5;" 1)
    ltac:(apply lexer_at_inv; [by vm_compute | split; by vm_compute])
    ltac:(by vm_compute)).
Defined.

Lemma skipWhitespace_spec_witness :
  ∃ lexer',
    skipWhitespace (lexer_at "let  five" 3) = Ok lexer' ∧ lexer_inv lexer' ∧
    input lexer' = "let  five" ∧
    isWhitespace (currentChar lexer') = false ∧
    rest lexer' = "five" ∧ currentPosition lexer' = 3 + 2.
Proof.
  exact (skipWhitespace_spec (lexer_at "let  five" 3)
    ltac:(apply lexer_at_inv; [by vm_compute | split; by vm_compute])).
Defined.

Lemma readIdentifier_spec_witness :
  ∃ lexer',
    readIdentifier (lexer_at "let five" 4) = Ok ("five", lexer') ∧
    lexer_inv lexer' ∧ input lexer' = "let five" ∧
    isLetter (currentChar lexer') = false ∧
    "five" = "five" +:+ rest lexer'.
Proof.
  exact (readIdentifier_spec (lexer_at "let five" 4)
    ltac:(apply lexer_at_inv; [by vm_compute | split; by vm_compute])
    ltac:(by vm_compute)).
Defined.

Lemma readDigit_spec_witness :
  ∃ lexer',
    readDigit (lexer_at "10;" 0) = Ok ("10", lexer') ∧
    lexer_inv lexer' ∧ input lexer' = "10;" ∧
    isDigit (currentChar lexer') = false ∧
    "10;" = "10" +:+ rest lexer'.
Proof.
  exact (readDigit_spec (lexer_at "10;" 0)
    ltac:(apply lexer_at_inv; [by vm_compute | split; by vm_compute])
    ltac:(by vm_compute)).
Defined.

(** The loop of [skipWhitespace] on ["  x"] with fuel 100. *)
Lemma readWhile_fuel_independent_witness :
  readWhile isWhitespace 100 (lexer_at "  x" 0) =
    readWhile isWhitespace (loop_fuel (lexer_at "  x" 0)) (lexer_at "  x" 0) ∧
  readWhile isWhitespace 100 (lexer_at "  x" 0) ≠ Panic OutOfFuel.
Proof.
  exact (readWhile_fuel_independent isWhitespace 100 (lexer_at "  x" 0)
    ltac:(done) ltac:(by vm_compute) ltac:(vm_compute; lia)).
Defined.

(** The lexer after ["5;"] has been scanned and [EOF] returned once. *)
Lemma readers_past_end_panic_witness :
  readIdentifier (lexer_at "5;" 3) = Panic SliceBoundsOutOfRange ∧
  readDigit (lexer_at "5;" 3) = Panic SliceBoundsOutOfRange.
Proof.
  exact (readers_past_end_panic (lexer_at "5;" 3)
    ltac:(apply lexer_at_inv; [by vm_compute | split; by vm_compute])
    ltac:(by vm_compute)).
Defined.

End witnesses.
