(* ===== verification/LexerTrace.v ===== *)
(** * Runs of the lexer as a step relation

    [run s toks lexer] holds when a caller that made the lexer with [New s]
    and then called [NextToken] once per token of [toks] has received these
    tokens, in this order, and holds the lexer in the state [lexer].  The
    file proves by induction on runs that every state reached within the
    range of [int] has the invariant, that the relation and the function
    [NextTokens] describe the same runs, that the tokens of a run are those
    of the specification [scan_n], that every run ends in [EOF] tokens
    after at most [len s] calls, and that on every run, whatever its
    length, [nextCharPosition] is [currentPosition + 1] in the arithmetic
    of [int]. *)

From Stdlib Require Import ZArith Ascii String List Lia.
From stdpp Require Import base tactics option list strings.
From S2P Require Import Prelude GoRuntime Chars Token Lexer Scan.
From S2P Require Import LexerInv Refinement LexerOverflow.

#[local] Open Scope Z_scope.

Section trace.
Context {sz : IntSize} {classifier : Classifier}.
Implicit Types (lexer : Lexer) (tok : Token) (toks : list Token) (s : string)
  (n m : nat).

(** The runs of a lexer on the input [s]. *)
Inductive run (s : string) : list Token → Lexer → Prop :=
| run_New lexer :
    New s = Ok lexer → run s [] lexer
| run_NextToken toks lexer tok lexer' :
    run s toks lexer → NextToken lexer = Ok (tok, lexer') →
    run s (toks ++ [tok]) lexer'.

(** ** [NextTokens], one call at the end *)

Lemma NextTokens_snoc n lexer0 toks lexer tok lexer' :
  NextTokens n lexer0 = Ok (toks, lexer) → NextToken lexer = Ok (tok, lexer') →
  NextTokens (S n) lexer0 = Ok (toks ++ [tok], lexer').
Proof.
  intros Hn H1. replace (S n) with (n + 1)%nat by lia.
  rewrite NextTokens_add, Hn. simpl. by rewrite H1.
Qed.

Lemma NextTokens_snoc_inv n lexer0 toks' lexer' :
  NextTokens (S n) lexer0 = Ok (toks', lexer') →
  ∃ toks lexer tok,
    toks' = toks ++ [tok] ∧ NextTokens n lexer0 = Ok (toks, lexer) ∧
    NextToken lexer = Ok (tok, lexer').
Proof.
  replace (S n) with (n + 1)%nat by lia. rewrite NextTokens_add.
  destruct (NextTokens n lexer0) as [[toks lexer]|]; [| done]. simpl.
  destruct (NextToken lexer) as [[tok lexer1]|] eqn:E1; [| done]. simpl.
  intros [= <- <-]. by exists toks, lexer, tok.
Qed.

Lemma NextTokens_length n lexer0 toks lexer :
  NextTokens n lexer0 = Ok (toks, lexer) → length toks = n.
Proof.
  revert lexer0 toks lexer. induction n as [|n IH]; intros lexer0 toks lexer.
  - by intros [= <- _].
  - simpl. destruct (NextToken lexer0) as [[tok l1]|]; [| done]. simpl.
    destruct (NextTokens n l1) as [[toks1 l2]|] eqn:E; [| done]. simpl.
    intros [= <- _]. simpl. f_equal. by apply (IH l1 toks1 l2).
Qed.

(** ** The relation and the function *)

Lemma run_NextTokens_of s toks lexer :
  run s toks lexer → NextTokens (length toks) (lexer_at s 0) = Ok (toks, lexer).
Proof.
  induction 1 as [lexer H | toks lexer tok lexer' _ IH H].
  - rewrite New_at in H. by injection H as <-.
  - rewrite length_app, Nat.add_1_r. by apply (NextTokens_snoc _ _ _ lexer).
Qed.

Lemma NextTokens_run s n toks lexer :
  NextTokens n (lexer_at s 0) = Ok (toks, lexer) → run s toks lexer.
Proof.
  revert toks lexer. induction n as [|n IH]; intros toks lexer.
  - intros [= <- <-]. apply run_New, New_at.
  - intros (toks0 & lexer0 & tok & -> & Hn & H1)%NextTokens_snoc_inv.
    eapply run_NextToken; eauto.
Qed.

(** The states of the runs that stay in the range of [int]. *)
Lemma run_at s toks lexer :
  run s toks lexer → len s + Z.of_nat (length toks) + 1 < max_int →
  toks = fst (scan_n (length toks) s) ∧
  lexer = lexer_at s (snd (scan_n (length toks) s)) ∧
  Z.of_nat (length toks) ≤ snd (scan_n (length toks) s) ∧
  snd (scan_n (length toks) s) ≤ len s + Z.of_nat (length toks).
Proof.
  intros Hrun Hmax. apply run_NextTokens_of in Hrun.
  pose proof (scan_n_bound (length toks) s).
  pose proof (scan_n_progress (length toks) s). pose proof (len_nonneg s).
  rewrite NextTokens_scan_n in Hrun; rewrite ?rest_at_0; [| lia..].
  rewrite rest_at_0, Z.add_0_l in Hrun. injection Hrun as Htoks Hlexer.
  repeat split; (done || lia).
Qed.

(** ** The theorems *)

(** C22.  Every state a caller can reach within the range of [int] has the
    invariant: after [New s] and one call of [NextToken] per token of
    [toks], the lexer still scans [s], satisfies [lexer_inv], and its cursor
    has moved by at least one position per call and by at most
    [len s + length toks] in all. *)
Theorem run_inv s toks lexer :
  run s toks lexer → len s + Z.of_nat (length toks) + 1 < max_int →
  lexer_inv lexer ∧ input lexer = s ∧
  Z.of_nat (length toks) ≤ currentPosition lexer ≤
    len s + Z.of_nat (length toks).
Proof.
  intros Hrun Hmax. destruct (run_at _ _ _ Hrun Hmax) as (_ & -> & ? & ?).
  split; [apply lexer_at_inv; lia | done].
Qed.

(** The step relation and the function describe the same runs: [run s
    toks lexer] holds exactly when [New s] followed by [length toks] calls
    of [NextToken] returns the tokens [toks] and the state [lexer]. *)
Theorem run_NextTokens s toks lexer :
  run s toks lexer ↔
  (lexer ← New s; NextTokens (length toks) lexer) = Ok (toks, lexer).
Proof.
  rewrite New_at. simpl. split; [apply run_NextTokens_of |].
  apply NextTokens_run.
Qed.

(** The tokens of a run are the tokens of the specification: a run of
    [n] calls returns the first [n] tokens that [scan_n] reads from [s], and
    every one of them is well formed. *)
Theorem run_scan_n s toks lexer :
  run s toks lexer → len s + Z.of_nat (length toks) + 1 < max_int →
  toks = fst (scan_n (length toks) s) ∧ Forall token_wf toks.
Proof.
  intros Hrun Hmax. destruct (run_at _ _ _ Hrun Hmax) as (Htoks & _).
  split; [done |]. rewrite Htoks. apply scan_n_wf.
Qed.

(** C9.  Termination: on every input the lexer has returned all tokens
    other than the final [EOF]s after at most [len s] calls.  [New s]
    followed by [n + m] calls with [len s ≤ n] returns, and the last [m]
    tokens are [EOF], as long as the positions stay in the range of
    [int]. *)
Theorem NextTokens_terminates s n m :
  len s ≤ Z.of_nat n → len s + Z.of_nat (n + m) + 1 < max_int →
  ∃ toks lexer,
    (lexer ← New s; NextTokens (n + m) lexer) =
      Ok (toks ++ replicate m eof_token, lexer) ∧
    length toks = n.
Proof.
  intros Hn Hmax. pose proof (scan_n_bound n s).
  pose proof (scan_n_progress n s). pose proof (len_nonneg s).
  rewrite New_at. simpl. rewrite NextTokens_add.
  rewrite NextTokens_scan_n; rewrite ?rest_at_0; [| lia..]. simpl.
  rewrite NextTokens_at_end by lia. simpl.
  do 2 eexists. split; [done | apply scan_n_length].
Qed.

(** C23.  The invariant of the specification at the width of [int], with
    no bound on the number of calls: in every state a caller can reach, the
    lexer still scans [s], [nextCharPosition] is [currentPosition + 1] in
    the arithmetic of [int] (it is the smallest [int] when the cursor is at
    the largest), [currentChar] is the byte under the cursor, and the
    cursor has moved by at least one position per call.  Hence no caller
    receives more than [max_int] tokens from one lexer. *)
Theorem run_lookahead s toks lexer :
  run s toks lexer → len s + 1 < max_int →
  input lexer = s ∧
  nextCharPosition lexer = int_add (currentPosition lexer) 1 ∧
  currentChar lexer = byte_at s (currentPosition lexer) ∧
  Z.of_nat (length toks) ≤ currentPosition lexer ≤ max_int.
Proof.
  intros Hrun%run_NextTokens_of Hlen.
  pose proof (NextTokens_New (length toks) s Hlen) as Hn.
  rewrite New_at in Hn. cbn [mbind result_bind] in Hn. rewrite Hrun in Hn.
  unfold calls_outcome in Hn. pose proof (scan_n_progress (length toks) s).
  pose proof (len_nonneg s).
  repeat case_decide; [| | done]; injection Hn as _ ->; simpl.
  - rewrite int_add_1 by lia. split_and!; (done || lia).
  - rewrite int_add_1_overflow, byte_at_ge by lia. split_and!; (done || lia).
Qed.

End trace.

(** ** The theorems on concrete runs *)

Section witnesses.
#[local] Existing Instance word64.
#[local] Existing Instance token_classifier.

(** The run of the lexer on ["5;"] that returns the two tokens. *)
Lemma run_5_semicolon :
  run "5;" [ {| Type_ := INT; Literal := "5" |};
             {| Type_ := SEMICOLON; Literal := ";" |} ] (lexer_at "5;" 2).
Proof. by apply (NextTokens_run "5;" 2). Qed.

Lemma run_inv_witness :
  lexer_inv (lexer_at "5;" 2) ∧ input (lexer_at "5;" 2) = "5;" ∧
  2 ≤ currentPosition (lexer_at "5;" 2) ≤ len "5;" + 2.
Proof.
  exact (run_inv "5;" _ _ run_5_semicolon ltac:(by vm_compute)).
Defined.

Lemma run_scan_n_witness :
  [ {| Type_ := INT; Literal := "5" |};
    {| Type_ := SEMICOLON; Literal := ";" |} ] = fst (scan_n 2 "5;") ∧
  Forall token_wf [ {| Type_ := INT; Literal := "5" |};
                    {| Type_ := SEMICOLON; Literal := ";" |} ].
Proof.
  exact (run_scan_n "5;" _ _ run_5_semicolon ltac:(by vm_compute)).
Defined.

Lemma run_lookahead_witness :
  input (lexer_at "5;" 2) = "5;" ∧
  nextCharPosition (lexer_at "5;" 2) =
    int_add (currentPosition (lexer_at "5;" 2)) 1 ∧
  currentChar (lexer_at "5;" 2) =
    byte_at "5;" (currentPosition (lexer_at "5;" 2)) ∧
  Z.of_nat 2 ≤ currentPosition (lexer_at "5;" 2) ≤ max_int.
Proof.
  exact (run_lookahead "5;" _ _ run_5_semicolon ltac:(by vm_compute)).
Defined.

(** ["5;"]: two calls, then three [EOF]s. *)
Lemma NextTokens_terminates_witness :
  ∃ toks lexer,
    (lexer ← New "5;"; NextTokens 5 lexer) =
      Ok (toks ++ [eof_token; eof_token; eof_token], lexer) ∧
    length toks = 2%nat.
Proof.
  exact (NextTokens_terminates "5;" 2 3 ltac:(by vm_compute)
    ltac:(by vm_compute)).
Defined.

End witnesses.
