(* ===== verification/LexerSeq.v ===== *)
(** * Sequences of calls of [NextToken]

    What the tokens of a whole run say of the input: whitespace inserted
    between two tokens of the input changes no token of the run, and the
    literals of the tokens, one after the other, are the input without its
    whitespace.  Both are the theorems of [ScanSeq] on the specification,
    carried to the lexer by the refinement. *)

From Stdlib Require Import ZArith Ascii String List Lia.
From stdpp Require Import base tactics option list strings.
From S2P Require Import Prelude StrSeq GoRuntime Chars Token Lexer Scan ScanSeq.
From S2P Require Import LexerInv Refinement LexerOverflow.

#[local] Open Scope Z_scope.

Section seq.
Context {sz : IntSize} {classifier : Classifier}.
Implicit Types (lexer : Lexer) (toks : list Token) (s x w r : string)
  (pos : Z) (n k : nat).

(** ** From a run that returned to the specification *)

(** A run of [k] calls that returned, and whose cursor has not reached the
    largest [int], is the run the specification describes: the converse of
    [NextTokens_scan_n], with the bound on the result instead of on the
    specification. *)
Lemma NextTokens_Ok_at k s pos toks lexer :
  len s + 1 < max_int → 0 ≤ pos < max_int →
  NextTokens k (lexer_at s pos) = Ok (toks, lexer) →
  currentPosition lexer < max_int →
  toks = fst (scan_n k (rest_at s pos)) ∧
  lexer = lexer_at s (pos + snd (scan_n k (rest_at s pos))).
Proof.
  intros Hlen. revert pos toks. induction k as [|k IH]; intros pos toks Hpos.
  { intros [= <- <-] _. by rewrite Z.add_0_r. }
  destruct (decide (pos + 1 < max_int)) as [Hlt | Hge].
  - rewrite scan_n_S. simpl NextTokens. rewrite NextToken_scan by lia. simpl.
    pose proof (scan_progress (rest_at s pos)).
    pose proof (scan_rest_bound s pos ltac:(lia)).
    destruct (NextTokens k _) as [[toks1 l1]|] eqn:E; [| done]. simpl.
    intros [= <- <-] Hcur.
    destruct (IH (pos + snd (scan (rest_at s pos))) toks1) as [-> ->];
      [lia | done | done |].
    rewrite rest_at_scan by lia. split; [done |]. f_equal. lia.
  - replace pos with (max_int - 1) by lia. simpl NextTokens.
    rewrite NextToken_at_last by done. simpl. destruct k; simpl.
    + intros [= <- <-]. simpl. lia.
    + by rewrite NextToken_overflowed.
Qed.

(** ** The theorems *)

(** C17.  Whitespace invisibility: spaces, tabs, newlines and carriage
    returns inserted in the input at a position where a token ends (the
    cursor after [k] calls on the input without them) change none of the
    tokens that [n] calls of [NextToken] return, for every [n]. *)
Theorem NextTokens_whitespace_invisible x w r k toks0 lexer0 n :
  str_forallb isWhitespace w = true →
  len (x +:+ w +:+ r) + Z.of_nat n + 1 < max_int →
  (lexer ← New (x +:+ r); NextTokens k lexer) = Ok (toks0, lexer0) →
  currentPosition lexer0 = len x →
  ∃ toks lexer1 lexer2,
    (lexer ← New (x +:+ w +:+ r); NextTokens n lexer) = Ok (toks, lexer1) ∧
    (lexer ← New (x +:+ r); NextTokens n lexer) = Ok (toks, lexer2).
Proof.
  intros Hw Hmax. rewrite !New_at. simpl. intros Hrun Hcur.
  rewrite !len_app in Hmax. pose proof (len_nonneg x).
  pose proof (len_nonneg w). pose proof (len_nonneg r).
  apply NextTokens_Ok_at in Hrun as [_ ->]; rewrite ?len_app; [| lia..].
  simpl in Hcur. rewrite rest_at_0, Z.add_0_l in Hcur.
  pose proof (scan_n_bound n (x +:+ w +:+ r)) as Hb1.
  pose proof (scan_n_bound n (x +:+ r)) as Hb2.
  rewrite !len_app in Hb1. rewrite !len_app in Hb2.
  rewrite !NextTokens_scan_n; rewrite ?rest_at_0, ?len_app; [| lia..].
  do 3 eexists. split; [done |].
  by rewrite (scan_n_insert_whitespace k).
Qed.

(** The literals of the tokens, one after the other, are the input
    without its whitespace: after [n] calls on an ASCII input without zero
    bytes, the concatenation of the literals returned so far is what is
    left of the input before the cursor when the spaces, tabs, newlines and
    carriage returns are taken out. *)
Theorem NextTokens_literals s n :
  str_forallb is_ascii s = true → str_forallb not_NUL s = true →
  len s + Z.of_nat n + 1 < max_int →
  ∃ toks lexer,
    (lexer ← New s; NextTokens n lexer) = Ok (toks, lexer) ∧
    str_concat (Literal <$> toks) =
      str_filter not_whitespace
        (str_take (Z.to_nat (currentPosition lexer)) s).
Proof.
  intros Ha Hn Hmax. rewrite New_at. simpl.
  pose proof (scan_n_bound n s). pose proof (len_nonneg s).
  rewrite NextTokens_scan_n; rewrite ?rest_at_0; [| lia..].
  do 2 eexists. split; [done |]. simpl. rewrite Z.add_0_l.
  by apply scan_n_literals.
Qed.

End seq.

(** ** The theorems on concrete inputs *)

Section witnesses.
#[local] Existing Instance word64.
#[local] Existing Instance token_classifier.

(** Two spaces more between ["let"] and [" five"]. *)
Lemma NextTokens_whitespace_invisible_witness :
  ∃ toks lexer1 lexer2,
    (lexer ← New "let   five"; NextTokens 3 lexer) = Ok (toks, lexer1) ∧
    (lexer ← New "let five"; NextTokens 3 lexer) = Ok (toks, lexer2).
Proof.
  exact (NextTokens_whitespace_invisible "let" "  " " five" 1
    [ {| Type_ := LET; Literal := "let" |} ] (lexer_at "let five" 3) 3
    ltac:(done) ltac:(by vm_compute) ltac:(by vm_compute) ltac:(done)).
Defined.

Lemma NextTokens_literals_witness :
  ∃ toks lexer,
    (lexer ← New "let five = 5;"; NextTokens 6 lexer) = Ok (toks, lexer) ∧
    str_concat (Literal <$> toks) =
      str_filter not_whitespace
        (str_take (Z.to_nat (currentPosition lexer)) "let five = 5;").
Proof.
  exact (NextTokens_literals "let five = 5;" 6 ltac:(done) ltac:(done)
    ltac:(by vm_compute)).
Defined.

End witnesses.
