(* ===== verification/LexerTests.v ===== *)
(** * The tests of src/lexer/lexer_test.go, run on the model

    The two table types, the loop that the three table tests share
    ([check_tokens]: call [NextToken], compare the kind, compare the
    literal, stop at the first mismatch) and the four test functions.
    [testing.T] is reduced to the outcome of a test: [Pass], or [Fatalf]
    with the arguments the source passes to it.  A panic of the lexer is a
    [Panic] of the test.

    The file proves that the loop passes exactly when the calls of
    [NextToken] return the tokens of the table.  It also runs the four
    tests and the example scenarios of the specification on the model, for
    both widths of [int]: computations on fixed inputs, which test the
    model; what the loop decides on every input is in [TestVerdict]. *)

From Stdlib Require Import ZArith Ascii String List Lia.
From stdpp Require Import base tactics option list strings.
From S2P Require Import Prelude GoRuntime Chars Token Lexer Scan.
From S2P Require Import LexerInv Refinement.

#[local] Open Scope Z_scope.

(** [type GeneralTest struct] *)
Record GeneralTest : Set := {
  expectedType : TokenType;
  expectedLiteral : string
}.

(** [type DefaultValueTest struct]: its fields have the names of the fields
    of [Lexer], hence the module. *)
Module DefaultValueTest.
Record t : Set := {
  currentPosition : Z;
  nextCharPosition : Z;
  currentChar : ascii
}.
End DefaultValueTest.

(** The calls of [t.Fatalf] in the tests, with their arguments in the order
    of the source. *)
Inductive failure : Set :=
| TokenTypeWrong (i : nat) (expected got : TokenType)
| LiteralWrong (i : nat) (expected got : string)
| WrongPosition (arg1 arg2 : Z)
| WrongReadPosition (arg1 arg2 : Z)
| WrongCharacter (arg1 arg2 : ascii).

Inductive outcome : Set :=
| Pass
| Fatalf (f : failure).

(** The token a row of a table expects. *)
Definition expected_token (row : GeneralTest) : Token :=
  {| Type_ := expectedType row; Literal := expectedLiteral row |}.

Definition LF : string := String "010" "".
Definition TAB : string := String "009" "".

Section tests.
Context {sz : IntSize}.
#[local] Existing Instance token_classifier.

(** [for i, result := range expectedResult { got := lexer.NextToken() ... }]:
    the loop of [TestBasicToken], [TestNextToken] and [TestBasicSyntax],
    from row [i] of the table on. *)
Fixpoint check_tokens (i : nat) (expectedResult : list GeneralTest)
    (lexer : Lexer) : result (outcome * Lexer) :=
  match expectedResult with
  | [] => Ok (Pass, lexer)
  | result :: expectedResult =>
      '(got, lexer) ← NextToken lexer;
      if decide (Type_ got ≠ expectedType result) then
        Ok (Fatalf (TokenTypeWrong i (expectedType result) (Type_ got)), lexer)
      else if decide (Literal got ≠ expectedLiteral result) then
        Ok (Fatalf (LiteralWrong i (expectedLiteral result) (Literal got)),
            lexer)
      else check_tokens (S i) expectedResult lexer
  end.

(** [func TestBasicToken(t *testing.T)] *)
Definition TestBasicToken : result outcome :=
  let input := "={}5;)" in
  let expectedResult := [
    {| expectedType := ASSIGN; expectedLiteral := "=" |};
    {| expectedType := LBRACE; expectedLiteral := "{" |};
    {| expectedType := RBRACE; expectedLiteral := "}" |};
    {| expectedType := INT; expectedLiteral := "5" |};
    {| expectedType := SEMICOLON; expectedLiteral := ";" |};
    {| expectedType := RPAREN; expectedLiteral := ")" |} ] in
  lexer ← New input;
  fst <$> check_tokens 0 expectedResult lexer.

(** [func TestDefaultValue(t *testing.T)].  The source passes the value of
    the lexer first and the expected value second to [t.Fatalf], under a
    format that names them the other way round. *)
Definition TestDefaultValue : result outcome :=
  let input := "let five = 5;" in
  let expectedResult :=
    {| DefaultValueTest.currentPosition := 0;
       DefaultValueTest.nextCharPosition := 1;
       DefaultValueTest.currentChar := "l" |} in
  lexer ← New input;
  if decide (currentPosition lexer
             ≠ DefaultValueTest.currentPosition expectedResult) then
    Ok (Fatalf (WrongPosition (currentPosition lexer)
                  (DefaultValueTest.currentPosition expectedResult)))
  else if decide (nextCharPosition lexer
                  ≠ DefaultValueTest.nextCharPosition expectedResult) then
    Ok (Fatalf (WrongReadPosition (nextCharPosition lexer)
                  (DefaultValueTest.nextCharPosition expectedResult)))
  else if decide (currentChar lexer
                  ≠ DefaultValueTest.currentChar expectedResult) then
    Ok (Fatalf (WrongCharacter (currentChar lexer)
                  (DefaultValueTest.currentChar expectedResult)))
  else Ok Pass.

(** [func TestNextToken(t *testing.T)] *)
Definition TestNextToken : result outcome :=
  let input := "let five = 5;" in
  let expectedResult := [
    {| expectedType := LET; expectedLiteral := "let" |};
    {| expectedType := IDENT; expectedLiteral := "five" |};
    {| expectedType := ASSIGN; expectedLiteral := "=" |};
    {| expectedType := INT; expectedLiteral := "5" |};
    {| expectedType := SEMICOLON; expectedLiteral := ";" |} ] in
  lexer ← New input;
  fst <$> check_tokens 0 expectedResult lexer.

(** [func TestBasicSyntax(t *testing.T)]: the raw string of the source
    holds newlines and tabs. *)
Definition TestBasicSyntax : result outcome :=
  let input :=
    "let x = 5;" +:+ LF +:+
    TAB +:+ "let y = 10;" +:+ LF +:+
    TAB +:+ "let add = fn(x, y) {" +:+ LF +:+
    TAB +:+ TAB +:+ "x + y;" +:+ LF +:+
    TAB +:+ "};" +:+ LF +:+
    LF +:+
    TAB +:+ "let result = add(x, y);" in
  let expectedResult := [
    {| expectedType := LET; expectedLiteral := "let" |};
    {| expectedType := IDENT; expectedLiteral := "x" |};
    {| expectedType := ASSIGN; expectedLiteral := "=" |};
    {| expectedType := INT; expectedLiteral := "5" |};
    {| expectedType := SEMICOLON; expectedLiteral := ";" |};
    {| expectedType := LET; expectedLiteral := "let" |};
    {| expectedType := IDENT; expectedLiteral := "y" |};
    {| expectedType := ASSIGN; expectedLiteral := "=" |};
    {| expectedType := INT; expectedLiteral := "10" |};
    {| expectedType := SEMICOLON; expectedLiteral := ";" |};
    {| expectedType := LET; expectedLiteral := "let" |};
    {| expectedType := IDENT; expectedLiteral := "add" |};
    {| expectedType := ASSIGN; expectedLiteral := "=" |};
    {| expectedType := FUNCTION; expectedLiteral := "fn" |};
    {| expectedType := LPAREN; expectedLiteral := "(" |};
    {| expectedType := IDENT; expectedLiteral := "x" |};
    {| expectedType := COMMA; expectedLiteral := "," |};
    {| expectedType := IDENT; expectedLiteral := "y" |};
    {| expectedType := RPAREN; expectedLiteral := ")" |};
    {| expectedType := LBRACE; expectedLiteral := "{" |};
    {| expectedType := IDENT; expectedLiteral := "x" |};
    {| expectedType := PLUS; expectedLiteral := "+" |};
    {| expectedType := IDENT; expectedLiteral := "y" |};
    {| expectedType := SEMICOLON; expectedLiteral := ";" |};
    {| expectedType := RBRACE; expectedLiteral := "}" |};
    {| expectedType := SEMICOLON; expectedLiteral := ";" |};
    {| expectedType := LET; expectedLiteral := "let" |};
    {| expectedType := IDENT; expectedLiteral := "result" |};
    {| expectedType := ASSIGN; expectedLiteral := "=" |};
    {| expectedType := IDENT; expectedLiteral := "add" |};
    {| expectedType := LPAREN; expectedLiteral := "(" |};
    {| expectedType := IDENT; expectedLiteral := "x" |};
    {| expectedType := COMMA; expectedLiteral := "," |};
    {| expectedType := IDENT; expectedLiteral := "y" |};
    {| expectedType := RPAREN; expectedLiteral := ")" |};
    {| expectedType := SEMICOLON; expectedLiteral := ";" |} ] in
  lexer ← New input;
  fst <$> check_tokens 0 expectedResult lexer.

(** ** Lemmas *)

Lemma token_eq_expected got row :
  Type_ got = expectedType row → Literal got = expectedLiteral row →
  got = expected_token row.
Proof. destruct got. unfold expected_token. simpl. by intros -> ->. Qed.

(** One row of the loop that matches. *)
Lemma check_tokens_cons_match i row rows lexer lexer1 :
  NextToken lexer = Ok (expected_token row, lexer1) →
  check_tokens i (row :: rows) lexer = check_tokens (S i) rows lexer1.
Proof.
  intros E. simpl. rewrite E. simpl.
  by rewrite !decide_False by (by intros []).
Qed.

(** One row of the loop that passes has matched. *)
Lemma check_tokens_cons_pass i row rows lexer lexer' :
  check_tokens i (row :: rows) lexer = Ok (Pass, lexer') →
  ∃ lexer1,
    NextToken lexer = Ok (expected_token row, lexer1) ∧
    check_tokens (S i) rows lexer1 = Ok (Pass, lexer').
Proof.
  simpl. destruct (NextToken lexer) as [[got lexer1]|]; [| done]. simpl.
  repeat case_decide; try done. intros Hrest. exists lexer1.
  split; [| done]. f_equal. f_equal.
  by apply token_eq_expected.
Qed.

(** ** The theorems *)

(** The loop of the table tests passes exactly when the calls of
    [NextToken], one per row, return the tokens the rows expect, in the
    order of the table; it leaves the lexer in the state these calls
    leave. *)
Theorem check_tokens_pass i expectedResult lexer lexer' :
  check_tokens i expectedResult lexer = Ok (Pass, lexer') ↔
  NextTokens (length expectedResult) lexer =
    Ok (expected_token <$> expectedResult, lexer').
Proof.
  revert i lexer. induction expectedResult as [|row rows IH]; intros i lexer.
  - simpl. split; by intros [= <-].
  - split.
    + intros (lexer1 & E & Hrest)%check_tokens_cons_pass.
      apply IH in Hrest. simpl. rewrite E. simpl. by rewrite Hrest.
    + simpl length. simpl NextTokens.
      destruct (NextToken lexer) as [[got lexer1]|] eqn:E; [| done]. simpl.
      destruct (NextTokens _ lexer1) as [[toks lexer2]|] eqn:E2; [| done].
      simpl. intros [= -> -> ->].
      etrans; [apply (check_tokens_cons_match i row rows _ _ E) |].
      by apply IH.
Qed.

End tests.

(** The four tests of lexer_test.go pass on the model, whether [int]
    has 32 or 64 bits. *)
Theorem tests_pass {sz : IntSize} :
  TestBasicToken = Ok Pass ∧ TestDefaultValue = Ok Pass ∧
  TestNextToken = Ok Pass ∧ TestBasicSyntax = Ok Pass.
Proof. destruct sz; by vm_compute. Qed.

(** The example scenarios of the specification: ["5x"] is the integer
    ["5"] followed by the identifier ["x"], ["@"] is an [ILLEGAL] token
    followed by [EOF], the empty input gives [EOF] at the first call, and
    ["={}5;)"] is followed by [EOF] at every further call. *)
Theorem spec_scenarios {sz : IntSize} :
  fst <$> (lexer ← New "5x"; NextTokens 2 lexer) =
    Ok [ {| Type_ := INT; Literal := "5" |};
         {| Type_ := IDENT; Literal := "x" |} ] ∧
  fst <$> (lexer ← New "@"; NextTokens 2 lexer) =
    Ok [ {| Type_ := ILLEGAL; Literal := "@" |}; eof_token ] ∧
  fst <$> (lexer ← New ""; NextTokens 1 lexer) = Ok [ eof_token ] ∧
  drop 6 <$> (fst <$> (lexer ← New "={}5;)"; NextTokens 9 lexer)) =
    Ok [ eof_token; eof_token; eof_token ].
Proof. destruct sz; by vm_compute. Qed.
