(* ===== verification/TestVerdict.v ===== *)
(** * What the table tests of src/lexer/lexer_test.go decide

    The loop of [TestBasicToken], [TestNextToken] and [TestBasicSyntax]
    ([LexerTests.check_tokens]) against a reference that does not run the
    lexer: [table_verdict rows toks] compares the rows of a table with the
    tokens [toks] and reports the first row that differs, the kind before
    the literal.  The file proves that a table test on the input [s] ends
    with the verdict of its table on the tokens of the specification, on
    the branches that call [t.Fatalf] as on the one that passes, after the
    calls up to the row it reports; and that the verdict does not depend on
    what the input holds after the last token of the table, so that no
    table test looks at the end of the input. *)

From Stdlib Require Import ZArith Ascii String List Lia.
From stdpp Require Import base tactics option list strings.
From S2P Require Import Prelude GoRuntime Chars Token Lexer Scan ScanSeq.
From S2P Require Import LexerInv Refinement LexerTests.

#[local] Open Scope Z_scope.

(** A row of a table and the token that the lexer returned for it differ. *)
Definition differs (p : GeneralTest * Token) : Prop :=
  p.2 ≠ expected_token p.1.

#[export] Instance differs_dec p : Decision (differs p).
Proof. unfold differs. apply _. Defined.

(** What the loop reports of row [i] when the token [got] differs from it:
    the kind when the kinds differ, the literal otherwise. *)
Definition report (i : nat) (row : GeneralTest) (got : Token) : failure :=
  if decide (Type_ got = expectedType row)
  then LiteralWrong i (expectedLiteral row) (Literal got)
  else TokenTypeWrong i (expectedType row) (Type_ got).

(** The verdict of a table on the tokens [toks]: the first row that
    differs from its token, if there is one. *)
Definition table_verdict (rows : list GeneralTest) (toks : list Token)
    : outcome :=
  match list_find differs (zip rows toks) with
  | Some (i, (row, got)) => Fatalf (report i row got)
  | None => Pass
  end.

(** The calls of [NextToken] the loop makes: one per row, up to the row it
    reports. *)
Definition table_calls (rows : list GeneralTest) (toks : list Token) : nat :=
  match list_find differs (zip rows toks) with
  | Some (i, _) => S i
  | None => length rows
  end.

(** [expectedResult] of [TestNextToken] (lexer_test.go, 74-80), the table
    the theorems are applied to below. *)
Definition TestNextToken_rows : list GeneralTest :=
  [ {| expectedType := LET; expectedLiteral := "let" |};
    {| expectedType := IDENT; expectedLiteral := "five" |};
    {| expectedType := ASSIGN; expectedLiteral := "=" |};
    {| expectedType := INT; expectedLiteral := "5" |};
    {| expectedType := SEMICOLON; expectedLiteral := ";" |} ].

Section verdict.
Context {sz : IntSize}.
#[local] Existing Instance token_classifier.
Implicit Types (i j n : nat) (row : GeneralTest) (rows : list GeneralTest)
  (got tok : Token) (toks : list Token) (s x y : string) (pos : Z).

(** ** One row *)

Lemma differs_cases row got :
  differs (row, got) ↔
  Type_ got ≠ expectedType row ∨ Literal got ≠ expectedLiteral row.
Proof.
  unfold differs, expected_token. destruct got as [t lit]. simpl. split.
  - intros H. destruct (decide (t = expectedType row)) as [->|]; [| by left].
    right. by intros ->.
  - by intros [H|H] [= ? ?].
Qed.

(** One turn of the loop on a token that differs. *)
Lemma check_tokens_differs i row rows lexer got lexer1 :
  NextToken lexer = Ok (got, lexer1) → differs (row, got) →
  check_tokens i (row :: rows) lexer = Ok (Fatalf (report i row got), lexer1).
Proof.
  intros E Hd%differs_cases. simpl. rewrite E. simpl. unfold report.
  destruct (decide (Type_ got = expectedType row)) as [Ht|Ht].
  - rewrite decide_False, decide_True by naive_solver. done.
  - by rewrite decide_True by done.
Qed.

(** One turn of the loop on the token the row expects. *)
Lemma check_tokens_same i row rows lexer got lexer1 :
  NextToken lexer = Ok (got, lexer1) → ¬ differs (row, got) →
  check_tokens i (row :: rows) lexer = check_tokens (S i) rows lexer1.
Proof.
  intros E Hd%dec_stable. simpl in Hd. subst got.
  by apply check_tokens_cons_match.
Qed.

(** ** The loop *)

(** The loop from row [i] of the table on, on the lexer at [pos]. *)
Lemma check_tokens_at i rows s pos :
  len s + 1 < max_int → 0 ≤ pos →
  pos + snd (scan_n (length rows) (rest_at s pos)) < max_int →
  check_tokens i rows (lexer_at s pos) =
    match list_find differs
            (zip rows (fst (scan_n (length rows) (rest_at s pos)))) with
    | Some (j, (row, got)) =>
        Ok (Fatalf (report (i + j) row got),
            lexer_at s (pos + snd (scan_n (S j) (rest_at s pos))))
    | None =>
        Ok (Pass, lexer_at s (pos + snd (scan_n (length rows) (rest_at s pos))))
    end.
Proof.
  intros Hlen. revert i pos.
  induction rows as [|row rows IH]; intros i pos Hpos Hmax.
  { simpl. by rewrite Z.add_0_r. }
  cbn [length] in *. rewrite !scan_n_S in *. cbn [fst snd zip zip_with] in *.
  pose proof (scan_progress (rest_at s pos)) as Hp.
  pose proof (scan_n_progress (length rows)
    (str_drop (Z.to_nat (snd (scan (rest_at s pos)))) (rest_at s pos))).
  pose proof (NextToken_scan s pos Hlen Hpos ltac:(lia)) as E.
  rewrite <- rest_at_scan in * by done. cbn [list_find]. case_decide as Hd.
  { rewrite (check_tokens_differs _ _ _ _ _ _ E Hd), ?Nat.add_0_r, scan_n_S.
    cbn [scan_n snd]. by rewrite Z.add_0_r. }
  rewrite (check_tokens_same _ _ _ _ _ _ E Hd), IH by lia.
  destruct (list_find _ _) as [[j [row' got']]|]; cbn -[scan_n scan Z.add];
    rewrite ?(scan_n_S (S j)); cbn [snd];
    rewrite <- ?rest_at_scan, ?Nat.add_succ_r, ?Z.add_assoc by done; done.
Qed.

(** A table test: [New], then the loop from row [0] on. *)
Lemma check_tokens_New rows s :
  len s + Z.of_nat (length rows) + 1 < max_int →
  (lexer ← New s; check_tokens 0 rows lexer) =
    Ok (table_verdict rows (fst (scan_n (length rows) s)),
        lexer_at s
          (snd (scan_n (table_calls rows (fst (scan_n (length rows) s))) s))).
Proof.
  intros Hmax. pose proof (scan_n_bound (length rows) s). pose proof (len_nonneg s).
  rewrite New_at. cbn [mbind result_bind].
  rewrite check_tokens_at; rewrite ?rest_at_0; [| lia..].
  unfold table_verdict, table_calls.
  by destruct (list_find _ _) as [[j [row got]]|].
Qed.

(** ** The reference verdict *)

(** It passes when the tokens are those of the rows. *)
Lemma table_verdict_Pass rows toks :
  length toks = length rows →
  table_verdict rows toks = Pass ↔ toks = expected_token <$> rows.
Proof.
  unfold table_verdict. revert toks.
  induction rows as [|row rows IH]; intros [|got toks] Hlen; try done.
  injection Hlen as Hlen. specialize (IH toks Hlen).
  cbn [zip_with list_find fmap list_fmap]. case_decide as Hd.
  - split; [done |]. intros [= -> _]. by destruct Hd.
  - apply dec_stable in Hd. simpl in Hd. subst got.
    destruct (list_find _ _) as [[j [row' got']]|]; simpl in *.
    + split; [done |]. by intros [= ?%IH].
    + split; [intros _; f_equal; by apply IH | done].
Qed.

(** It fails at the first row whose token differs, with the report of that
    row. *)
Lemma table_verdict_Fatalf rows toks f :
  table_verdict rows toks = Fatalf f ↔
  ∃ i row got,
    rows !! i = Some row ∧ toks !! i = Some got ∧
    got ≠ expected_token row ∧ f = report i row got ∧
    ∀ j row' got', (j < i)%nat → rows !! j = Some row' →
      toks !! j = Some got' → got' = expected_token row'.
Proof.
  unfold table_verdict. split.
  - destruct (list_find _ _) as [[i [row got]]|] eqn:E; [| done].
    intros [= <-]. apply list_find_Some in E as (Hi & Hd & Hleast).
    apply lookup_zip_with_Some in Hi as (? & ? & [= <- <-] & Hrow & Hgot).
    exists i, row, got. split_and!; try done.
    intros j row' got' Hj Hrow' Hgot'.
    apply (dec_stable (P := got' = expected_token row')).
    apply (Hleast j (row', got')); [| done].
    apply lookup_zip_with_Some. eauto.
  - intros (i & row & got & Hrow & Hgot & Hd & -> & Hleast).
    rewrite (proj2 (list_find_Some differs _ i (row, got))); [done |].
    split_and!; [apply lookup_zip_with_Some; eauto | done |].
    intros j [row' got'] (? & ? & [= <- <-] & ? & ?)%lookup_zip_with_Some Hj.
    unfold differs. simpl. intros Hne. apply Hne. eauto.
Qed.

(** ** The theorems *)

(** C36.  A table test decides what its table says of the tokens of the
    specification: [New s] and the loop over the rows never panic and end
    with the verdict of the table on the first tokens of [s], after the
    calls up to the row that is reported; the verdict is [Pass] exactly
    when these tokens are the tokens the rows expect, and otherwise names
    the first row whose token differs. *)
Theorem check_tokens_verdict rows s :
  len s + Z.of_nat (length rows) + 1 < max_int →
  (lexer ← New s; check_tokens 0 rows lexer) =
    Ok (table_verdict rows (fst (scan_n (length rows) s)),
        lexer_at s
          (snd (scan_n (table_calls rows (fst (scan_n (length rows) s))) s))) ∧
  (table_verdict rows (fst (scan_n (length rows) s)) = Pass ↔
   fst (scan_n (length rows) s) = expected_token <$> rows).
Proof.
  intros Hmax. split; [by apply check_tokens_New |].
  apply table_verdict_Pass, scan_n_length.
Qed.

(** C37.  The table tests do not look past their last row: when the tokens
    of the rows end where [x] ends, the verdict on [x +:+ y] is the verdict
    on [x], whatever [y] holds, unless it starts with a letter or a digit
    (which could make the last token longer). *)
Theorem check_tokens_local rows x y :
  len (x +:+ y) + Z.of_nat (length rows) + 1 < max_int →
  snd (scan_n (length rows) x) = len x →
  isLetter (str_head NUL y) = false → isDigit (str_head NUL y) = false →
  fst <$> (lexer ← New (x +:+ y); check_tokens 0 rows lexer) =
    fst <$> (lexer ← New x; check_tokens 0 rows lexer).
Proof.
  intros Hmax Hx Hl Hd. pose proof (len_app x y). pose proof (len_nonneg y).
  rewrite !check_tokens_New by lia. simpl. do 3 f_equal.
  rewrite <- (str_app_nil_r x) at 2.
  apply scan_n_app_local; [by rewrite str_app_nil_r |].
  split; simpl; congruence.
Qed.

End verdict.

(** ** The theorems on concrete tables *)

Section witnesses.
#[local] Existing Instance word64.
#[local] Existing Instance token_classifier.

(** [TestNextToken] is its table run on its input. *)
Lemma TestNextToken_rows_run :
  TestNextToken =
    (lexer ← New "let five = 5;";
     fst <$> check_tokens 0 TestNextToken_rows lexer).
Proof. reflexivity. Qed.

(** The table of [TestNextToken] on an input whose second word is not
    ["five"]: the loop stops at row 1 with the literal it found. *)
Lemma check_tokens_verdict_witness :
  (lexer ← New "let  x = 5;"; check_tokens 0 TestNextToken_rows lexer) =
    Ok (table_verdict TestNextToken_rows
          (fst (scan_n (length TestNextToken_rows) "let  x = 5;")),
        lexer_at "let  x = 5;"
          (snd (scan_n (table_calls TestNextToken_rows
                  (fst (scan_n (length TestNextToken_rows) "let  x = 5;")))
                "let  x = 5;"))) ∧
  (table_verdict TestNextToken_rows
     (fst (scan_n (length TestNextToken_rows) "let  x = 5;")) = Pass ↔
   fst (scan_n (length TestNextToken_rows) "let  x = 5;") =
     expected_token <$> TestNextToken_rows).
Proof.
  exact (check_tokens_verdict TestNextToken_rows "let  x = 5;"
    ltac:(by vm_compute)).
Defined.

Example check_tokens_verdict_row_1 :
  fst <$> (lexer ← New "let  x = 5;";
           check_tokens 0 TestNextToken_rows lexer) =
    Ok (Fatalf (LiteralWrong 1 "five" "x")).
Proof. by vm_compute. Qed.

(** The table and the input of [TestNextToken], and the same input with an
    illegal byte and a number after it: the same verdict. *)
Lemma check_tokens_local_witness :
  fst <$> (lexer ← New ("let five = 5;" +:+ "@ 7");
           check_tokens 0 TestNextToken_rows lexer) =
    fst <$> (lexer ← New "let five = 5;";
             check_tokens 0 TestNextToken_rows lexer).
Proof.
  exact (check_tokens_local TestNextToken_rows "let five = 5;" "@ 7"
    ltac:(by vm_compute) ltac:(by vm_compute) ltac:(by vm_compute)
    ltac:(by vm_compute)).
Defined.

(** So [TestNextToken] would pass on that input too: it never asks for the
    token after [;]. *)
Example TestNextToken_blind :
  fst <$> (lexer ← New "let five = 5;@ 7";
           check_tokens 0 TestNextToken_rows lexer) = Ok Pass.
Proof. by vm_compute. Qed.

End witnesses.
